(** * HyperRelKG: the training loop, the CompGCN convolution layer and the
    top-level model, embedded from the Python sources

    - [Loop]  : src/loops/old_loops.py   ([training_loop_gcn])
    - [Torch] : the tensor operations the layer calls
    - [Layer] : src/models/old_gnn_layer.py ([CompGCNConv])
    - [Model] : src/models/hyper_gcn.py  ([HypRelModel])

    Python exceptions are values of [Py.exn]; a computation that may raise
    returns a [Py.result].  The training loop threads its local lists and an
    event trace through a small state-and-exception monad.  Tensors are
    lists of rows over a scalar type given by the class [Torch.Scalar]; the
    index tensors hold natural numbers. *)

From stdpp Require Import base list strings.
From Stdlib Require Import ZArith Floats Reals Lra.

Local Open Scope Z_scope.

(** ** Python-level vocabulary shared by the three modules *)

Module Py.

(** The exceptions the modelled code can raise. *)
Inductive exn :=
| UnboundLocalError    (* a local name read before any assignment *)
| ZeroDivisionError    (* [e % 0] *)
| ValueError           (* [np.argmax] of an empty sequence *)
| IndexError           (* tensor index out of range *)
| RuntimeError         (* torch: shapes do not broadcast, scatter out of range *)
| TypeError            (* [None] used where a tensor is needed *)
| AttributeError       (* an attribute that [__init__] did not set *)
| NotImplementedError. (* raised by [comp_func] *)

Inductive result (A : Type) :=
| Ok (a : A)
| Raise (x : exn).
Arguments Ok {A} a.
Arguments Raise {A} x.

Definition rbind {A B} (r : result A) (k : A -> result B) : result B :=
  match r with
  | Ok a => k a
  | Raise x => Raise x
  end.

(** A comprehension whose body may raise: the first exception wins. *)
Fixpoint mapM {A B} (f : A -> result B) (l : list A) : result (list B) :=
  match l with
  | [] => Ok []
  | a :: l' =>
      rbind (f a) (fun b => rbind (mapM f l') (fun bs => Ok (b :: bs)))
  end.

(** [range(lo, hi)] over Python integers. *)
Definition range (lo hi : Z) : list Z :=
  map (fun i => lo + Z.of_nat i) (seq 0 (Z.to_nat (hi - lo))).

(** [a % b]: the sign follows the divisor, as [Z.modulo] does; a zero
    divisor raises. *)
Definition py_mod (a b : Z) : result Z :=
  if b =? 0 then Raise ZeroDivisionError else Ok (a mod b).

(** [l[start:]] for a Python list: a negative start counts from the end and
    is clamped at the front, a start past the end gives the empty list. *)
Definition slice_from {A} (start : Z) (l : list A) : list A :=
  let n := Z.of_nat (length l) in
  if start <? 0 then drop (Z.to_nat (Z.max (n + start) 0)) l
  else drop (Z.to_nat start) l.

End Py.

(** ** The training loop (src/loops/old_loops.py) *)

Module Loop.
Import Py.

(** [summary_val['metrics']] as returned by the validation benchmark. *)
Record Metrics := mkMetrics {
  hits_at_1 : float;
  hits_at_3 : float;
  hits_at_5 : float;
  hits_at_10 : float;
  mrr : float;
  mr : float
}.

(** A batch of the sampler: [(triples, labels)]. *)
Record Batch := mkBatch {
  triples : list (list Z);
  labels : list (list float)
}.

(** The collaborators of the loop, as the answers they give.  The sampler is
    asked once per epoch, the model once per batch, the benchmark once per
    evaluated epoch; [np_mean] is numpy's mean. *)
Record Env := mkEnv {
  data_fn : Z -> list Batch;
  loss_item : Z -> nat -> float;
  np_mean : list float -> float;
  val_testbench : Z -> Metrics
}.

(** The keyword arguments of [training_loop_gcn] that steer it.
    [scheduler] is [true] when a scheduler object was passed. *)
Record Args := mkArgs {
  epochs : Z;
  eval_every : Z;
  qualifier_aware : bool;
  grad_clipping : bool;
  early_stopping : option Z;
  scheduler : bool
}.

(** What the loop does to the outside world, in order. *)
Inductive event :=
| EvDataFn (e : Z)               (* trn_dl = data_fn(data['train']) *)
| EvTrainMode (e : Z)            (* model.train() *)
| EvZeroGrad (e : Z) (i : nat)   (* opt.zero_grad() *)
| EvForward (e : Z) (i : nat)    (* model(_sub, _rel, _quals); model.loss *)
| EvBackward (e : Z) (i : nat)   (* loss.backward() *)
| EvClipGrad (e : Z) (i : nat)   (* clip_grad_norm_(model.parameters(), 1.0) *)
| EvOptStep (e : Z) (i : nat)    (* opt.step() *)
| EvPrintLoss (e : Z)            (* "[Epoch: e ] Loss: ..." *)
| EvValidate (e : Z)             (* val_testbench() under torch.no_grad() *)
| EvPrintVal (e : Z)             (* the loss + validation + time line *)
| EvPrintStop (e : Z)            (* "Perforamance has not improved! ..." *)
| EvPrintNoBench (e : Z)         (* the loss-only line *)
| EvSchedStep (e : Z).           (* scheduler.step() *)

(** The local lists of the function, and the trace. *)
Record State := mkState {
  train_loss : list float;
  valid_acc : list float;
  valid_mrr : list float;
  valid_mr : list float;
  valid_hits_3 : list float;
  valid_hits_5 : list float;
  valid_hits_10 : list float;
  trace : list event
}.

Definition init_state : State := mkState [] [] [] [] [] [] [] [].

Inductive outcome (A : Type) :=
| Normal (a : A) (st : State)
| Raised (x : exn) (st : State).
Arguments Normal {A} a st.
Arguments Raised {A} x st.

(** The state in which a run ended, however it ended. *)
Definition out_state {A} (o : outcome A) : State :=
  match o with
  | Normal _ st => st
  | Raised _ st => st
  end.

Definition M (A : Type) : Type := State -> outcome A.

Definition ret {A} (a : A) : M A := fun st => Normal a st.

Definition bind {A B} (c : M A) (k : A -> M B) : M B :=
  fun st =>
    match c st with
    | Normal a st' => k a st'
    | Raised x st' => Raised x st'
    end.

Definition raise {A} (x : exn) : M A := fun st => Raised x st.

Definition lift {A} (r : result A) : M A :=
  match r with
  | Ok a => ret a
  | Raise x => raise x
  end.

Definition get : M State := fun st => Normal st st.

Definition emit (ev : event) : M unit :=
  fun st =>
    Normal tt (mkState (train_loss st) (valid_acc st) (valid_mrr st)
                 (valid_mr st) (valid_hits_3 st) (valid_hits_5 st)
                 (valid_hits_10 st) (trace st ++ [ev])).

Definition append_train_loss (x : float) : M unit :=
  fun st =>
    Normal tt (mkState (train_loss st ++ [x]) (valid_acc st) (valid_mrr st)
                 (valid_mr st) (valid_hits_3 st) (valid_hits_5 st)
                 (valid_hits_10 st) (trace st)).

(** Lines 108-113: the six appends of an evaluation. *)
Definition append_validation (m : Metrics) : M unit :=
  fun st =>
    Normal tt (mkState (train_loss st)
                 (valid_acc st ++ [hits_at_1 m])
                 (valid_mrr st ++ [mrr m])
                 (valid_mr st ++ [mr m])
                 (valid_hits_3 st ++ [hits_at_3 m])
                 (valid_hits_5 st ++ [hits_at_5 m])
                 (valid_hits_10 st ++ [hits_at_10 m])
                 (trace st)).

Notation "x <- c ;; k" := (bind c (fun x => k))
  (at level 100, c at next level, right associativity).
Notation "c ;;; k" := (bind c (fun _ => k))
  (at level 100, right associativity).

(** [np.argmax] over float64: the index of the first maximum; a NaN counts
    as the maximum and the first one wins; an empty sequence raises. *)
Fixpoint argmax_scan (mp : float) (best i : nat) (l : list float) : nat :=
  match l with
  | [] => best
  | x :: l' =>
      if PrimFloat.leb x mp then argmax_scan mp best (S i) l'
      else if PrimFloat.is_nan x then i
      else argmax_scan x i (S i) l'
  end.

Definition np_argmax (l : list float) : result nat :=
  match l with
  | [] => Raise ValueError
  | x :: l' => Ok (if PrimFloat.is_nan x then 0%nat else argmax_scan x 0%nat 1%nat l')
  end.

(** Line 133:
    [early_stopping is not None and len(valid_mrr) >= early_stopping
     and np.argmax(valid_mrr[-early_stopping:]) == 0]. *)
Definition early_stop_check (es : option Z) (vm : list float) : result bool :=
  match es with
  | None => Ok false
  | Some k =>
      if Z.of_nat (length vm) >=? k then
        rbind (np_argmax (slice_from (- k) vm)) (fun a => Ok (a =? 0)%nat)
      else Ok false
  end.

Section WithArgs.
Variable env : Env.
Variable args : Args.

(** Lines 69-91: one iteration of the batch loop.  [_quals] is assigned
    only under [qualifier_aware]; nothing else in the function assigns it,
    so reading it on line 81 raises when the flag is off. *)
Definition batch_body (e : Z) (i : nat) (b : Batch)
    (per_epoch_loss : list float) : M (list float) :=
  emit (EvZeroGrad e i) ;;;
  let _quals : option (list (list Z)) :=
    if qualifier_aware args then Some (map (drop 2) (triples b)) else None in
  match _quals with
  | None => raise UnboundLocalError
  | Some _ =>
      emit (EvForward e i) ;;;
      let per_epoch_loss := per_epoch_loss ++ [loss_item env e i] in
      emit (EvBackward e i) ;;;
      (if grad_clipping args then emit (EvClipGrad e i) else ret tt) ;;;
      emit (EvOptStep e i) ;;;
      ret per_epoch_loss
  end.

Fixpoint batch_loop (e : Z) (i : nat) (bs : list Batch)
    (per_epoch_loss : list float) : M (list float) :=
  match bs with
  | [] => ret per_epoch_loss
  | b :: bs' =>
      l <- batch_body e i b per_epoch_loss ;;
      batch_loop e (S i) bs' l
  end.

(** Lines 142-143. *)
Definition scheduler_step (e : Z) : M unit :=
  if scheduler args then emit (EvSchedStep e) else ret tt.

(** The body of the epoch loop says whether the loop goes on
    ([true]) or was left by [break] ([false]). *)
Definition epoch_body (e : Z) : M bool :=
  emit (EvDataFn e) ;;;
  emit (EvTrainMode e) ;;;
  per_epoch_loss <- batch_loop e 0%nat (data_fn env e) [] ;;
  emit (EvPrintLoss e) ;;;
  append_train_loss (np_mean env per_epoch_loss) ;;;
  r <- lift (py_mod e (eval_every args)) ;;
  if (r =? 0) && (e >=? 1) then
    emit (EvValidate e) ;;;
    append_validation (val_testbench env e) ;;;
    emit (EvPrintVal e) ;;;
    st <- get ;;
    stop <- lift (early_stop_check (early_stopping args) (valid_mrr st)) ;;
    if stop then
      emit (EvPrintStop e) ;;;
      ret false
    else
      scheduler_step e ;;;
      ret true
  else
    emit (EvPrintNoBench e) ;;;
    scheduler_step e ;;;
    ret true.

Fixpoint epoch_loop (es : list Z) : M unit :=
  match es with
  | [] => ret tt
  | e :: es' =>
      go_on <- epoch_body e ;;
      if go_on then epoch_loop es' else ret tt
  end.

(** The twelve lists of the [return] statement, in its order. *)
Record Histories := mkHistories {
  r_train_acc : list float;
  r_train_loss : list float;
  r_train_acc_bnchmk : list float;
  r_train_mrr_bnchmk : list float;
  r_train_hits_3_bnchmk : list float;
  r_train_hits_5_bnchmk : list float;
  r_train_hits_10_bnchmk : list float;
  r_valid_acc : list float;
  r_valid_mrr : list float;
  r_valid_hits_3 : list float;
  r_valid_hits_5 : list float;
  r_valid_hits_10 : list float
}.

Definition training_loop_gcn : outcome Histories :=
  (epoch_loop (range 1 (epochs args + 1)) ;;;
   st <- get ;;
   ret (mkHistories [] (train_loss st) [] [] [] [] []
          (valid_acc st) (valid_mrr st)
          (valid_hits_3 st) (valid_hits_5 st) (valid_hits_10 st)))
    init_state.

End WithArgs.

End Loop.

(** ** Reading a trace, and the words of the specification *)

Module LoopSpec.
Import Py Loop.

Definition started (tr : list event) : list Z :=
  omap (fun ev => match ev with EvDataFn e => Some e | _ => None end) tr.

Definition validated (tr : list event) : list Z :=
  omap (fun ev => match ev with EvValidate e => Some e | _ => None end) tr.

Definition sched_steps (tr : list event) : list Z :=
  omap (fun ev => match ev with EvSchedStep e => Some e | _ => None end) tr.

Definition stopped (tr : list event) : list Z :=
  omap (fun ev => match ev with EvPrintStop e => Some e | _ => None end) tr.

Definition opt_steps (tr : list event) : list (Z * nat) :=
  omap (fun ev => match ev with EvOptStep e i => Some (e, i) | _ => None end) tr.

(** The last [k] entries of a history. *)
Definition lastn {A} (k : nat) (l : list A) : list A :=
  drop (length l - k) l.

(** The first entry of a window is its maximum: no later entry exceeds it.
    numpy takes a NaN for the maximum, so a NaN in front qualifies. *)
Definition first_is_max (w : list float) : Prop :=
  match w with
  | [] => False
  | w0 :: rest =>
      PrimFloat.is_nan w0 = true \/
      Forall (fun x => PrimFloat.leb x w0 = true) rest
  end.

(** The seven lists the loop appends to. *)
Definition lists_of (st : State) :=
  (train_loss st, valid_acc st, valid_mrr st, valid_mr st,
   valid_hits_3 st, valid_hits_5 st, valid_hits_10 st).

(** Events of the batch loop start no epoch, validate nothing, step no
    scheduler and stop nothing. *)
Definition quiet (evs : list event) : Prop :=
  started evs = [] /\ validated evs = [] /\
  sched_steps evs = [] /\ stopped evs = [].

(** The values of one metric over the epochs [es]. *)
Definition history (env : Env) (f : Metrics -> float) (es : list Z) : list float :=
  map (fun e => f (val_testbench env e)) es.

(** The six validation lists of [st'] are those of [st] followed by the
    metrics of the epochs [es]. *)
Definition valid_appended (env : Env) (st st' : State) (es : list Z) : Prop :=
  valid_acc st' = valid_acc st ++ history env hits_at_1 es /\
  valid_mrr st' = valid_mrr st ++ history env mrr es /\
  valid_mr st' = valid_mr st ++ history env mr es /\
  valid_hits_3 st' = valid_hits_3 st ++ history env hits_at_3 es /\
  valid_hits_5 st' = valid_hits_5 st ++ history env hits_at_5 es /\
  valid_hits_10 st' = valid_hits_10 st ++ history env hits_at_10 es.

(** Epoch [e] is a multiple of the evaluation interval. *)
Definition evaluates (args : Args) (e : Z) : bool :=
  e mod eval_every args =? 0.

(** The early-stopping window is a positive number of evaluations, or early
    stopping is off. *)
Definition window_positive (args : Args) : Prop :=
  forall k, early_stopping args = Some k -> 1 <= k.

(** The check of line 133 on the MRR history of a state. *)
Definition check_of (args : Args) (st : State) : result bool :=
  early_stop_check (early_stopping args) (valid_mrr st).

(** The tuple that the [return] statement builds from a final state. *)
Definition returned (st : State) : Histories :=
  mkHistories [] (train_loss st) [] [] [] [] []
    (valid_acc st) (valid_mrr st)
    (valid_hits_3 st) (valid_hits_5 st) (valid_hits_10 st).

(** A run in which the benchmark reports the MRR values 0.5, 0.3, 0.2, ...
    on a two-batch sampler. *)
#[warnings="-inexact-float"]
Definition demo_metrics (e : Z) : Metrics :=
  let m := if e =? 1 then 0.5%float
           else if e =? 2 then 0.3%float
           else 0.2%float in
  mkMetrics m m m m m 1%float.

Definition demo_env : Env :=
  mkEnv (fun _ => [mkBatch [[0; 0; 1; 2]] [[1%float]];
                   mkBatch [[1; 0; 1; 2]] [[0%float]]])
        (fun _ _ => 0.5%float)
        (fun _ => 0.5%float)
        demo_metrics.

(** Ten epochs allowed, evaluation every epoch, a window of three, a
    scheduler: the run of the specification's second scenario. *)
Definition demo_args : Args := mkArgs 10 1 true true (Some 3) true.

(** One epoch, evaluation every second epoch. *)
Definition sparse_args : Args := mkArgs 1 2 true true (Some 3) true.

(** Qualifiers off. *)
Definition plain_args : Args := mkArgs 10 1 false true (Some 3) true.

End LoopSpec.

(** ** The trace of an epoch, written out *)

Module LoopTrace.
Import Py Loop LoopSpec.

(** [st] with the events [evs] added to its trace. *)
Definition emitted (st : State) (evs : list event) : State :=
  mkState (train_loss st) (valid_acc st) (valid_mrr st) (valid_mr st)
    (valid_hits_3 st) (valid_hits_5 st) (valid_hits_10 st) (trace st ++ evs).

(** [st] with one more entry in [train_loss]. *)
Definition with_loss (st : State) (x : float) : State :=
  mkState (train_loss st ++ [x]) (valid_acc st) (valid_mrr st) (valid_mr st)
    (valid_hits_3 st) (valid_hits_5 st) (valid_hits_10 st) (trace st).

(** [st] after the six appends of an evaluation. *)
Definition with_validation (st : State) (m : Metrics) : State :=
  mkState (train_loss st)
    (valid_acc st ++ [hits_at_1 m]) (valid_mrr st ++ [mrr m])
    (valid_mr st ++ [mr m]) (valid_hits_3 st ++ [hits_at_3 m])
    (valid_hits_5 st ++ [hits_at_5 m]) (valid_hits_10 st ++ [hits_at_10 m])
    (trace st).

(** What one batch does, in order: lines 69, 81-82, 86, 88-89, 91. *)
Definition batch_events (args : Args) (e : Z) (i : nat) : list event :=
  [EvZeroGrad e i; EvForward e i; EvBackward e i] ++
  (if grad_clipping args then [EvClipGrad e i] else []) ++
  [EvOptStep e i].

(** The batches of epoch [e], by position in the iterator. *)
Definition batch_indices (env : Env) (e : Z) : list nat :=
  seq 0 (length (data_fn env e)).

Definition epoch_batches (env : Env) (args : Args) (e : Z) : list event :=
  flat_map (batch_events args e) (batch_indices env e).

(** [per_epoch_loss] at the end of epoch [e]. *)
Definition epoch_losses (env : Env) (e : Z) : list float :=
  map (loss_item env e) (batch_indices env e).

Definition sched_events (args : Args) (e : Z) : list event :=
  if scheduler args then [EvSchedStep e] else [].

(** The events of an epoch that ran to its end ([go_on = true]) or was left
    by [break] ([go_on = false]). *)
Definition epoch_events (env : Env) (args : Args) (e : Z) (go_on : bool)
    : list event :=
  [EvDataFn e; EvTrainMode e] ++ epoch_batches env args e ++ [EvPrintLoss e] ++
  (if evaluates args e then
     [EvValidate e; EvPrintVal e] ++
     (if go_on then sched_events args e else [EvPrintStop e])
   else [EvPrintNoBench e] ++ sched_events args e).

Definition is_batch_event (ev : event) : bool :=
  match ev with
  | EvZeroGrad _ _ | EvForward _ _ | EvBackward _ _
  | EvClipGrad _ _ | EvOptStep _ _ => true
  | _ => false
  end.

(** The part of a trace that the batch loop wrote. *)
Definition batch_part (tr : list event) : list event :=
  List.filter is_batch_event tr.

(** The state after the batches of epoch [e], line 94 and line 95. *)
Definition after_batches (env : Env) (args : Args) (e : Z) (st : State) : State :=
  with_loss
    (emitted st ([EvDataFn e; EvTrainMode e] ++ epoch_batches env args e ++
                 [EvPrintLoss e]))
    (np_mean env (epoch_losses env e)).

(** The state after lines 99-129 of an evaluation. *)
Definition after_validation (env : Env) (args : Args) (e : Z) (st : State) : State :=
  emitted (with_validation (emitted (after_batches env args e st) [EvValidate e])
             (val_testbench env e)) [EvPrintVal e].

(** The batch loop of epoch [e] does not read an unassigned [_quals]. *)
Definition batches_run (env : Env) (args : Args) (e : Z) : Prop :=
  qualifier_aware args = true \/ data_fn env e = [].

(** The events of a run over the epochs [ran]: every epoch but the last
    runs to its end, and so does the last unless [stop]. *)
Fixpoint run_events (env : Env) (args : Args) (ran : list Z) (stop : bool)
    : list event :=
  match ran with
  | [] => []
  | [e] => epoch_events env args e (negb stop)
  | e :: ran' => epoch_events env args e true ++ run_events env args ran' stop
  end.

(** The mean batch loss of each of the epochs [ran]. *)
Definition epoch_means (env : Env) (ran : list Z) : list float :=
  map (fun e => np_mean env (epoch_losses env e)) ran.

(** No scheduler, evaluation every epoch, no early stopping. *)
Definition steady_args : Args := mkArgs 3 1 true false None false.

(** Evaluation switched to a zero interval. *)
Definition zero_args : Args := mkArgs 3 0 true true (Some 3) true.

(** A negative window. *)
Definition negative_args : Args := mkArgs 3 1 true true (Some (-2)) true.

(** A window of 0. *)
Definition zero_window_args : Args := mkArgs 3 1 true true (Some 0) true.

(** No epoch to run. *)
Definition idle_args : Args := mkArgs 0 1 true true (Some 3) true.

End LoopTrace.

(** ** Tensors (torch, torch_scatter) *)

Module Torch.
Import Py.
Local Open Scope nat_scope.

(** The scalar arithmetic of float tensors. *)
Class Scalar (F : Type) := mkScalar {
  fzero : F;
  fone : F;
  fadd : F -> F -> F;
  fsub : F -> F -> F;
  fmul : F -> F -> F;
  fthird : F;                 (* the Python float [1/3] *)
  fpow_neg_half : F -> F;     (* [x.pow(-0.5)] *)
  fis_inf : F -> bool         (* [x == float('inf')] *)
}.

(** [t[idx]] and [index_select(t, 0, idx)] along the first axis. *)
Definition gather {A} (t : list A) (idx : list nat) : result (list A) :=
  mapM (fun i => match t !! i with
                 | Some a => Ok a
                 | None => Raise IndexError
                 end) idx.

(** Two sizes broadcast when they agree or one of them is 1. *)
Definition bdim (n m : nat) : result nat :=
  if n =? m then Ok n
  else if n =? 1 then Ok m
  else if m =? 1 then Ok n
  else Raise RuntimeError.

(** The pairing of two axes whose sizes broadcast. *)
Definition bzip {A B} (d : A) (f : A -> A -> B) (a b : list A) : list B :=
  if length a =? length b then zip_with f a b
  else if length a =? 1 then map (f (hd d a)) b
  else map (fun x => f x (hd d b)) a.

(** A binary operation on one-dimensional tensors. *)
Definition ew1 {A} (d : A) (op : A -> A -> A) (a b : list A) : result (list A) :=
  rbind (bdim (length a) (length b)) (fun _ => Ok (bzip d op a b)).

(** [torch_scatter.scatter_add(src, index, dim=0, dim_size=n)] over rows of
    type [V]: a one-dimensional [index] is expanded to the rows of [src], the
    output starts at zero, row [i] of [src] is added to row [index[i]]; an
    index outside the output is an error. *)
Definition scatter_step {V} (vadd : V -> V -> V) (acc : list V)
    (iv : nat * V) : list V :=
  alter (fun o => vadd o (snd iv)) (fst iv) acc.

Definition scatter_add_gen {V} (vadd : V -> V -> V) (vzero : V)
    (src : list V) (index : list nat) (dim_size : nat) : result (list V) :=
  rbind (if length index =? length src then Ok index
         else if length index =? 1 then Ok (replicate (length src) (hd 0 index))
         else Raise RuntimeError)
    (fun idx =>
       if forallb (fun i => i <? dim_size) idx then
         Ok (fold_left (scatter_step vadd) (zip idx src)
               (replicate dim_size vzero))
       else Raise RuntimeError).

(** A [2 x E] index tensor: [edge_index[0]] and [edge_index[1]]. *)
Record Index2 := mkIndex2 {
  ix0 : list nat;
  ix1 : list nat
}.

(** [t[:, :n]] and [t[:, n:]]. *)
Definition take2 (n : nat) (t : Index2) : Index2 :=
  mkIndex2 (take n (ix0 t)) (take n (ix1 t)).
Definition drop2 (n : nat) (t : Index2) : Index2 :=
  mkIndex2 (drop n (ix0 t)) (drop n (ix1 t)).

(** [t[k] = v] on a tensor with [n] columns: [v] is copied when it has [n]
    entries, a [v] of one entry is expanded over the row (also over a row of
    no column), any other length is refused. *)
Definition assign_row (n : nat) (v : list nat) : result (list nat) :=
  if length v =? n then Ok v
  else if length v =? 1 then Ok (replicate n (hd 0 v))
  else Raise RuntimeError.

(** An optional argument used as a tensor. *)
Definition need {A} (o : option A) : result A :=
  match o with
  | Some a => Ok a
  | None => Raise TypeError
  end.

Section WithScalar.
Context {F : Type} {SF : Scalar F}.

(** A two-dimensional float tensor: its rows, and the size of its second
    axis (which a tensor without rows still has). *)
Record Tensor := mkTensor {
  cols : nat;
  rows : list (list F)
}.

Definition size0 (t : Tensor) : nat := length (rows t).

Definition well_shaped (t : Tensor) : Prop :=
  Forall (fun r => length r = cols t) (rows t).

Definition zeros (n d : nat) : Tensor :=
  mkTensor d (replicate n (replicate d fzero)).

(** [t[idx]] / [torch.index_select(t, 0, idx)]. *)
Definition index_rows (t : Tensor) (idx : list nat) : result Tensor :=
  rbind (gather (rows t) idx) (fun rs => Ok (mkTensor (cols t) rs)).

(** An elementwise operation with broadcasting over both axes. *)
Definition ew2 (op : F -> F -> F) (a b : Tensor) : result Tensor :=
  rbind (bdim (cols a) (cols b)) (fun c =>
  rbind (bdim (size0 a) (size0 b)) (fun _ =>
  Ok (mkTensor c (bzip [] (bzip fzero op) (rows a) (rows b))))).

(** A helper of utils_gcn that works along the last axis, row by row, and
    keeps the width of its first argument. *)
Definition rowwise (f : list F -> list F -> list F) (a b : Tensor) : result Tensor :=
  rbind (bdim (size0 a) (size0 b)) (fun _ =>
  Ok (mkTensor (cols a) (bzip [] f (rows a) (rows b)))).

(** [t * c] and [c * t] for a Python float [c]. *)
Definition scale (t : Tensor) (c : F) : Tensor :=
  mkTensor (cols t) (map (map (fun v => fmul v c)) (rows t)).

Definition lscale (c : F) (t : Tensor) : Tensor :=
  mkTensor (cols t) (map (map (fun v => fmul c v)) (rows t)).

Definition vadd (a b : list F) : list F := zip_with fadd a b.

(** One row of [torch.mm(a, b)]: the sum over [k] of [a[k] * b[k, :]],
    accumulated from zero in the order of [k]. *)
Definition vec_mat (d : nat) (a : list F) (b : list (list F)) : list F :=
  fold_left (fun acc kb => vadd acc (map (fun v => fmul (fst kb) v) (snd kb)))
    (zip a b) (replicate d fzero).

Definition mm (a b : Tensor) : result Tensor :=
  if cols a =? size0 b then
    Ok (mkTensor (cols b) (map (fun r => vec_mat (cols b) r (rows b)) (rows a)))
  else Raise RuntimeError.

(** [torch.cat([a, b], dim=0)] and [torch.cat((a, b), dim=1)]. *)
Definition cat0 (a b : Tensor) : result Tensor :=
  if cols a =? cols b then Ok (mkTensor (cols a) (rows a ++ rows b))
  else Raise RuntimeError.

Definition cat1 (a b : Tensor) : result Tensor :=
  if size0 a =? size0 b then
    Ok (mkTensor (cols a + cols b) (zip_with app (rows a) (rows b)))
  else Raise RuntimeError.

(** [t[:-1]]. *)
Definition drop_last_row (t : Tensor) : Tensor :=
  mkTensor (cols t) (removelast (rows t)).

(** [v.view(-1, 1)]. *)
Definition column (v : list F) : Tensor :=
  mkTensor 1 (map (fun x => [x]) v).

Definition scatter_add (src : Tensor) (index : list nat) (dim_size : nat)
    : result Tensor :=
  rbind (scatter_add_gen vadd (replicate (cols src) fzero)
           (rows src) index dim_size)
    (fun rs => Ok (mkTensor (cols src) rs)).

End WithScalar.

Arguments Tensor F : clear implicits.

End Torch.

(** ** The convolution layer (src/models/old_gnn_layer.py) *)

Module Layer.
Import Py Torch.
Local Open Scope nat_scope.

(** [ccorr] and [rotate] of utils/utils_gcn.py, which is not part of the
    sources at hand: taken as they are called, on the rows of two tensors. *)
Class GcnUtils (F : Type) := mkGcnUtils {
  ccorr : list F -> list F -> list F;
  rotate : list F -> list F -> list F
}.

(** [torch.nn.BatchNorm1d] and [torch.nn.Dropout]: the state they keep and
    what they compute.  In evaluation mode batch normalisation reads its
    running statistics and dropout is the identity; in training mode batch
    normalisation updates the statistics and dropout draws from the random
    generator.  Batch normalisation refuses some inputs (a batch of one row
    in training mode, a tensor whose width is not its number of features):
    it returns a result, and leaves its statistics as they are when it
    raises. *)
Class NN (F : Type) := mkNN {
  BatchNorm1d : Type;
  Generator : Type;
  bn_eval : BatchNorm1d -> Tensor F -> result (Tensor F);
  bn_train : BatchNorm1d -> Tensor F -> result (Tensor F * BatchNorm1d);
  dropout_train : F -> Generator -> Tensor F -> Tensor F * Generator
}.

(** The [mode] keyword of [propagate]: ['in'], ['out'], ['loop']. *)
Inductive mode := mode_in | mode_out | mode_loop.

(** The [3 x 2Q] qualifier tensor: [quals[0]] relation ids, [quals[1]]
    entity ids, [quals[2]] index of the parent triple. *)
Record Quals := mkQuals {
  q_rel : list nat;
  q_ent : list nat;
  q_idx : list nat
}.

Section WithFloats.
Context {F : Type} {SF : Scalar F} {GU : GcnUtils F} {TN : NN F}.

(** The attributes set by [__init__]. *)
Record CompGCNConv := mkCompGCNConv {
  in_channels : nat;
  out_channels : nat;
  num_rels : nat;
  act : Tensor F -> Tensor F;
  opn : string;
  alpha : F;
  w_loop : Tensor F;
  w_in : Tensor F;
  w_out : Tensor F;
  w_rel : Tensor F;
  loop_rel : Tensor F;
  gcn_drop : F
}.

(** What a call can change: [self.device], the statistics of [self.bn], the
    random generator; [training] is the mode set by [train()] / [eval()]. *)
Record ModuleState := mkModuleState {
  training : bool;
  device : option string;
  bn : BatchNorm1d;
  generator : Generator
}.

Variable self : CompGCNConv.

(** Lines 289-304. *)
Definition comp_func (ent_embed rel_embed : Tensor F) : result (Tensor F) :=
  if String.eqb (opn self) "corr" then rowwise ccorr ent_embed rel_embed
  else if String.eqb (opn self) "sub" then ew2 fsub ent_embed rel_embed
  else if String.eqb (opn self) "mult" then ew2 fmul ent_embed rel_embed
  else if String.eqb (opn self) "rotate" then rowwise rotate ent_embed rel_embed
  else Raise NotImplementedError.

(** Lines 237-241. *)
Definition combine_trips (x_j rel_sub_embs : Tensor F)
    (ent_embed : option (Tensor F)) : result (Tensor F) :=
  comp_func x_j rel_sub_embs.

(** Lines 244-261. *)
Definition combine_quals (m : mode) (x_j ent_embed rel_embed : Tensor F)
    (ent_index rel_index quals_index : list nat) : result (Tensor F) :=
  rbind (index_rows rel_embed rel_index) (fun qualifier_emb_rel =>
  match m with
  | mode_out => comp_func x_j qualifier_emb_rel
  | _ =>
      rbind (index_rows ent_embed ent_index) (fun qualifier_emb_ent =>
      rbind (comp_func qualifier_emb_ent qualifier_emb_rel) (fun qual_embeddings =>
      scatter_add qual_embeddings quals_index (size0 rel_embed)))
  end).

(** Lines 264-286. *)
Definition combine_quals_trips (x_j rel_embed trip_obj_embed trip_rel_embed : Tensor F)
    : result (Tensor F) :=
  rbind (comp_func x_j trip_rel_embed) (fun comp_trip_agg =>
  rbind (comp_func x_j rel_embed) (fun qual_embeddings =>
  ew2 fadd (lscale (alpha self) comp_trip_agg)
           (lscale (fsub fone (alpha self)) qual_embeddings))).

(** Lines 312-328. *)
Definition compute_norm (edge_index : Index2) (num_ent : nat) : result (list F) :=
  let row := ix0 edge_index in
  let col := ix1 edge_index in
  let edge_weight := map (fun _ => fone) row in
  rbind (scatter_add_gen fadd fzero edge_weight row num_ent) (fun deg =>
  let deg_inv := map fpow_neg_half deg in
  let deg_inv := map (fun v => if fis_inf v then fzero else v) deg_inv in
  rbind (gather deg_inv row) (fun a =>
  rbind (gather deg_inv col) (fun b =>
  rbind (ew1 fzero fmul a edge_weight) (fun ab =>
  ew1 fzero fmul ab b)))).

(** Lines 332-351. *)
Definition qual_inverse_edges (inv_edge_index : Index2) (quals : Quals)
    : result (Index2 * list nat) :=
  let num_quals := length (q_rel quals) / 2 in
  let quals_ent_out_index := drop num_quals (q_ent quals) in
  let quals_rel_out_index := map (fun r => r + num_rels self) (drop num_quals (q_rel quals)) in
  let quals_parent_out_index := drop num_quals (q_idx quals) in
  rbind (gather (ix1 inv_edge_index) quals_parent_out_index) (fun inv_tails =>
  rbind (assign_row num_quals quals_ent_out_index) (fun r0 =>
  rbind (assign_row num_quals inv_tails) (fun r1 =>
  Ok (mkIndex2 r0 r1, quals_rel_out_index)))).

(** The keyword arguments that [propagate] hands on to [message]. *)
Record MsgArgs := mkMsgArgs {
  edge_type : list nat;
  rel_embed : Tensor F;
  edge_norm : option (list F);
  m_mode : mode;
  ent_embed : option (Tensor F);
  qualifier_ent : option (list nat);
  qualifier_rel : option (list nat);
  qual_index : option (list nat);
  prop_type : string;
  both_obj_index : option (list nat);
  trip_rel : option (list nat);
  aux_ent_embs : option (Tensor F);
  aux_rel_embs : option (Tensor F);
  entity_index : option Index2
}.

(** Line 193: [getattr(self, 'w_{}'.format(mode))]. *)
Definition comp_weight_matrix (m : mode) : Tensor F :=
  match m with
  | mode_in => w_in self
  | mode_out => w_out self
  | mode_loop => w_loop self
  end.

(** Lines 178-233.  A propagation type other than the three known ones
    leaves [comp_agg] unassigned.  [forward] passes every keyword that the
    modes ['in'] and ['out'] read; one left at [None] is refused here. *)
Definition message (x_j : Tensor F) (a : MsgArgs) : result (Tensor F) :=
  rbind (index_rows (rel_embed a) (edge_type a)) (fun rel_sub_embs =>
  rbind
    (match m_mode a with
     | mode_loop => comp_func x_j rel_sub_embs
     | _ =>
         if String.eqb (prop_type a) "trip" then
           combine_trips x_j rel_sub_embs (ent_embed a)
         else if String.eqb (prop_type a) "qual" then
           rbind (need (ent_embed a)) (fun ee =>
           rbind (need (qualifier_ent a)) (fun qe =>
           rbind (need (qualifier_rel a)) (fun qr =>
           rbind (need (qual_index a)) (fun qi =>
           combine_quals (m_mode a) x_j ee rel_sub_embs qe qr qi))))
         else if String.eqb (prop_type a) "both" then
           match aux_ent_embs a with
           | Some aux_e =>
               rbind (need (aux_rel_embs a)) (fun aux_r =>
               rbind (need (trip_rel a)) (fun tr =>
               rbind (index_rows aux_r tr) (fun trip_rel_embed =>
               rbind (need (both_obj_index a)) (fun bo =>
               rbind (index_rows aux_e bo) (fun trip_obj_embed =>
               rbind (match m_mode a with
                      | mode_in =>
                          rbind (need (entity_index a)) (fun ei =>
                          index_rows aux_e (ix1 ei))
                      | _ => Ok x_j
                      end) (fun x_j =>
               combine_quals_trips x_j rel_sub_embs trip_obj_embed trip_rel_embed))))))
           | None =>
               rbind (need (trip_rel a)) (fun tr =>
               rbind (index_rows (rel_embed a) tr) (fun trip_rel_embed =>
               rbind (need (ent_embed a)) (fun ee =>
               rbind (need (both_obj_index a)) (fun bo =>
               rbind (index_rows ee bo) (fun trip_obj_embed =>
               combine_quals_trips x_j rel_sub_embs trip_obj_embed trip_rel_embed)))))
           end
         else Raise UnboundLocalError
     end) (fun comp_agg =>
  rbind (mm comp_agg (comp_weight_matrix (m_mode a))) (fun out =>
  match edge_norm a with
  | None => Ok out
  | Some n => ew2 fmul out (column n)
  end))).

(** Line 308. *)
Definition update (aggr_out : Tensor F) : Tensor F := aggr_out.

(** [MessagePassing.propagate] of torch_geometric with
    [flow='target_to_source'] and [aggr='add']: [x_i] and [x_j] are the rows
    of [x] at [edge_index[0]] and [edge_index[1]], the messages are summed at
    [edge_index[0]] into a tensor with one row per row of [x]. *)
Definition propagate (edge_index : Index2) (x : Tensor F) (a : MsgArgs)
    : result (Tensor F) :=
  rbind (index_rows x (ix0 edge_index)) (fun x_i =>
  rbind (index_rows x (ix1 edge_index)) (fun x_j =>
  rbind (message x_j a) (fun out =>
  rbind (scatter_add out (ix0 edge_index) (size0 x)) (fun aggr_out =>
  Ok (update aggr_out))))).

(** [propagate] begins by selecting the rows of [x] at the two rows of the
    edge index ([index_select]), which torch refuses when the index is on
    another device than [x]. *)
Definition propagate_on (index_device x_device : string)
    (edge_index : Index2) (x : Tensor F) (a : MsgArgs)
    : result (Tensor F) :=
  if String.eqb index_device x_device then propagate edge_index x a
  else Raise RuntimeError.

(** The device of [in_index] and of [out_index] when they are propagated:
    slices of [edge_index] are on its device [here]; the tensors made by
    [torch.zeros(...).to(self.device)] on lines 92, 97 and 337 are on
    [self.device], also after rows of other tensors were assigned to
    them. *)
Definition in_index_device (prop_type self_device here : string) : string :=
  if String.eqb prop_type "both" then self_device else here.

Definition out_index_device (prop_type self_device here : string) : string :=
  if String.eqb prop_type "qual" then self_device
  else if String.eqb prop_type "both" then self_device
  else here.

(** The arguments of [forward]; [edge_device] is [edge_index.device].  The
    tensors handed to a call and the parameters of the layer are on one
    device, that of [edge_index]. *)
Record Inputs := mkInputs {
  i_prop_type : string;
  i_x : Tensor F;
  i_edge_index : Index2;
  i_edge_device : string;
  i_edge_type : list nat;
  i_rel_embed : Tensor F;
  i_quals : Quals;
  i_aux_ents : option (Tensor F);
  i_aux_rels : option (Tensor F)
}.

(** The edge groups that lines 58-114 of [forward] prepare. *)
Record Edges := mkEdges {
  in_index : Index2;
  out_index : Index2;
  in_type : list nat;
  out_type : list nat;
  in_index_qual_ent : list nat;
  out_index_qual_ent : list nat;
  in_index_qual_rel : list nat;
  out_index_qual_rel : list nat;
  quals_index_in : list nat;
  quals_index_out : list nat;
  both_obj_in : option (list nat);
  both_obj_out : option (list nat);
  trip_rel_in : option (list nat);
  trip_rel_out : option (list nat)
}.

(** Lines 58-114 of [forward]: the split into halves, the rewrite of the
    inverse half under ["qual"], the synthesis of the edges under ["both"]. *)
Definition forward_edges (prop_type : string) (edge_index : Index2)
    (edge_type : list nat) (quals : Quals) : result Edges :=
  let num_quals := length (q_rel quals) / 2 in
  let num_edges := length (ix0 edge_index) / 2 in
  let in_index := take2 num_edges edge_index in
  let out_index := drop2 num_edges edge_index in
  let in_type := take num_edges edge_type in
  let out_type := drop num_edges edge_type in
  let in_index_qual_ent := take num_quals (q_ent quals) in
  let out_index_qual_ent := drop num_quals (q_ent quals) in
  let in_index_qual_rel := take num_quals (q_rel quals) in
  let out_index_qual_rel := drop num_quals (q_rel quals) in
  let quals_index_in := take num_quals (q_idx quals) in
  let quals_index_out := drop num_quals (q_idx quals) in
  rbind (if String.eqb prop_type "qual"
         then qual_inverse_edges out_index quals
         else Ok (out_index, out_type)) (fun oo =>
  let out_index := fst oo in
  let out_type := snd oo in
  if String.eqb prop_type "both" then
    rbind (assign_row num_quals in_index_qual_ent) (fun in0 =>
    rbind (gather (ix0 edge_index) quals_index_in) (fun subj =>
    rbind (assign_row num_quals subj) (fun in1 =>
    rbind (gather (ix0 edge_index) quals_index_in) (fun subj' =>
    rbind (assign_row num_quals subj') (fun out0 =>
    rbind (assign_row num_quals in_index_qual_ent) (fun out1 =>
    let in_index := mkIndex2 in0 in1 in
    let out_index := mkIndex2 out0 out1 in
    let in_type := in_index_qual_rel in
    let out_type := map (fun r => r + num_rels self) out_index_qual_rel in
    rbind (gather (ix1 edge_index) quals_index_in) (fun both_obj_in =>
    rbind (gather (ix1 edge_index) quals_index_out) (fun both_obj_out =>
    let trip_rel_in := in_type in
    let trip_rel_out := in_type in
    Ok (mkEdges in_index out_index in_type out_type
          in_index_qual_ent out_index_qual_ent
          in_index_qual_rel out_index_qual_rel
          quals_index_in quals_index_out
          (Some both_obj_in) (Some both_obj_out)
          (Some trip_rel_in) (Some trip_rel_out))))))))))
  else
    Ok (mkEdges in_index out_index in_type out_type
          in_index_qual_ent out_index_qual_ent
          in_index_qual_rel out_index_qual_rel
          quals_index_in quals_index_out
          None None None None)).

(** Lines 58-167 of [forward]: the three aggregated results [in_res],
    [out_res], [loop_res], and [rel_emb_all].  [self_device] is
    [self.device] after lines 55-56; [loop_index] and [loop_type] are moved
    to it on lines 79-80. *)
Definition forward_aggregate (self_device : string) (i : Inputs)
    : result (Tensor F * Tensor F * Tensor F * Tensor F) :=
  let x := i_x i in
  let here := i_edge_device i in
  let num_ent := size0 x in
  rbind (cat0 (i_rel_embed i) (loop_rel self)) (fun rel_emb_all =>
  let loop_index := mkIndex2 (seq 0 num_ent) (seq 0 num_ent) in
  let loop_type := replicate num_ent (size0 rel_emb_all - 1) in
  rbind (forward_edges (i_prop_type i) (i_edge_index i) (i_edge_type i) (i_quals i))
    (fun e =>
  rbind (compute_norm (in_index e) num_ent) (fun in_norm =>
  rbind (compute_norm (out_index e) num_ent) (fun out_norm =>
  rbind (propagate_on (in_index_device (i_prop_type i) self_device here) here
           (in_index e) x
           (mkMsgArgs (in_type e) rel_emb_all (Some in_norm) mode_in (Some x)
              (Some (in_index_qual_ent e)) (Some (in_index_qual_rel e))
              (Some (quals_index_in e)) (i_prop_type i)
              (both_obj_in e) (trip_rel_in e)
              (i_aux_ents i) (i_aux_rels i) (Some (in_index e)))) (fun in_res =>
  rbind (propagate_on (out_index_device (i_prop_type i) self_device here) here
           (out_index e) x
           (mkMsgArgs (out_type e) rel_emb_all (Some out_norm) mode_out (Some x)
              (Some (out_index_qual_ent e)) (Some (out_index_qual_rel e))
              (Some (quals_index_out e)) (i_prop_type i)
              (both_obj_out e) (trip_rel_out e)
              (i_aux_ents i) (i_aux_rels i) (Some (out_index e)))) (fun out_res =>
  rbind (propagate_on self_device here loop_index x
           (mkMsgArgs loop_type rel_emb_all None mode_loop None
              None None None (i_prop_type i)
              None None None None None)) (fun loop_res =>
  Ok (in_res, out_res, loop_res, rel_emb_all)))))))).

(** [self.drop(t)]. *)
Definition drop_out (st : ModuleState) (t : Tensor F) : Tensor F * ModuleState :=
  if training st then
    let r := dropout_train (gcn_drop self) (generator st) t in
    (fst r, mkModuleState (training st) (device st) (bn st) (snd r))
  else (t, st).

(** [self.bn(t)]. *)
Definition batch_norm (st : ModuleState) (t : Tensor F)
    : result (Tensor F) * ModuleState :=
  if training st then
    match bn_train (bn st) t with
    | Ok r =>
        (Ok (fst r),
         mkModuleState (training st) (device st) (snd r) (generator st))
    | Raise x => (Raise x, st)
    end
  else (bn_eval (bn st) t, st).

(** Lines 169-173: the combination of the three results. *)
Definition forward_combine (st : ModuleState)
    (in_res out_res loop_res rel_emb_all : Tensor F)
    : result (Tensor F * Tensor F) * ModuleState :=
  let d1 := drop_out st in_res in
  let d2 := drop_out (snd d1) out_res in
  match rbind (ew2 fadd (scale (fst d1) fthird) (scale (fst d2) fthird))
          (fun s => ew2 fadd s (scale loop_res fthird)) with
  | Raise x => (Raise x, snd d2)
  | Ok out =>
      let b := batch_norm (snd d2) out in
      (rbind (fst b) (fun out =>
       rbind (mm rel_emb_all (w_rel self)) (fun r =>
       Ok (act self out, drop_last_row r))), snd b)
  end.

(** Lines 55-56: [self.device] is set by the first call. *)
Definition with_device (st : ModuleState) (i : Inputs) : ModuleState :=
  match device st with
  | None => mkModuleState (training st) (Some (i_edge_device i))
              (bn st) (generator st)
  | Some _ => st
  end.

(** [self.device] after lines 55-56. *)
Definition stored_device (st : ModuleState) (i : Inputs) : string :=
  match device st with
  | Some d => d
  | None => i_edge_device i
  end.

(** Lines 51-173. *)
Definition forward (st : ModuleState) (i : Inputs)
    : result (Tensor F * Tensor F) * ModuleState :=
  let self_device := stored_device st i in
  let st := with_device st i in
  match forward_aggregate self_device i with
  | Raise x => (Raise x, st)
  | Ok (in_res, out_res, loop_res, rel_emb_all) =>
      forward_combine st in_res out_res loop_res rel_emb_all
  end.

End WithFloats.

Arguments CompGCNConv F : clear implicits.
Arguments ModuleState F {TN}.
Arguments MsgArgs F : clear implicits.
Arguments Inputs F : clear implicits.

End Layer.

(** ** The top-level model (src/models/hyper_gcn.py) *)

Module Model.
Import Py Torch.
Local Open Scope nat_scope.

Section WithFloats.
Context {F : Type} {SF : Scalar F}.

(** The keys of [config] that [forward] reads. *)
Record Config := mkConfig {
  PARALLEL : bool;
  ONLY_TRIPS : bool
}.

(** The call of an encoder: [encoder(prop_type, ent_embs, rel_embs)] returns
    the pair [(x, r)].  [HypRelEncoder] lives in models/encoders.py, which is
    not among the sources at hand; an encoder is taken as the function it
    computes in the call at hand. *)
Definition Encoder : Type :=
  string -> Tensor F -> Tensor F -> result (Tensor F * Tensor F).

(** The arguments of a call of the decoder (models/transformers.py). *)
Record DecoderArgs := mkDecoderArgs {
  d_s_emb : Tensor F;
  d_r_emb : Tensor F;
  d_qe_emb : list (list (list F));
  d_qr_emb : list (list (list F));
  d_x : Tensor F;
  d_shape : nat;
  d_quals_ix : list (list nat);
  d_tail_embs : option (Tensor F);
  d_aux_mask : option (list (list bool))
}.

(** The attributes set by [__init__]; the three [ent_parallel_*] exist only
    when [config['PARALLEL']] is set.  The submodules (encoders, decoder,
    dropout, layer normalisation) are the functions they compute in the call
    at hand. *)
Record HypRelModel := mkHypRelModel {
  config : Config;
  parallel : bool;
  ent_embs : Tensor F;
  rel_embs : Tensor F;
  trip_encoder : Encoder;
  qual_encoder : Encoder;
  decoder : DecoderArgs -> result (Tensor F);
  ent_parallel_matrix : option (Tensor F);
  ent_parallel_drop : option (Tensor F -> Tensor F);
  ent_parallel_lnorm : option (Tensor F -> Tensor F)
}.

(** The optional batch for the prediction of qualifier entities. *)
Record AuxEnt := mkAuxEnt {
  base_sub_ix : list nat;
  base_rel_ix : list nat;
  base_obj_ix : list nat;
  aux_quals : list (list nat);
  aux_mask : list (list bool)
}.

Variable self : HypRelModel.

Definition attr {A} (o : option A) : result A :=
  match o with
  | Some a => Ok a
  | None => Raise AttributeError
  end.

(** [row[k::2]]. *)
Fixpoint every_other {A} (l : list A) : list A :=
  match l with
  | a :: _ :: l' => a :: every_other l'
  | [a] => [a]
  | [] => []
  end.

(** [l] cut into pieces of [q] elements ([fuel] bounds their number). *)
Fixpoint chunks {A} (fuel q : nat) (l : list A) : list (list A) :=
  match fuel with
  | O => []
  | S fuel' => take q l :: chunks fuel' q (drop q l)
  end.

(** [t.view(b, -1, t.shape[1])]. *)
Definition view3 (b : nat) (t : Tensor F) : result (list (list (list F))) :=
  if b =? 0 then Raise RuntimeError
  else if size0 t mod b =? 0 then Ok (chunks b (size0 t / b) (rows t))
  else Raise RuntimeError.

(** Lines 55-72. *)
Definition index_embs (x r : Tensor F) (sub_ix rel_ix : list nat)
    (quals_ix : list (list nat))
    : result (Tensor F * Tensor F * list (list (list F)) * list (list (list F))) :=
  rbind (index_rows x sub_ix) (fun sub_emb =>
  rbind (index_rows r rel_ix) (fun rel_emb =>
  let quals_ents := concat (map (fun row => every_other (drop 1 row)) quals_ix) in
  let quals_rels := concat (map every_other quals_ix) in
  rbind (index_rows x quals_ents) (fun qual_obj_emb =>
  rbind (index_rows r quals_rels) (fun qual_rel_emb =>
  rbind (view3 (size0 sub_emb) qual_obj_emb) (fun qual_obj_emb =>
  rbind (view3 (size0 rel_emb) qual_rel_emb) (fun qual_rel_emb =>
  Ok (sub_emb, rel_emb, qual_obj_emb, qual_rel_emb))))))).

(** Lines 85-95. *)
Definition parallel_forward (trip_ent_out ent_embs rel_embs : Tensor F)
    : result (Tensor F * Tensor F) :=
  rbind (qual_encoder self "qual" ent_embs rel_embs) (fun xr =>
  let x := fst xr in
  let r := snd xr in
  rbind (cat1 trip_ent_out x) (fun c =>
  rbind (attr (ent_parallel_matrix self)) (fun m =>
  rbind (mm c m) (fun x =>
  rbind (attr (ent_parallel_drop self)) (fun drop =>
  let x := drop x in
  rbind (attr (ent_parallel_lnorm self)) (fun lnorm =>
  let x := lnorm x in
  Ok (x, r))))))).

(** Lines 104-116 of [forward]: the embeddings [(x, r)] that are decoded. *)
Definition forward_embs : result (Tensor F * Tensor F) :=
  let init_ent := ent_embs self in
  let init_rel := rel_embs self in
  rbind (trip_encoder self "trip" init_ent init_rel) (fun x1r1 =>
  let x1 := fst x1r1 in
  let r1 := snd x1r1 in
  if negb (ONLY_TRIPS (config self)) then
    if parallel self then parallel_forward x1 init_ent r1
    else qual_encoder self "qual" x1 r1
  else Ok (x1, r1)).

(** Lines 98-127. *)
Definition forward (sub_ix rel_ix : list nat) (quals_ix : list (list nat))
    (aux_ent : option AuxEnt) : result (Tensor F * option (Tensor F)) :=
  rbind forward_embs (fun xr =>
  let x := fst xr in
  let r := snd xr in
  rbind (index_embs x r sub_ix rel_ix quals_ix) (fun e =>
  let '(s_emb, r_emb, qe_emb, qr_emb) := e in
  rbind (decoder self (mkDecoderArgs s_emb r_emb qe_emb qr_emb x
                         (length sub_ix) quals_ix None None)) (fun obj_preds =>
  match aux_ent with
  | None => Ok (obj_preds, None)
  | Some a =>
      rbind (index_rows x (base_obj_ix a)) (fun o_emb =>
      rbind (index_embs x r (base_sub_ix a) (base_rel_ix a) (aux_quals a)) (fun e =>
      let '(s_emb, r_emb, qe_emb, qr_emb) := e in
      rbind (decoder self (mkDecoderArgs s_emb r_emb qe_emb qr_emb x
                             (length (base_sub_ix a)) (aux_quals a)
                             (Some o_emb) (Some (aux_mask a)))) (fun aux_ent_preds =>
      Ok (obj_preds, Some aux_ent_preds))))
  end))).

End WithFloats.

Arguments Config : clear implicits.
Arguments HypRelModel F : clear implicits.
Arguments Encoder F : clear implicits.

End Model.

(** ** Float arithmetic without rounding

    Real numbers with the two infinities and NaN: the operations follow
    IEEE 754 on the special values and are exact on the finite ones. *)

Module XReal.
Import Torch.
Local Open Scope R_scope.

Inductive xreal :=
| Fin (r : R)
| PInf
| NInf
| NaN.

Definition is_finite (v : xreal) : Prop :=
  match v with
  | Fin _ => True
  | _ => False
  end.

(** Case analysis on the sign of a real number. *)
Definition by_sign {A} (r : R) (neg zero pos : A) : A :=
  if Rlt_dec r 0 then neg else if Rlt_dec 0 r then pos else zero.

Definition xneg (a : xreal) : xreal :=
  match a with
  | Fin r => Fin (- r)
  | PInf => NInf
  | NInf => PInf
  | NaN => NaN
  end.

Definition xadd (a b : xreal) : xreal :=
  match a, b with
  | Fin r, Fin s => Fin (r + s)
  | NaN, _ | _, NaN => NaN
  | PInf, NInf | NInf, PInf => NaN
  | PInf, _ | _, PInf => PInf
  | NInf, _ | _, NInf => NInf
  end.

Definition xsub (a b : xreal) : xreal := xadd a (xneg b).

Definition xmul (a b : xreal) : xreal :=
  match a, b with
  | Fin r, Fin s => Fin (r * s)
  | NaN, _ | _, NaN => NaN
  | Fin r, PInf | PInf, Fin r => by_sign r NInf NaN PInf
  | Fin r, NInf | NInf, Fin r => by_sign r PInf NaN NInf
  | PInf, PInf | NInf, NInf => PInf
  | PInf, NInf | NInf, PInf => NaN
  end.

(** [pow(x, -0.5)]: infinite at zero, undefined below it. *)
Definition xpow_neg_half (a : xreal) : xreal :=
  match a with
  | Fin r => by_sign r NaN PInf (Fin (/ sqrt r))
  | PInf => Fin 0
  | NInf => Fin 0
  | NaN => NaN
  end.

Definition xis_inf (a : xreal) : bool :=
  match a with
  | PInf => true
  | _ => false
  end.

#[export] Instance xreal_scalar : Scalar xreal :=
  mkScalar xreal (Fin 0) (Fin 1) xadd xsub xmul (Fin (1 / 3))
    xpow_neg_half xis_inf.

End XReal.

(** ** Float arithmetic as executed: binary64 *)

Module F64.
Import Torch.

(** [pow(x, -0.5)] computed as [1 / sqrt x]: infinite at zero, NaN below. *)
Definition pow_neg_half (x : float) : float :=
  PrimFloat.div 1%float (PrimFloat.sqrt x).

#[export] Instance float_scalar : Scalar float :=
  mkScalar float 0%float 1%float PrimFloat.add PrimFloat.sub PrimFloat.mul
    (PrimFloat.div 1%float 3%float) pow_neg_half
    (fun x => PrimFloat.eqb x PrimFloat.infinity).

End F64.

(** ** The words of the specification about the layer *)

Module LayerSpec.
Import Py Torch Layer XReal F64.
Local Open Scope nat_scope.

(** The four selectors that [comp_func] knows. *)
Definition supported (o : string) : Prop :=
  o = "corr"%string \/ o = "sub"%string \/ o = "mult"%string \/ o = "rotate"%string.

(** The rows of [src] that are scattered to position [t]. *)
Definition sent_to {V} (t : nat) (index : list nat) (src : list V) : list V :=
  map snd (filter (fun iv => fst iv = t) (zip index src)).

(** The number of edges whose first endpoint ([edge_index[0]], the head of
    the triple) is [v], and of those whose second endpoint
    ([edge_index[1]], the tail that the edge points at) is [v]. *)
Definition head_count (edge_index : Index2) (v : nat) : nat :=
  length (filter (fun u => u = v) (ix0 edge_index)).
Definition in_degree (edge_index : Index2) (v : nat) : nat :=
  length (filter (fun u => u = v) (ix1 edge_index)).

(** [d^-0.5] with the infinity at zero set to zero. *)
Definition inv_sqrt_or_zero (d : nat) : R :=
  match d with
  | O => 0%R
  | S _ => (/ sqrt (INR d))%R
  end.

(** Lines 324-325 on one entry: [d.pow(-0.5)] with [inf] set to 0. *)
Definition inv_degree (v : xreal) : xreal :=
  if xis_inf (xpow_neg_half v) then Fin 0 else xpow_neg_half v.

Section WithFloats.
Context {F : Type} {SF : Scalar F} {GU : GcnUtils F} {TN : NN F}.

(** The sum of a list of rows of width [d], from zero, in order. *)
Definition vsum (d : nat) (vs : list (list F)) : list F :=
  fold_left vadd vs (replicate d fzero).

(** The composition of one entity row with one relation row. *)
Definition compose (o : string) (e r : list F) : list F :=
  if String.eqb o "corr" then ccorr e r
  else if String.eqb o "sub" then zip_with fsub e r
  else if String.eqb o "mult" then zip_with fmul e r
  else rotate e r.

(** The composition of every (qualifier entity, qualifier relation) pair. *)
Definition qual_compositions (o : string) (ent_embed rel_embed : Tensor F)
    (ent_index rel_index : list nat) : list (list F) :=
  zip_with (fun ei ri => compose o (nth ei (rows ent_embed) [])
                                   (nth ri (rows rel_embed) []))
    ent_index rel_index.



End WithFloats.

(** Batch normalisation and dropout that leave a tensor as it is: the
    layers of a network at evaluation time with statistics (0, 1), on
    tensors of the width they were built for.  In training mode the
    normalisation refuses a batch of one row. *)
#[export] Instance plain_nn {F : Type} : NN F :=
  mkNN F unit unit
    (fun _ t => Ok t)
    (fun _ t => if size0 t =? 1 then Raise ValueError else Ok (t, tt))
    (fun _ g t => (t, g)).

(** For layers whose operator is ["sub"] or ["mult"], which never call the
    two helpers. *)
#[export] Instance no_utils {F : Type} : GcnUtils F :=
  mkGcnUtils F (fun e _ => e) (fun e _ => e).

Definition eye2 : Tensor float :=
  mkTensor 2 [[1; 0]; [0; 1]]%float.

(** A layer over two relations with subtraction as composition. *)
Definition demo_conv : CompGCNConv float :=
  mkCompGCNConv 2 2 2 (fun t => t) "sub" 0.5%float
    eye2 eye2 eye2 eye2 (mkTensor 2 [[0; 0]]%float) 0%float.

(** The triple (0, r0, 1) with its inverse (1, r0 + 2, 0), and one
    qualifier (r1, 2) on it, once per direction. *)
Definition demo_edge_index : Index2 := mkIndex2 [0; 1] [1; 0].
Definition demo_edge_type : list nat := [0; 2].
Definition demo_quals : Quals := mkQuals [1; 1] [2; 2] [0; 0].

Definition demo_inputs (prop_type : string) : Inputs float :=
  mkInputs prop_type
    (mkTensor 2 [[1; 2]; [3; 4]; [5; 6]]%float)
    demo_edge_index "cpu" demo_edge_type
    (mkTensor 2 [[1; 0]; [0; 1]; [1; 1]; [2; 2]]%float)
    demo_quals None None.

(** The layer of [demo_conv] with another selector. *)
Definition conv_with (o : string) : CompGCNConv float :=
  mkCompGCNConv 2 2 2 (fun t => t) o 0.5%float
    eye2 eye2 eye2 eye2 (mkTensor 2 [[0; 0]]%float) 0%float.

(** Three entities on a directed cycle. *)
Definition cycle_edges : Index2 := mkIndex2 [0; 1; 2] [1; 2; 0].

(** Two edges out of entity 0: to entity 1 and to itself. *)
Definition fan_edges : Index2 := mkIndex2 [0; 0] [1; 0].

End LayerSpec.

(** ** Further inputs of the layer *)

Module LayerCases.
Import Py Torch Layer LayerSpec F64.
Local Open Scope nat_scope.

Section WithFloats.
Context {F : Type}.

(** The arguments [i] with another [edge_type]. *)
Definition with_edge_type (i : Inputs F) (edge_type : list nat) : Inputs F :=
  mkInputs (i_prop_type i) (i_x i) (i_edge_index i) (i_edge_device i)
    edge_type (i_rel_embed i) (i_quals i) (i_aux_ents i) (i_aux_rels i).

(** The arguments [i] with another [edge_index[1]]. *)
Definition with_second_endpoints (i : Inputs F) (col : list nat) : Inputs F :=
  mkInputs (i_prop_type i) (i_x i)
    (mkIndex2 (ix0 (i_edge_index i)) col) (i_edge_device i)
    (i_edge_type i) (i_rel_embed i) (i_quals i) (i_aux_ents i) (i_aux_rels i).

(** The arguments [i] with another qualifier tensor. *)
Definition with_quals (i : Inputs F) (quals : Quals) : Inputs F :=
  mkInputs (i_prop_type i) (i_x i) (i_edge_index i) (i_edge_device i)
    (i_edge_type i) (i_rel_embed i) quals (i_aux_ents i) (i_aux_rels i).

(** The table that [message] reads the object of the parent triple from
    under ["both"]: [aux_ent_embs] when given, else [ent_embed]. *)
Definition object_table (i : Inputs F) : Tensor F :=
  match i_aux_ents i with
  | Some a => a
  | None => i_x i
  end.

End WithFloats.

(** The graph of [demo_inputs] with a qualifier whose relation id is 0:
    below the number of edges of each half. *)
Definition low_quals_inputs : Inputs float :=
  mkInputs "qual"
    (mkTensor 2 [[1; 2]; [3; 4]; [5; 6]]%float)
    demo_edge_index "cpu" demo_edge_type
    (mkTensor 2 [[1; 0]; [0; 1]; [1; 1]; [2; 2]]%float)
    (mkQuals [0; 0] [2; 2] [0; 0]) None None.

(** The triples (0, r1, 1) and (1, r0, 2) with their inverses, and the
    qualifier (r0, entity 2) on the first triple, once per direction. *)
Definition crossed_inputs : Inputs float :=
  mkInputs "qual"
    (mkTensor 2 [[1; 2]; [3; 4]; [5; 6]]%float)
    (mkIndex2 [0; 1; 1; 2] [1; 2; 0; 1]) "cpu" [1; 0; 3; 2]
    (mkTensor 2 [[1; 0]; [0; 1]; [1; 1]; [2; 2]]%float)
    (mkQuals [0; 0] [2; 2] [0; 0]) None None.

End LayerCases.

(** ** The words of the specification about the model *)

Module ModelSpec.
Import Py Torch Model F64.
Local Open Scope nat_scope.

Section WithFloats.
Context {F : Type} {SF : Scalar F}.
Variable self : HypRelModel F.

(** Concatenate the two entity outputs along the feature axis, project
    through the learned fusion matrix, apply dropout, then layer
    normalisation. *)
Definition fuse (trip_out qual_out : Tensor F) : result (Tensor F) :=
  rbind (cat1 trip_out qual_out) (fun c =>
  rbind (attr (ent_parallel_matrix self)) (fun m =>
  rbind (mm c m) (fun p =>
  rbind (attr (ent_parallel_drop self)) (fun drop =>
  rbind (attr (ent_parallel_lnorm self)) (fun lnorm =>
  Ok (lnorm (drop p))))))).

(** Run the qualifier encoder on the embeddings [(e, r)] and fuse its entity
    output with the entity output [trip_out] of the triple encoder. *)
Definition parallel_fusion_on (e r trip_out : Tensor F)
    : result (Tensor F * Tensor F) :=
  rbind (qual_encoder self "qual" e r) (fun xr =>
  rbind (fuse trip_out (fst xr)) (fun x => Ok (x, snd xr))).

(** The embeddings as the specification words them: the qualifier encoder
    runs on the original entity and the original relation embeddings. *)
Definition spec_parallel_embs : result (Tensor F * Tensor F) :=
  rbind (trip_encoder self "trip" (ent_embs self) (rel_embs self)) (fun x1r1 =>
  parallel_fusion_on (ent_embs self) (rel_embs self) (fst x1r1)).

End WithFloats.

(** A model with one entity and one relation: the triple encoder doubles
    the relation embeddings, the qualifier encoder adds the relation row to
    the entity row, the fusion matrix adds the two halves; dropout and
    normalisation leave their input as it is. *)
Definition demo_model (only_trips : bool) : HypRelModel float :=
  mkHypRelModel (mkConfig true only_trips) true
    (mkTensor 2 [[1; 2]]%float)
    (mkTensor 2 [[1; 1]]%float)
    (fun _ x r => Ok (x, lscale 2%float r))
    (fun _ x r => rbind (ew2 fadd x r) (fun s => Ok (s, r)))
    (fun a => Ok (d_s_emb a))
    (Some (mkTensor 2 [[1; 0]; [0; 1]; [1; 0]; [0; 1]]%float))
    (Some (fun t => t))
    (Some (fun t => t)).

End ModelSpec.

(** * Theorems *)

(** ** The training loop *)

Section LoopFacts.
Import Py Loop LoopSpec.

Lemma bind_normal {A B} (c : M A) (k : A -> M B) st b st' :
  bind c k st = Normal b st' ->
  exists a st1, c st = Normal a st1 /\ k a st1 = Normal b st'.
Proof.
  unfold bind. destruct (c st) as [a st1|x st1]; [eauto|discriminate].
Qed.

Lemma range_ge lo hi e : e ∈ range lo hi -> lo <= e.
Proof.
  unfold range. intros H. apply list_elem_of_fmap in H as (i & -> & _). lia.
Qed.

(** *** [np.argmax] returns 0 exactly when the first entry is a maximum *)

Lemma argmax_scan_pos l : forall mp best i,
  (1 <= best)%nat -> (1 <= i)%nat -> (1 <= argmax_scan mp best i l)%nat.
Proof.
  induction l as [|x l IH]; intros mp best i Hb Hi; simpl; [assumption|].
  destruct (PrimFloat.leb x mp); [apply IH; lia|].
  destruct (PrimFloat.is_nan x); [assumption|apply IH; lia].
Qed.

Lemma argmax_scan_zero l : forall mp i,
  (1 <= i)%nat ->
  argmax_scan mp 0%nat i l = 0%nat <->
  Forall (fun x => PrimFloat.leb x mp = true) l.
Proof.
  induction l as [|x l IH]; intros mp i Hi; simpl.
  - split; [constructor|reflexivity].
  - destruct (PrimFloat.leb x mp) eqn:Hle.
    + rewrite IH by lia. split.
      * intros H. constructor; assumption.
      * intros H. inversion H; assumption.
    + split.
      * intros H. exfalso.
        destruct (PrimFloat.is_nan x); [lia|].
        pose proof (argmax_scan_pos l x i (S i) Hi ltac:(lia)). lia.
      * intros H. inversion H; subst. congruence.
Qed.

Lemma np_argmax_zero w :
  np_argmax w = Ok 0%nat <-> first_is_max w.
Proof.
  destruct w as [|w0 rest]; simpl.
  - split; [discriminate|tauto].
  - destruct (PrimFloat.is_nan w0) eqn:Hnan.
    + split; [auto|reflexivity].
    + split.
      * intros H. right. apply (argmax_scan_zero rest w0 1%nat); [lia|congruence].
      * intros [H|H]; [discriminate|].
        f_equal. apply (argmax_scan_zero rest w0 1%nat); [lia|assumption].
Qed.

Lemma slice_from_lastn {A} (k : Z) (l : list A) :
  1 <= k -> k <= Z.of_nat (length l) ->
  slice_from (- k) l = lastn (Z.to_nat k) l.
Proof.
  intros Hk Hl. unfold slice_from, lastn.
  destruct (Z.ltb_spec (- k) 0); [|lia].
  f_equal. lia.
Qed.

(** Line 133, for a window of at least one entry. *)
Lemma early_stop_check_spec (k : Z) (vm : list float) :
  1 <= k ->
  early_stop_check (Some k) vm = Ok true <->
  k <= Z.of_nat (length vm) /\ first_is_max (lastn (Z.to_nat k) vm).
Proof.
  intros Hk. unfold early_stop_check.
  destruct (Z.geb_spec (Z.of_nat (length vm)) k) as [Hge|Hlt].
  - rewrite slice_from_lastn by lia.
    rewrite <- np_argmax_zero.
    destruct (np_argmax (lastn (Z.to_nat k) vm)) as [a|x]; simpl.
    + destruct a as [|a]; simpl.
      * split; [intros _; split; [lia|reflexivity]|reflexivity].
      * split; [discriminate|]. intros [_ H]. inversion H.
    + split; [discriminate|]. intros [_ H]. inversion H.
  - split; [discriminate|lia].
Qed.

(** With a window of 0 the slice [valid_mrr[-0:]] is the whole history: the
    first evaluation already stops the run. *)
Lemma window_zero_stops_at_once (m : float) :
  early_stop_check (Some 0) [m] = Ok true.
Proof.
  unfold early_stop_check, slice_from, np_argmax. simpl.
  destruct (PrimFloat.is_nan m); reflexivity.
Qed.

(** *** One batch, one epoch *)

Variable env : Env.
Variable args : Args.

Lemma batch_body_normal e i b l st l' st' :
  batch_body env args e i b l st = Normal l' st' ->
  qualifier_aware args = true /\ lists_of st' = lists_of st /\
  exists evs, trace st' = trace st ++ evs /\ quiet evs.
Proof.
  unfold batch_body. destruct (qualifier_aware args); [|discriminate].
  intros H. split; [reflexivity|].
  destruct (grad_clipping args); inversion H; subst; clear H;
    (split; [reflexivity|]); simpl; rewrite <- !app_assoc; simpl;
    eexists; (split; [reflexivity|]); repeat split.
Qed.

Lemma batch_loop_normal bs : forall e i l st l' st',
  batch_loop env args e i bs l st = Normal l' st' ->
  (bs <> [] -> qualifier_aware args = true) /\ lists_of st' = lists_of st /\
  exists evs, trace st' = trace st ++ evs /\ quiet evs.
Proof.
  induction bs as [|b bs IH]; intros e i l st l' st' H; simpl in H.
  - inversion H; subst. split; [congruence|]. split; [reflexivity|].
    exists []. rewrite app_nil_r. repeat split.
  - apply bind_normal in H as (l1 & st1 & H1 & H2).
    apply batch_body_normal in H1 as (Hq & Hl1 & evs1 & Ht1 & Q1).
    apply IH in H2 as (_ & Hl2 & evs2 & Ht2 & Q2).
    split; [auto|]. split; [congruence|].
    exists (evs1 ++ evs2). split; [rewrite Ht2, Ht1, app_assoc; reflexivity|].
    destruct Q1 as (a1 & b1 & c1 & d1), Q2 as (a2 & b2 & c2 & d2).
    unfold quiet, started, validated, sched_steps, stopped in *.
    rewrite !omap_app, a1, a2, b1, b2, c1, c2, d1, d2. repeat split.
Qed.

Lemma valid_appended_nil st st' :
  lists_of st' = lists_of st -> valid_appended env st st' [].
Proof.
  unfold lists_of, valid_appended, history. intros H. inversion H. simpl.
  rewrite !app_nil_r. tauto.
Qed.

Lemma valid_appended_trans st1 st2 st3 es1 es2 :
  valid_appended env st1 st2 es1 -> valid_appended env st2 st3 es2 ->
  valid_appended env st1 st3 (es1 ++ es2).
Proof.
  unfold valid_appended, history.
  intros (a1 & b1 & c1 & d1 & e1 & f1) (a2 & b2 & c2 & d2 & e2 & f2).
  rewrite !map_app, !app_assoc. repeat split; congruence.
Qed.

Ltac step_unit H :=
  let E := fresh "E" in
  apply bind_normal in H as ([] & ? & E & H); inversion E; subst; clear E.

Ltac close_epoch evs Ht Hl Qa Qb Qc Qd :=
  exists evs;
  split; [rewrite Ht, <- !app_assoc; reflexivity|];
  rewrite !omap_app, Qa, Qb, Qc, Qd; simpl;
  repeat (split; [first [reflexivity|assumption]|]);
  (split; [unfold valid_appended, history; simpl; rewrite ?app_nil_r;
           inversion Hl; tauto|]);
  (split; [rewrite length_app; simpl; inversion Hl; lia|]).

Lemma epoch_body_normal e st go st' :
  1 <= e ->
  epoch_body env args e st = Normal go st' ->
  exists evs,
    trace st' = trace st ++ evs /\
    started evs = [e] /\
    eval_every args <> 0 /\
    validated evs = (if evaluates args e then [e] else []) /\
    stopped evs = (if go then [] else [e]) /\
    sched_steps evs = (if go && scheduler args then [e] else []) /\
    valid_appended env st st' (validated evs) /\
    length (train_loss st') = S (length (train_loss st)) /\
    (go = false <->
     evaluates args e = true /\
     check_of args st' = Ok true).
Proof.
  intros He H. unfold epoch_body in H. unfold check_of.
  step_unit H. step_unit H.
  apply bind_normal in H as (pel & st3 & H3 & H).
  apply batch_loop_normal in H3 as (_ & Hl3 & evs3 & Ht3 & Q3).
  step_unit H. step_unit H.
  apply bind_normal in H as (r & st6 & H6 & H).
  unfold py_mod in H6.
  destruct (Z.eqb_spec (eval_every args) 0) as [|Hee]; [discriminate|].
  inversion H6; subst; clear H6.
  replace (e >=? 1) with true in H by (symmetry; apply Z.geb_le; lia).
  rewrite andb_true_r in H. fold (evaluates args e) in H.
  simpl in Hl3, Ht3. unfold lists_of in Hl3. simpl in Hl3.
  destruct Q3 as (Qa & Qb & Qc & Qd).
  unfold started, validated, sched_steps, stopped in *.
  destruct (evaluates args e) eqn:Hev.
  - (* lines 99-135: an evaluation *)
    step_unit H. step_unit H. step_unit H.
    apply bind_normal in H as (stg & st10 & H10 & H).
    inversion H10; subst; clear H10.
    apply bind_normal in H as (stop & st11 & H11 & H). simpl in H11.
    destruct (early_stop_check _ _) as [b|x] eqn:Hchk; simpl in H11; [|discriminate].
    inversion H11; subst; clear H11.
    destruct stop.
    + inversion H; subst; clear H. simpl.
      close_epoch ([EvDataFn e; EvTrainMode e] ++ evs3 ++
        [EvPrintLoss e; EvValidate e; EvPrintVal e; EvPrintStop e])
        Ht3 Hl3 Qa Qb Qc Qd.
      tauto.
    + unfold scheduler_step in H.
      destruct (scheduler args); inversion H; subst; clear H; simpl.
      * close_epoch ([EvDataFn e; EvTrainMode e] ++ evs3 ++
          [EvPrintLoss e; EvValidate e; EvPrintVal e; EvSchedStep e])
          Ht3 Hl3 Qa Qb Qc Qd.
        split; [discriminate|]. intros [_ Hc]. congruence.
      * close_epoch ([EvDataFn e; EvTrainMode e] ++ evs3 ++
          [EvPrintLoss e; EvValidate e; EvPrintVal e])
          Ht3 Hl3 Qa Qb Qc Qd.
        split; [discriminate|]. intros [_ Hc]. congruence.
  - (* lines 137-140: no test bench this time *)
    step_unit H.
    apply bind_normal in H as ([] & st8 & H8 & H).
    inversion H; subst; clear H.
    unfold scheduler_step in H8.
    destruct (scheduler args); inversion H8; subst; clear H8; simpl.
    + close_epoch ([EvDataFn e; EvTrainMode e] ++ evs3 ++
        [EvPrintLoss e; EvPrintNoBench e; EvSchedStep e])
        Ht3 Hl3 Qa Qb Qc Qd.
      split; [discriminate|]. intros [Hc _]. discriminate.
    + close_epoch ([EvDataFn e; EvTrainMode e] ++ evs3 ++
        [EvPrintLoss e; EvPrintNoBench e])
        Ht3 Hl3 Qa Qb Qc Qd.
      split; [discriminate|]. intros [Hc _]. discriminate.
Qed.

(** *** The epoch loop

    [ran] lists the epochs that were started; it is all of [es] unless the
    loop was left by [break], and then the epoch of the [break] is its last. *)
Lemma epoch_loop_normal es : forall st u st',
  Forall (fun e => 1 <= e) es ->
  epoch_loop env args es st = Normal u st' ->
  exists evs,
    trace st' = trace st ++ evs /\
    started evs `prefix_of` es /\
    (started evs <> [] -> eval_every args <> 0) /\
    validated evs = List.filter (evaluates args) (started evs) /\
    sched_steps evs ++ stopped evs =
      (if scheduler args then started evs else stopped evs) /\
    (stopped evs = [] /\ started evs = es \/
     exists s, stopped evs = [s] /\ last (started evs) = Some s /\
               evaluates args s = true) /\
    valid_appended env st st' (validated evs) /\
    length (train_loss st') = (length (train_loss st) + length (started evs))%nat /\
    (check_of args st <> Ok true ->
     stopped evs <> [] <-> check_of args st' = Ok true).
Proof.
  unfold check_of.
  induction es as [|e es IH]; intros st u st' Hes H; simpl in H.
  - inversion H; subst; clear H. exists []. rewrite app_nil_r. simpl.
    split; [reflexivity|]. split; [reflexivity|]. split; [congruence|].
    split; [reflexivity|]. split; [destruct (scheduler args); reflexivity|].
    split; [left; auto|]. split; [apply valid_appended_nil; reflexivity|].
    split; [lia|]. intros Hn. split; [congruence|]. intros Hc. contradiction.
  - inversion Hes as [|? ? He Hes']; subst.
    apply bind_normal in H as (go & st1 & H1 & H).
    apply epoch_body_normal in H1
      as (evs1 & Ht1 & Hs1 & Hee & Hv1 & Hp1 & Hc1 & Ha1 & Hl1 & Hgo); [|assumption].
    destruct go.
    + apply IH in H as (evs2 & Ht2 & Hs2 & _ & Hv2 & Hc2 & Hp2 & Ha2 & Hl2 & Hgo2);
        [|assumption].
      exists (evs1 ++ evs2).
      unfold started, validated, sched_steps, stopped in *.
      rewrite !omap_app, Hs1, Hp1, Hc1. simpl.
      split; [rewrite Ht2, Ht1, app_assoc; reflexivity|].
      split; [apply prefix_cons; assumption|].
      split; [auto|].
      split.
      { rewrite Hv1, Hv2. destruct (evaluates args e); reflexivity. }
      split.
      { destruct (scheduler args); simpl; [f_equal|]; assumption. }
      split.
      { destruct Hp2 as [[Hp2 Hr2]|(s & Hp2 & Hr2 & He2)].
        - left. split; [assumption|]. f_equal. assumption.
        - right. exists s. split; [assumption|]. split; [|assumption].
          destruct (omap _ evs2); [discriminate|]. exact Hr2. }
      split.
      { eapply valid_appended_trans; [exact Ha1|exact Ha2]. }
      split.
      { rewrite Hl2, Hl1. simpl. lia. }
      intros Hn. apply Hgo2. intros Hc.
      assert (Hf : true = false); [|discriminate].
      apply Hgo. split; [|assumption].
      destruct (evaluates args e) eqn:Hev; [reflexivity|].
      exfalso. apply Hn. rewrite Hv1 in Ha1.
      destruct Ha1 as (_ & Hm & _). unfold history in Hm. simpl in Hm.
      rewrite app_nil_r in Hm. rewrite <- Hm. assumption.
    + inversion H; subst; clear H.
      exists evs1.
      unfold started, validated, sched_steps, stopped in *.
      rewrite Hs1, Hp1, Hc1. simpl.
      split; [assumption|].
      split; [apply prefix_cons, prefix_nil|].
      split; [auto|].
      split.
      { rewrite Hv1. destruct (evaluates args e); reflexivity. }
      split; [destruct (scheduler args); reflexivity|].
      split; [right; exists e; repeat split; apply Hgo; reflexivity|].
      split; [assumption|].
      split; [lia|].
      intros _. split; [intros _; apply Hgo; reflexivity|discriminate].
Qed.

(** *** Runs that raise *)

Lemma bind_raised {A B} (c : M A) (k : A -> M B) st x st' :
  bind c k st = Raised x st' ->
  c st = Raised x st' \/
  exists a st1, c st = Normal a st1 /\ k a st1 = Raised x st'.
Proof.
  unfold bind. destruct (c st) as [a st1|y st1]; [eauto|].
  intros H. inversion H; subst. left. reflexivity.
Qed.

Ltac step_unit_raised H :=
  let E := fresh "E" in
  apply bind_raised in H as [H|([] & ? & E & H)];
  [discriminate H|inversion E; subst; clear E].

Lemma batch_body_raised e i b l st x st' :
  batch_body env args e i b l st = Raised x st' ->
  x = UnboundLocalError /\ qualifier_aware args = false /\
  lists_of st' = lists_of st /\ trace st' = trace st ++ [EvZeroGrad e i].
Proof.
  unfold batch_body. destruct (qualifier_aware args).
  - destruct (grad_clipping args); discriminate.
  - intros H. inversion H; subst. repeat split.
Qed.

Lemma batch_loop_raised bs : forall e i l st x st',
  batch_loop env args e i bs l st = Raised x st' ->
  x = UnboundLocalError /\ qualifier_aware args = false /\
  lists_of st' = lists_of st /\
  exists evs, trace st' = trace st ++ evs /\ quiet evs.
Proof.
  induction bs as [|b bs IH]; intros e i l st x st' H; simpl in H; [discriminate|].
  apply bind_raised in H as [H|(l1 & st1 & H1 & H)].
  - apply batch_body_raised in H as (-> & Hq & Hl & Ht).
    repeat (split; [first [reflexivity|assumption]|]).
    exists [EvZeroGrad e i]. split; [assumption|]. repeat split.
  - apply batch_body_normal in H1 as (Hq & _). apply IH in H as (_ & Hq' & _).
    congruence.
Qed.

Lemma early_stop_check_total vm :
  window_positive args -> exists b, early_stop_check (early_stopping args) vm = Ok b.
Proof.
  intros Hw. unfold early_stop_check, window_positive in *.
  destruct (early_stopping args) as [k|]; [|eauto].
  specialize (Hw k eq_refl).
  destruct (Z.geb_spec (Z.of_nat (length vm)) k) as [Hge|Hlt]; [|eauto].
  rewrite slice_from_lastn by lia. unfold lastn.
  destruct (drop (length vm - Z.to_nat k) vm) as [|w0 rest] eqn:Hd.
  - apply (f_equal length) in Hd. rewrite length_drop in Hd. simpl in Hd. lia.
  - simpl. eauto.
Qed.

Lemma epoch_body_raised e st x st' :
  window_positive args ->
  epoch_body env args e st = Raised x st' ->
  valid_mrr st' = valid_mrr st /\
  exists evs, trace st' = trace st ++ evs /\ stopped evs = [].
Proof.
  intros Hw H. unfold epoch_body in H.
  step_unit_raised H. step_unit_raised H.
  apply bind_raised in H as [H|(pel & st3 & H3 & H)].
  { apply batch_loop_raised in H as (_ & _ & Hl & evs & Ht & _ & _ & _ & Q).
    unfold lists_of in Hl. simpl in Hl, Ht. split; [congruence|].
    exists ([EvDataFn e; EvTrainMode e] ++ evs).
    split; [rewrite Ht, <- !app_assoc; reflexivity|].
    unfold stopped in *. rewrite omap_app, Q. reflexivity. }
  apply batch_loop_normal in H3 as (_ & Hl & evs & Ht & _ & _ & _ & Q).
  unfold lists_of in Hl. simpl in Hl, Ht.
  step_unit_raised H. step_unit_raised H.
  apply bind_raised in H as [H|(r & st6 & H6 & H)].
  { unfold py_mod in H. destruct (eval_every args =? 0); [|discriminate].
    inversion H; subst; clear H. simpl. split; [congruence|].
    exists ([EvDataFn e; EvTrainMode e] ++ evs ++ [EvPrintLoss e]).
    split; [rewrite Ht, <- !app_assoc; reflexivity|].
    unfold stopped in *. rewrite !omap_app, Q. reflexivity. }
  unfold py_mod in H6. destruct (eval_every args =? 0); [discriminate|].
  inversion H6; subst; clear H6.
  destruct ((e `mod` eval_every args =? 0) && (e >=? 1)).
  - step_unit_raised H. step_unit_raised H. step_unit_raised H.
    apply bind_raised in H as [H|(stg & st10 & H10 & H)]; [discriminate|].
    inversion H10; subst; clear H10. simpl in H.
    destruct (early_stop_check_total
                (valid_mrr st3 ++ [mrr (val_testbench env e)]) Hw) as [b Hb].
    unfold bind in H. rewrite Hb in H. simpl in H.
    destruct b; [discriminate|].
    unfold scheduler_step in H. destruct (scheduler args); discriminate.
  - step_unit_raised H.
    unfold scheduler_step, bind in H. destruct (scheduler args); discriminate.
Qed.

Lemma go_on_keeps_check e st st' :
  1 <= e ->
  epoch_body env args e st = Normal true st' ->
  check_of args st <> Ok true -> check_of args st' <> Ok true.
Proof.
  unfold check_of. intros He H Hn Hc.
  apply epoch_body_normal in H
    as (evs & _ & _ & _ & Hv & _ & _ & Ha & _ & Hgo); [|assumption].
  assert (Hf : true = false); [|discriminate].
  apply Hgo. split; [|assumption].
  destruct (evaluates args e); [reflexivity|]. exfalso. apply Hn.
  rewrite Hv in Ha. destruct Ha as (_ & Hm & _).
  unfold history in Hm. simpl in Hm. rewrite app_nil_r in Hm.
  rewrite <- Hm. assumption.
Qed.

Lemma epoch_loop_raised es : forall st x st',
  Forall (fun e => 1 <= e) es ->
  window_positive args ->
  epoch_loop env args es st = Raised x st' ->
  (check_of args st <> Ok true -> check_of args st' <> Ok true) /\
  exists evs, trace st' = trace st ++ evs /\ stopped evs = [].
Proof.
  unfold check_of.
  induction es as [|e es IH]; intros st x st' Hes Hw H; simpl in H; [discriminate|].
  inversion Hes as [|? ? He Hes']; subst.
  apply bind_raised in H as [H|(go & st1 & H1 & H)].
  - apply epoch_body_raised in H as (Hm & evs & Ht & Hp); [|assumption].
    split; [rewrite Hm; auto|eauto].
  - destruct go; [|discriminate].
    pose proof (go_on_keeps_check e st st1 He H1) as Hk.
    apply epoch_body_normal in H1
      as (evs1 & Ht1 & _ & _ & _ & Hp1 & _); [|assumption].
    apply IH in H as (Hk2 & evs2 & Ht2 & Hp2); [|assumption..].
    split; [auto|].
    exists (evs1 ++ evs2). split; [rewrite Ht2, Ht1, app_assoc; reflexivity|].
    unfold stopped in *. rewrite omap_app, Hp1, Hp2. reflexivity.
Qed.

(** *** The whole function *)

Lemma range_cons lo hi : lo < hi -> range lo hi = lo :: range (lo + 1) hi.
Proof.
  intros H. unfold range.
  replace (Z.to_nat (hi - lo)) with (S (Z.to_nat (hi - (lo + 1)))) by lia.
  simpl. f_equal; [lia|].
  rewrite <- seq_shift, map_map. apply map_ext. intros i. lia.
Qed.

Lemma range_nil lo hi : hi <= lo -> range lo hi = [].
Proof.
  intros H. unfold range. replace (Z.to_nat (hi - lo)) with 0%nat by lia.
  reflexivity.
Qed.

Lemma range_from_one hi : Forall (fun e => 1 <= e) (range 1 hi).
Proof. apply Forall_forall. intros e He. eapply range_ge. exact He. Qed.

Lemma range_NoDup lo hi : NoDup (range lo hi).
Proof.
  unfold range. apply NoDup_fmap_2; [|apply NoDup_seq].
  intros i j. lia.
Qed.

Lemma training_loop_normal h st :
  training_loop_gcn env args = Normal h st ->
  epoch_loop env args (range 1 (epochs args + 1)) init_state = Normal tt st /\
  h = returned st.
Proof.
  unfold training_loop_gcn. intros H.
  apply bind_normal in H as ([] & st1 & H1 & H).
  inversion H; subst. auto.
Qed.

Lemma training_loop_state :
  out_state (training_loop_gcn env args) =
  out_state (epoch_loop env args (range 1 (epochs args + 1)) init_state).
Proof.
  unfold training_loop_gcn, bind.
  destruct (epoch_loop _ _ _ _) as [[] st|x st]; reflexivity.
Qed.

Lemma training_loop_returns st :
  epoch_loop env args (range 1 (epochs args + 1)) init_state = Normal tt st ->
  training_loop_gcn env args = Normal (returned st) st.
Proof. intros H. unfold training_loop_gcn, bind. rewrite H. reflexivity. Qed.

Lemma divides_one ee :
  ee <> 0 -> (1 mod ee =? 0) = true <-> ee = 1 \/ ee = -1.
Proof.
  intros Hee. rewrite Z.eqb_eq. split.
  - intros H. apply Z.divide_1_r. apply Z.mod_divide; assumption.
  - intros [->| ->]; reflexivity.
Qed.

Lemma prefix_head {A} (x y : A) l k :
  (x :: l) `prefix_of` (y :: k) -> x = y.
Proof. intros [t Ht]. simpl in Ht. congruence. Qed.

Lemma prefix_NoDup {A} (l k : list A) : l `prefix_of` k -> NoDup k -> NoDup l.
Proof. intros [t ->] H. apply NoDup_app in H. tauto. Qed.

(** C1, as amended: a run that returns has evaluated exactly the started
    epochs [e] with [e mod eval_every = 0], each evaluation appended the
    benchmark's hits@1, MRR, MR, hits@3/5/10 to the six validation lists, and
    epoch 1 is among them only when [eval_every] is 1 or -1. *)
Theorem validation_on_multiples h st :
  training_loop_gcn env args = Normal h st ->
  started (trace st) `prefix_of` range 1 (epochs args + 1) /\
  validated (trace st) = List.filter (evaluates args) (started (trace st)) /\
  r_valid_acc h = history env hits_at_1 (validated (trace st)) /\
  r_valid_mrr h = history env mrr (validated (trace st)) /\
  valid_mr st = history env mr (validated (trace st)) /\
  r_valid_hits_3 h = history env hits_at_3 (validated (trace st)) /\
  r_valid_hits_5 h = history env hits_at_5 (validated (trace st)) /\
  r_valid_hits_10 h = history env hits_at_10 (validated (trace st)) /\
  (1 ∈ validated (trace st) <->
   1 <= epochs args /\ (eval_every args = 1 \/ eval_every args = -1)).
Proof.
  intros H. apply training_loop_normal in H as (H & ->).
  apply epoch_loop_normal in H
    as (evs & Ht & Hpre & Hee & Hv & _ & Hstop & Ha & _); [|apply range_from_one].
  simpl in Ht. subst evs.
  destruct Ha as (a1 & a2 & a3 & a4 & a5 & a6). simpl in a1, a2, a3, a4, a5, a6.
  repeat (split; [assumption|]).
  rewrite Hv, list_elem_of_In, filter_In, <- list_elem_of_In. unfold evaluates.
  split.
  - intros [Hin Hm].
    assert (Hne : started (trace st) <> []) by (intros E; rewrite E in Hin; inversion Hin).
    split; [|apply divides_one; auto].
    destruct (Z_lt_le_dec (epochs args) 1) as [Hlt|]; [|assumption].
    rewrite range_nil in Hpre by lia. apply prefix_nil_inv in Hpre. contradiction.
  - intros [Hep Hee1].
    assert (Hne : started (trace st) <> []).
    { destruct Hstop as [[_ E]|(s & _ & E & _)]; rewrite ?E.
      - rewrite range_cons by lia. discriminate.
      - intros E'. rewrite E' in E. discriminate. }
    split; [|apply divides_one; auto].
    rewrite range_cons in Hpre by lia.
    destruct (started (trace st)) as [|x l]; [contradiction|].
    apply prefix_head in Hpre. subst x. left.
Qed.

(** C9, as amended: with a scheduler configured, a run that returns has
    stepped it once in every started epoch except the one that early stopping
    ended: [break] leaves the loop before line 143. *)
Theorem scheduler_steps_but_stop_epoch h st :
  scheduler args = true ->
  training_loop_gcn env args = Normal h st ->
  sched_steps (trace st) ++ stopped (trace st) = started (trace st) /\
  NoDup (started (trace st)) /\
  (stopped (trace st) = [] \/
   exists s, stopped (trace st) = [s] /\
             last (started (trace st)) = Some s /\
             s ∉ sched_steps (trace st)).
Proof.
  intros Hs H. apply training_loop_normal in H as (H & ->).
  apply epoch_loop_normal in H
    as (evs & Ht & Hpre & _ & _ & Hc & Hstop & _); [|apply range_from_one].
  simpl in Ht. subst evs. rewrite Hs in Hc.
  assert (Hnd : NoDup (started (trace st))).
  { eapply prefix_NoDup; [exact Hpre|apply range_NoDup]. }
  repeat (split; [assumption|]).
  destruct Hstop as [[E _]|(s & E & Hl & _)]; [left; assumption|right].
  exists s. repeat (split; [assumption|]).
  rewrite <- Hc, E in Hnd. apply NoDup_app in Hnd as (_ & Hd & _).
  intros Hin. apply (Hd s Hin). left.
Qed.

(** C7, as amended: for a window of [k >= 1] evaluations the loop is left
    by [break] exactly when the validation-MRR history holds at least [k]
    entries and the first entry of its last [k] is their maximum; the
    function then
    returns normally the histories accumulated so far, and the epoch of the
    [break], an evaluated one, is the last epoch that was started. *)
Theorem early_stopping_exact k :
  early_stopping args = Some k ->
  1 <= k ->
  let out := training_loop_gcn env args in
  let st := out_state out in
  (stopped (trace st) <> [] <->
   k <= Z.of_nat (length (valid_mrr st)) /\
   first_is_max (lastn (Z.to_nat k) (valid_mrr st))) /\
  (stopped (trace st) <> [] ->
   out = Normal (returned st) st /\
   exists s, stopped (trace st) = [s] /\
             last (started (trace st)) = Some s /\
             last (validated (trace st)) = Some s).
Proof.
  intros Hk Hk1 out st.
  assert (Hw : window_positive args).
  { intros k' E. rewrite Hk in E. inversion E; subst; assumption. }
  assert (H0 : check_of args init_state <> Ok true).
  { unfold check_of, early_stop_check. rewrite Hk.
    change (Z.of_nat (length (valid_mrr init_state))) with 0.
    destruct (Z.geb_spec 0 k); [lia|discriminate]. }
  assert (Hst : st = out_state
            (epoch_loop env args (range 1 (epochs args + 1)) init_state))
    by apply training_loop_state.
  subst out.
  destruct (epoch_loop env args (range 1 (epochs args + 1)) init_state)
    as [[] st1|x st1] eqn:Hrun; simpl in Hst; subst st1.
  - pose proof (training_loop_returns st Hrun) as Hret.
    apply epoch_loop_normal in Hrun
      as (evs & Ht & _ & _ & Hv & _ & Hstop & _ & _ & Hiff); [|apply range_from_one].
    simpl in Ht. rewrite <- Ht in *. clear Ht evs.
    specialize (Hiff H0). unfold check_of in Hiff. rewrite Hk in Hiff.
    rewrite early_stop_check_spec in Hiff by assumption.
    split; [exact Hiff|]. intros Hne. split; [assumption|].
    destruct Hstop as [[E _]|(s & E & Hl & He)]; [contradiction|].
    exists s. repeat (split; [assumption|]).
    rewrite Hv. clear - Hl He.
    induction (started (trace st)) as [|x l IH]; [discriminate|].
    destruct l as [|y l].
    + simpl in Hl. inversion Hl; subst. simpl. rewrite He. reflexivity.
    + specialize (IH Hl). cbn [List.filter] in *.
      destruct (evaluates args x); [|exact IH].
      destruct (evaluates args y); [exact IH|].
      destruct (List.filter (evaluates args) l); [discriminate|exact IH].
  - apply epoch_loop_raised in Hrun as (Hn & evs & Ht & Hp);
      [|apply range_from_one|assumption].
    simpl in Ht. subst evs. specialize (Hn H0).
    unfold check_of in Hn. rewrite Hk in Hn.
    rewrite early_stop_check_spec in Hn by assumption.
    rewrite Hp. split; [|contradiction]. split; [contradiction|].
    intros Hc. exfalso. exact (Hn Hc).
Qed.

(** C10: with [qualifier_aware] off, at least one epoch to run and a first
    batch to process, line 81 reads the unassigned [_quals]: the call raises
    an undefined-name error during the first batch, before any optimizer step
    and before the first epoch is recorded. *)
Theorem unassigned_quals_raises :
  qualifier_aware args = false ->
  1 <= epochs args ->
  data_fn env 1 <> [] ->
  let st0 := mkState [] [] [] [] [] [] []
               [EvDataFn 1; EvTrainMode 1; EvZeroGrad 1 0%nat] in
  training_loop_gcn env args = Raised UnboundLocalError st0 /\
  opt_steps (trace st0) = [] /\
  train_loss st0 = [].
Proof.
  intros Hq He Hd st0. split; [|split; reflexivity].
  unfold training_loop_gcn. rewrite range_cons by lia.
  destruct (data_fn env 1) as [|b bs] eqn:Hb; [contradiction|].
  unfold bind at 1. simpl. unfold bind at 1. unfold epoch_body.
  unfold bind, emit. simpl. rewrite Hb. simpl.
  unfold bind, batch_body, emit. simpl. rewrite Hq. reflexivity.
Qed.

End LoopFacts.

(** *** Concrete runs *)

Section LoopRuns.
Import Py Loop LoopSpec.
Local Open Scope Z_scope.

Lemma validation_on_multiples_witness :
  let o := training_loop_gcn demo_env demo_args in
  o = Normal (returned (out_state o)) (out_state o) /\
  validated (trace (out_state o)) = [1; 2; 3] /\
  (1 ∈ validated (trace (out_state o)) <->
   1 <= epochs demo_args /\
   (eval_every demo_args = 1 \/ eval_every demo_args = -1)).
Proof.
  intros o.
  assert (Ho : o = Normal (returned (out_state o)) (out_state o))
    by (vm_compute; reflexivity).
  split; [exact Ho|]. split; [vm_compute; reflexivity|].
  apply (validation_on_multiples demo_env demo_args _ _ Ho).
Defined.

(** C1 as stated fails: with [eval_every = 2] epoch 1 runs and returns, is
    not validated, and leaves every validation history empty. *)
Lemma epoch_one_not_validated :
  exists st,
    training_loop_gcn demo_env sparse_args = Normal (returned st) st /\
    started (trace st) = [1] /\
    validated (trace st) = [] /\
    r_valid_acc (returned st) = [] /\
    r_valid_mrr (returned st) = [] /\
    r_valid_hits_10 (returned st) = [].
Proof.
  exists (out_state (training_loop_gcn demo_env sparse_args)).
  vm_compute. repeat split.
Qed.

Lemma scheduler_steps_but_stop_epoch_witness :
  let o := training_loop_gcn demo_env demo_args in
  scheduler demo_args = true /\
  o = Normal (returned (out_state o)) (out_state o) /\
  sched_steps (trace (out_state o)) ++ stopped (trace (out_state o)) =
    started (trace (out_state o)).
Proof.
  intros o.
  assert (Ho : o = Normal (returned (out_state o)) (out_state o))
    by (vm_compute; reflexivity).
  split; [reflexivity|]. split; [exact Ho|].
  apply (scheduler_steps_but_stop_epoch demo_env demo_args _ _ eq_refl Ho).
Defined.

(** C9 as stated fails: epoch 3 ran and was ended by early stopping, and the
    scheduler was stepped in epochs 1 and 2 only. *)
Lemma no_scheduler_step_on_stop_epoch :
  exists st,
    training_loop_gcn demo_env demo_args = Normal (returned st) st /\
    started (trace st) = [1; 2; 3] /\
    stopped (trace st) = [3] /\
    sched_steps (trace st) = [1; 2].
Proof.
  exists (out_state (training_loop_gcn demo_env demo_args)).
  vm_compute. repeat split.
Qed.

#[warnings="-inexact-float"]
Lemma early_stopping_exact_witness :
  let st := out_state (training_loop_gcn demo_env demo_args) in
  early_stopping demo_args = Some 3 /\
  1 <= 3 /\
  valid_mrr st = [0.5; 0.3; 0.2]%float /\
  started (trace st) = [1; 2; 3] /\
  stopped (trace st) = [3] /\
  (stopped (trace st) <> [] <->
   3 <= Z.of_nat (length (valid_mrr st)) /\
   first_is_max (lastn (Z.to_nat 3) (valid_mrr st))).
Proof.
  intros st. split; [reflexivity|]. split; [lia|].
  split; [vm_compute; reflexivity|]. split; [vm_compute; reflexivity|].
  split; [vm_compute; reflexivity|].
  apply (early_stopping_exact demo_env demo_args 3 eq_refl ltac:(lia)).
Defined.

Lemma unassigned_quals_raises_witness :
  qualifier_aware plain_args = false /\
  1 <= epochs plain_args /\
  data_fn demo_env 1 <> [] /\
  training_loop_gcn demo_env plain_args =
    Raised UnboundLocalError
      (mkState [] [] [] [] [] [] []
         [EvDataFn 1; EvTrainMode 1; EvZeroGrad 1 0%nat]).
Proof.
  split; [reflexivity|]. split; [simpl; lia|]. split; [discriminate|].
  apply (unassigned_quals_raises demo_env plain_args eq_refl
           ltac:(simpl; lia) ltac:(discriminate)).
Defined.

End LoopRuns.

(** ** The training loop, epoch by epoch *)

Section LoopTraceFacts.
Import Py Loop LoopSpec LoopTrace.
Variable env : Env.
Variable args : Args.

Lemma emitted_nil st : emitted st [] = st.
Proof. destruct st. unfold emitted. simpl. rewrite app_nil_r. reflexivity. Qed.

Lemma emitted_app st evs1 evs2 :
  emitted (emitted st evs1) evs2 = emitted st (evs1 ++ evs2).
Proof. unfold emitted. simpl. rewrite app_assoc. reflexivity. Qed.

Lemma emit_emitted ev st : emit ev st = Normal tt (emitted st [ev]).
Proof. reflexivity. Qed.

(** The batch loop runs through when [_quals] is assigned or there is no
    batch, and raises on its first batch otherwise. *)
Lemma batch_loop_runs bs : forall e i l st,
  qualifier_aware args = true \/ bs = [] ->
  batch_loop env args e i bs l st =
    Normal (l ++ map (loss_item env e) (seq i (length bs)))
      (emitted st (flat_map (batch_events args e) (seq i (length bs)))).
Proof.
  induction bs as [|b bs IH]; intros e i l st Hq; simpl.
  - rewrite app_nil_r, emitted_nil. reflexivity.
  - destruct Hq as [Hq|Hq]; [|discriminate].
    unfold bind at 1. unfold batch_body. rewrite Hq.
    unfold bind, emit, ret. simpl.
    destruct (grad_clipping args) eqn:Hc; simpl;
      rewrite IH by (left; exact Hq);
      unfold batch_events, emitted; rewrite Hc; simpl;
      rewrite <- !app_assoc; simpl; reflexivity.
Qed.

Lemma batch_loop_stops b bs e i l st :
  qualifier_aware args = false ->
  batch_loop env args e i (b :: bs) l st =
    Raised UnboundLocalError (emitted st [EvZeroGrad e i]).
Proof.
  intros Hq. simpl. unfold bind, batch_body. rewrite Hq. reflexivity.
Qed.

Lemma batches_run_dec e :
  batches_run env args e \/
  (qualifier_aware args = false /\ exists b bs, data_fn env e = b :: bs).
Proof.
  unfold batches_run. destruct (qualifier_aware args); [auto|].
  destruct (data_fn env e) as [|b bs]; eauto.
Qed.

Lemma epoch_body_unbound e st b bs :
  qualifier_aware args = false ->
  data_fn env e = b :: bs ->
  epoch_body env args e st =
    Raised UnboundLocalError
      (emitted st [EvDataFn e; EvTrainMode e; EvZeroGrad e 0%nat]).
Proof.
  intros Hq Hb. unfold epoch_body.
  unfold bind at 1. rewrite emit_emitted.
  unfold bind at 1. rewrite emit_emitted.
  unfold bind at 1. rewrite Hb, batch_loop_stops by exact Hq.
  rewrite !emitted_app. reflexivity.
Qed.

Lemma epoch_body_prefix e st :
  batches_run env args e ->
  epoch_body env args e st =
    bind (lift (py_mod e (eval_every args))) (fun r =>
      if (r =? 0) && (e >=? 1) then
        bind (emit (EvValidate e)) (fun _ =>
        bind (append_validation (val_testbench env e)) (fun _ =>
        bind (emit (EvPrintVal e)) (fun _ =>
        bind get (fun st =>
        bind (lift (early_stop_check (early_stopping args) (valid_mrr st)))
          (fun stop =>
             if stop then bind (emit (EvPrintStop e)) (fun _ => ret false)
             else bind (scheduler_step args e) (fun _ => ret true))))))
      else
        bind (emit (EvPrintNoBench e)) (fun _ =>
        bind (scheduler_step args e) (fun _ => ret true)))
      (after_batches env args e st).
Proof.
  intros Hr. unfold epoch_body.
  unfold bind at 1. rewrite emit_emitted.
  unfold bind at 1. rewrite emit_emitted.
  unfold bind at 1. rewrite batch_loop_runs by exact Hr.
  unfold bind at 1. rewrite emit_emitted.
  unfold bind at 1. unfold append_train_loss.
  unfold after_batches, epoch_batches, epoch_losses, batch_indices.
  rewrite !emitted_app. simpl app. reflexivity.
Qed.

Lemma scheduler_step_emitted e st :
  scheduler_step args e st = Normal tt (emitted st (sched_events args e)).
Proof.
  unfold scheduler_step, sched_events. destruct (scheduler args).
  - reflexivity.
  - unfold ret. rewrite emitted_nil. reflexivity.
Qed.

Lemma epoch_body_zero_division e st :
  batches_run env args e ->
  eval_every args = 0 ->
  epoch_body env args e st = Raised ZeroDivisionError (after_batches env args e st).
Proof.
  intros Hr Hz. rewrite epoch_body_prefix by exact Hr.
  unfold py_mod. rewrite Hz. reflexivity.
Qed.

Lemma epoch_body_no_validation e st :
  batches_run env args e ->
  eval_every args <> 0 ->
  evaluates args e = false ->
  epoch_body env args e st =
    Normal true (emitted (after_batches env args e st)
                   ([EvPrintNoBench e] ++ sched_events args e)).
Proof.
  intros Hr Hz Hev. rewrite epoch_body_prefix by exact Hr.
  unfold py_mod. destruct (Z.eqb_spec (eval_every args) 0); [contradiction|].
  unfold lift, bind at 1, ret. unfold evaluates in Hev. rewrite Hev. simpl.
  unfold bind at 1. rewrite emit_emitted.
  unfold bind. rewrite scheduler_step_emitted, emitted_app. reflexivity.
Qed.

Lemma epoch_body_validation e st :
  batches_run env args e ->
  eval_every args <> 0 ->
  evaluates args e = true ->
  1 <= e ->
  epoch_body env args e st =
    match early_stop_check (early_stopping args)
            (valid_mrr (after_validation env args e st)) with
    | Raise x => Raised x (after_validation env args e st)
    | Ok true => Normal false (emitted (after_validation env args e st) [EvPrintStop e])
    | Ok false =>
        Normal true (emitted (after_validation env args e st) (sched_events args e))
    end.
Proof.
  intros Hr Hz Hev He. rewrite epoch_body_prefix by exact Hr.
  unfold py_mod. destruct (Z.eqb_spec (eval_every args) 0); [contradiction|].
  unfold lift at 1, bind at 1, ret. unfold evaluates in Hev. rewrite Hev.
  replace (e >=? 1) with true by (symmetry; apply Z.geb_le; exact He).
  cbn [andb].
  unfold bind at 1. rewrite emit_emitted.
  unfold bind at 1. unfold append_validation.
  unfold bind at 1. rewrite emit_emitted.
  unfold bind at 1. unfold get.
  fold (with_validation (emitted (after_batches env args e st) [EvValidate e])
          (val_testbench env e)).
  fold (after_validation env args e st).
  unfold bind at 1.
  destruct (early_stop_check (early_stopping args)
              (valid_mrr (after_validation env args e st))) as [[|]|x]; simpl.
  - reflexivity.
  - unfold bind. rewrite scheduler_step_emitted. reflexivity.
  - reflexivity.
Qed.

(** *** Reading the events of an epoch *)

Lemma omap_batches {A} (f : event -> option A) (e : Z) :
  (forall ev, is_batch_event ev = true -> f ev = None) ->
  omap f (epoch_batches env args e) = [].
Proof.
  intros Hf. unfold epoch_batches.
  induction (batch_indices env e) as [|i l IH]; [reflexivity|].
  cbn [flat_map]. rewrite omap_app, IH, app_nil_r.
  unfold batch_events. destruct (grad_clipping args); simpl;
    rewrite !Hf by reflexivity; reflexivity.
Qed.

Lemma batch_part_batches e :
  batch_part (epoch_batches env args e) = epoch_batches env args e.
Proof.
  unfold batch_part, epoch_batches.
  induction (batch_indices env e) as [|i l IH]; [reflexivity|].
  cbn [flat_map]. rewrite List.filter_app, IH. f_equal.
  unfold batch_events. destruct (grad_clipping args); reflexivity.
Qed.

Lemma started_epoch_events e go :
  started (epoch_events env args e go) = [e].
Proof.
  unfold started, epoch_events, sched_events.
  rewrite !omap_app, omap_batches by (intros []; (discriminate || reflexivity)).
  destruct (evaluates args e), go, (scheduler args); reflexivity.
Qed.

Lemma validated_epoch_events e go :
  validated (epoch_events env args e go) =
    if evaluates args e then [e] else [].
Proof.
  unfold validated, epoch_events, sched_events.
  rewrite !omap_app, omap_batches by (intros []; (discriminate || reflexivity)).
  destruct (evaluates args e), go, (scheduler args); reflexivity.
Qed.

Lemma batch_part_epoch_events e go :
  batch_part (epoch_events env args e go) = epoch_batches env args e.
Proof.
  unfold batch_part, epoch_events, sched_events.
  rewrite !List.filter_app. fold (batch_part (epoch_batches env args e)).
  rewrite batch_part_batches.
  destruct (evaluates args e), go, (scheduler args); simpl;
    rewrite ?app_nil_r; reflexivity.
Qed.

Lemma started_run_events ran : forall stop,
  started (run_events env args ran stop) = ran.
Proof.
  induction ran as [|e ran IH]; intros stop; [reflexivity|].
  destruct ran as [|e' ran].
  - apply started_epoch_events.
  - change (run_events env args (e :: e' :: ran) stop)
      with (epoch_events env args e true ++ run_events env args (e' :: ran) stop).
    unfold started in *. rewrite omap_app. fold (started (epoch_events env args e true)).
    rewrite started_epoch_events, IH. reflexivity.
Qed.

Lemma batch_part_run_events ran : forall stop,
  batch_part (run_events env args ran stop) =
    flat_map (epoch_batches env args) ran.
Proof.
  induction ran as [|e ran IH]; intros stop; [reflexivity|].
  destruct ran as [|e' ran].
  - simpl. rewrite app_nil_r. apply batch_part_epoch_events.
  - change (run_events env args (e :: e' :: ran) stop)
      with (epoch_events env args e true ++ run_events env args (e' :: ran) stop).
    unfold batch_part in *. rewrite List.filter_app.
    fold (batch_part (epoch_events env args e true)).
    rewrite batch_part_epoch_events, IH. reflexivity.
Qed.

(** *** One epoch that returns *)

Lemma epoch_body_trace e st go st' :
  1 <= e ->
  epoch_body env args e st = Normal go st' ->
  trace st' = trace st ++ epoch_events env args e go /\
  train_loss st' = train_loss st ++ [np_mean env (epoch_losses env e)].
Proof.
  intros He H.
  destruct (batches_run_dec e) as [Hr|(Hq & b & bs & Hb)].
  2:{ rewrite (epoch_body_unbound e st b bs Hq Hb) in H. discriminate. }
  destruct (Z.eq_dec (eval_every args) 0) as [Hz|Hz].
  { rewrite epoch_body_zero_division in H by assumption. discriminate. }
  destruct (evaluates args e) eqn:Hev.
  - rewrite epoch_body_validation in H by assumption.
    destruct (early_stop_check _ _) as [[|]|x]; inversion H; subst; clear H;
      unfold epoch_events; rewrite Hev; simpl;
      repeat (rewrite <- app_assoc; simpl); auto.
  - rewrite epoch_body_no_validation in H by assumption.
    inversion H; subst; clear H.
    unfold epoch_events; rewrite Hev; simpl.
    repeat (rewrite <- app_assoc; simpl); auto.
Qed.

(** *** A run that returns *)

Lemma epoch_loop_trace es : forall st st',
  Forall (fun e => 1 <= e) es ->
  epoch_loop env args es st = Normal tt st' ->
  exists ran stop,
    trace st' = trace st ++ run_events env args ran stop /\
    train_loss st' = train_loss st ++ epoch_means env ran /\
    (stop = true -> ran <> []).
Proof.
  induction es as [|e es IH]; intros st st' Hes H; simpl in H.
  - inversion H; subst. exists [], false. simpl. rewrite !app_nil_r.
    split; [|split]; [reflexivity..|]. intros Hs; discriminate Hs.
  - inversion Hes as [|? ? He Hes']; subst.
    apply bind_normal in H as (go & st1 & H1 & H).
    apply epoch_body_trace in H1 as [Ht1 Hl1]; [|assumption].
    destruct go.
    + apply IH in H as (ran & stop & Ht & Hl & Hs); [|assumption].
      destruct ran as [|e' ran].
      * exists [e], false. simpl in *. rewrite app_nil_r in Ht, Hl.
        destruct stop; [exfalso; apply Hs; reflexivity|].
        rewrite Ht, Hl, Ht1, Hl1.
        split; [|split]; [reflexivity..|]. intros Hf; discriminate Hf.
      * exists (e :: e' :: ran), stop.
        change (run_events env args (e :: e' :: ran) stop)
          with (epoch_events env args e true ++
                run_events env args (e' :: ran) stop).
        rewrite Ht, Hl, Ht1, Hl1. unfold epoch_means. cbn [map].
        rewrite <- !app_assoc.
        split; [|split]; [reflexivity..|]. intros _ Hn; discriminate Hn.
    + inversion H; subst. exists [e], true. simpl.
      rewrite Ht1, Hl1.
      split; [|split]; [reflexivity..|]. intros _ Hn; discriminate Hn.
Qed.

(** The events and the losses of a run that returns, in closed form. *)
Lemma training_loop_trace h st :
  training_loop_gcn env args = Normal h st ->
  exists stop,
    trace st = run_events env args (started (trace st)) stop /\
    r_train_loss h = epoch_means env (started (trace st)).
Proof.
  intros H. apply training_loop_normal in H as [H ->].
  apply epoch_loop_trace in H as (ran & stop & Ht & Hl & _);
    [|apply range_from_one].
  simpl in Ht, Hl. exists stop. simpl.
  rewrite Hl, Ht, started_run_events. auto.
Qed.

(** X5: in a run that returns, every batch of every started epoch, in the
    order of the iterator, is handled by [zero_grad], the forward pass,
    [backward], the clipping of the gradient norm when [grad_clipping] is on,
    and one optimizer step, in this order; the batch loop does nothing
    else. *)
Theorem batches_follow_protocol h st :
  training_loop_gcn env args = Normal h st ->
  batch_part (trace st) =
    flat_map (epoch_batches env args) (started (trace st)).
Proof.
  intros H. apply training_loop_trace in H as (stop & Ht & _).
  rewrite Ht at 1. apply batch_part_run_events.
Qed.

(** X6: the returned [train_loss] holds, for every started epoch in order,
    [np.mean] of the [loss.item()] values of its batches, one value per
    epoch, also for the epoch on which early stopping left the loop. *)
Theorem train_loss_per_epoch h st :
  training_loop_gcn env args = Normal h st ->
  r_train_loss h = epoch_means env (started (trace st)).
Proof.
  intros H. apply training_loop_trace in H as (stop & _ & Hl). exact Hl.
Qed.

(** *** Edge cases of the arguments *)

Lemma training_loop_raised x st :
  epoch_loop env args (range 1 (epochs args + 1)) init_state = Raised x st ->
  training_loop_gcn env args = Raised x st.
Proof. intros H. unfold training_loop_gcn, bind. rewrite H. reflexivity. Qed.

(** X1: with [epochs <= 0] the range of the epoch loop is empty: the
    function returns twelve empty lists and calls neither the data
    function, the model, the optimizer, the benchmark nor the scheduler. *)
Theorem no_epochs_returns_empty_lists :
  epochs args <= 0 ->
  training_loop_gcn env args =
    Normal (mkHistories [] [] [] [] [] [] [] [] [] [] [] [])
           (mkState [] [] [] [] [] [] [] []).
Proof.
  intros He. unfold training_loop_gcn. rewrite range_nil by lia. reflexivity.
Qed.

(** X2: with [eval_every = 0] the test [e % eval_every] of the first epoch
    raises [ZeroDivisionError]: the batches of epoch 1 have been trained and
    its mean loss recorded, nothing was validated and the scheduler was not
    stepped. *)
Theorem zero_eval_every_raises :
  eval_every args = 0 ->
  1 <= epochs args ->
  batches_run env args 1 ->
  let st := after_batches env args 1 init_state in
  training_loop_gcn env args = Raised ZeroDivisionError st /\
  batch_part (trace st) = epoch_batches env args 1 /\
  train_loss st = [np_mean env (epoch_losses env 1)] /\
  validated (trace st) = [] /\ sched_steps (trace st) = [].
Proof.
  intros Hz He Hr st. split.
  - apply training_loop_raised. rewrite range_cons by lia.
    cbn [epoch_loop]. unfold bind.
    rewrite epoch_body_zero_division by assumption. reflexivity.
  - unfold st, after_batches. cbn [trace train_loss with_loss emitted init_state].
    rewrite app_nil_l.
    unfold batch_part, validated, sched_steps.
    rewrite !List.filter_app, !omap_app.
    fold (batch_part (epoch_batches env args 1)).
    rewrite batch_part_batches.
    rewrite !omap_batches by (intros []; (discriminate || reflexivity)).
    cbn. rewrite app_nil_r. auto.
Qed.

(** One epoch under a negative early-stopping window, from a state without
    validation history. *)
Lemma epoch_body_negative k e st :
  early_stopping args = Some k -> k < 0 -> 1 <= e ->
  valid_mrr st = [] ->
  exists evs,
    trace (out_state (epoch_body env args e st)) = trace st ++ evs /\
    started evs = [e] /\
    ((validated evs = [] /\
      ((exists st', epoch_body env args e st = Normal true st' /\
                    valid_mrr st' = []) \/
       (exists x st', epoch_body env args e st = Raised x st'))) \/
     (validated evs = [e] /\
      exists st', epoch_body env args e st = Raised ValueError st')).
Proof.
  intros Hk Hneg He Hv.
  assert (Hom : forall A (f : event -> option A),
            (forall ev, is_batch_event ev = true -> f ev = None) ->
            omap f (epoch_batches env args e) = [])
    by (intros; apply omap_batches; assumption).
  destruct (batches_run_dec e) as [Hr|(Hq & b & bs & Hb)].
  2:{ rewrite (epoch_body_unbound e st b bs Hq Hb).
      exists [EvDataFn e; EvTrainMode e; EvZeroGrad e 0%nat].
      split; [reflexivity|]. split; [reflexivity|]. left.
      split; [reflexivity|]. right. eauto. }
  destruct (Z.eq_dec (eval_every args) 0) as [Hz|Hz].
  { rewrite epoch_body_zero_division by assumption.
    exists ([EvDataFn e; EvTrainMode e] ++ epoch_batches env args e ++
            [EvPrintLoss e]).
    split; [reflexivity|].
    unfold started, validated. rewrite !omap_app, !Hom
      by (intros []; (discriminate || reflexivity)).
    split; [reflexivity|]. left. split; [reflexivity|]. right. eauto. }
  destruct (evaluates args e) eqn:Hev.
  - rewrite epoch_body_validation by assumption.
    assert (Hm : valid_mrr (after_validation env args e st) =
                 [mrr (val_testbench env e)]).
    { unfold after_validation, after_batches. simpl. rewrite Hv. reflexivity. }
    rewrite Hm, Hk. unfold early_stop_check.
    replace (Z.of_nat (length [mrr (val_testbench env e)]) >=? k) with true
      by (symmetry; apply Z.geb_le; simpl; lia).
    assert (Hs : slice_from (- k) [mrr (val_testbench env e)] = []).
    { unfold slice_from. destruct (Z.ltb_spec (- k) 0); [lia|].
      destruct (Z.to_nat (- k)) as [|[|n]] eqn:Hn; [lia|reflexivity..]. }
    rewrite Hs. cbn.
    exists ([EvDataFn e; EvTrainMode e] ++ epoch_batches env args e ++
            [EvPrintLoss e; EvValidate e; EvPrintVal e]).
    split.
    { unfold after_validation, after_batches. simpl.
      repeat (rewrite <- app_assoc; simpl). reflexivity. }
    unfold started, validated. rewrite !omap_app, !Hom
      by (intros []; (discriminate || reflexivity)).
    split; [reflexivity|]. right. split; [reflexivity|]. eauto.
  - rewrite epoch_body_no_validation by assumption.
    exists ([EvDataFn e; EvTrainMode e] ++ epoch_batches env args e ++
            [EvPrintLoss e; EvPrintNoBench e] ++ sched_events args e).
    split.
    { unfold after_batches. simpl.
      repeat (rewrite <- app_assoc; simpl). reflexivity. }
    unfold started, validated, sched_events. rewrite !omap_app, !Hom
      by (intros []; (discriminate || reflexivity)).
    split; [destruct (scheduler args); reflexivity|]. left.
    split; [destruct (scheduler args); reflexivity|]. left.
    eexists. split; [reflexivity|]. simpl. exact Hv.
Qed.

Lemma epoch_loop_negative k es : forall st,
  early_stopping args = Some k -> k < 0 ->
  Forall (fun e => 1 <= e) es ->
  valid_mrr st = [] ->
  exists evs,
    trace (out_state (epoch_loop env args es st)) = trace st ++ evs /\
    (validated evs = [] \/
     exists e st', epoch_loop env args es st = Raised ValueError st' /\
                   validated evs = [e] /\ last (started evs) = Some e).
Proof.
  induction es as [|e es IH]; intros st Hk Hneg Hes Hv.
  - exists []. simpl. rewrite app_nil_r. auto.
  - inversion Hes as [|? ? He Hes']; subst.
    destruct (epoch_body_negative k e st Hk Hneg He Hv)
      as (evs1 & Ht1 & Hs1 & [[Hv1 [(st1 & H1 & Hm1)|(x & st1 & H1)]]
                             |[Hv1 (st1 & H1)]]);
      cbn [epoch_loop]; unfold bind; rewrite H1 in *; simpl in Ht1.
    + destruct (IH st1 Hk Hneg Hes' Hm1) as (evs2 & Ht2 & Hc).
      exists (evs1 ++ evs2). split.
      { rewrite Ht2, Ht1, app_assoc. reflexivity. }
      unfold validated, started in *. rewrite !omap_app, Hv1, Hs1.
      destruct Hc as [Hc|(e' & st' & Hr & Hv2 & Hl)]; [left; exact Hc|].
      right. exists e', st'. split; [exact Hr|]. split; [exact Hv2|].
      rewrite last_app, Hl. reflexivity.
    + exists evs1. split; [exact Ht1|]. left. exact Hv1.
    + exists evs1. split; [exact Ht1|]. right. exists e, st1.
      split; [reflexivity|]. split; [exact Hv1|]. rewrite Hs1. reflexivity.
Qed.

(** X3: a negative [early_stopping] passes the length test of line 133, and
    the slice [valid_mrr[-early_stopping:]] of the one-element history is
    empty: the first validation of the run ends in the [ValueError] of
    [np.argmax].  So a run either validates nothing or raises [ValueError]
    right after its first validation, in the epoch it had just started. *)
Theorem negative_window_raises_at_first_validation k :
  early_stopping args = Some k ->
  k < 0 ->
  validated (trace (out_state (training_loop_gcn env args))) = [] \/
  exists e st,
    training_loop_gcn env args = Raised ValueError st /\
    validated (trace st) = [e] /\
    last (started (trace st)) = Some e.
Proof.
  intros Hk Hneg.
  destruct (epoch_loop_negative k (range 1 (epochs args + 1)) init_state
              Hk Hneg (range_from_one _) eq_refl) as (evs & Ht & Hc).
  simpl in Ht. destruct Hc as [Hc|(e & st & Hr & Hv & Hl)].
  - left. rewrite training_loop_state, Ht. exact Hc.
  - right. exists e, st. rewrite Hr in Ht. simpl in Ht.
    split; [apply training_loop_raised; exact Hr|].
    rewrite Ht. auto.
Qed.

(** One epoch under a window of 0, from a state without validation
    history. *)
Lemma epoch_body_zero_window e st :
  early_stopping args = Some 0 -> 1 <= e ->
  valid_mrr st = [] ->
  exists evs,
    trace (out_state (epoch_body env args e st)) = trace st ++ evs /\
    started evs = [e] /\
    ((validated evs = [] /\ stopped evs = [] /\
      ((exists st', epoch_body env args e st = Normal true st' /\
                    valid_mrr st' = []) \/
       (exists x st', epoch_body env args e st = Raised x st'))) \/
     (validated evs = [e] /\ stopped evs = [e] /\
      exists st', epoch_body env args e st = Normal false st')).
Proof.
  intros Hk He Hv.
  assert (Hom : forall A (f : event -> option A),
            (forall ev, is_batch_event ev = true -> f ev = None) ->
            omap f (epoch_batches env args e) = [])
    by (intros; apply omap_batches; assumption).
  destruct (batches_run_dec e) as [Hr|(Hq & b & bs & Hb)].
  2:{ rewrite (epoch_body_unbound e st b bs Hq Hb).
      exists [EvDataFn e; EvTrainMode e; EvZeroGrad e 0%nat].
      split; [reflexivity|]. split; [reflexivity|]. left.
      split; [reflexivity|]. split; [reflexivity|]. right. eauto. }
  destruct (Z.eq_dec (eval_every args) 0) as [Hz|Hz].
  { rewrite epoch_body_zero_division by assumption.
    exists ([EvDataFn e; EvTrainMode e] ++ epoch_batches env args e ++
            [EvPrintLoss e]).
    split; [reflexivity|].
    unfold started, validated, stopped. rewrite !omap_app, !Hom
      by (intros []; (discriminate || reflexivity)).
    split; [reflexivity|]. left. split; [reflexivity|].
    split; [reflexivity|]. right. eauto. }
  destruct (evaluates args e) eqn:Hev.
  - rewrite epoch_body_validation by assumption.
    assert (Hm : valid_mrr (after_validation env args e st) =
                 [mrr (val_testbench env e)]).
    { unfold after_validation, after_batches. simpl. rewrite Hv. reflexivity. }
    rewrite Hm, Hk, window_zero_stops_at_once.
    exists ([EvDataFn e; EvTrainMode e] ++ epoch_batches env args e ++
            [EvPrintLoss e; EvValidate e; EvPrintVal e; EvPrintStop e]).
    split.
    { unfold after_validation, after_batches. simpl.
      repeat (rewrite <- app_assoc; simpl). reflexivity. }
    unfold started, validated, stopped. rewrite !omap_app, !Hom
      by (intros []; (discriminate || reflexivity)).
    split; [reflexivity|]. right. split; [reflexivity|].
    split; [reflexivity|]. eauto.
  - rewrite epoch_body_no_validation by assumption.
    exists ([EvDataFn e; EvTrainMode e] ++ epoch_batches env args e ++
            [EvPrintLoss e; EvPrintNoBench e] ++ sched_events args e).
    split.
    { unfold after_batches. simpl.
      repeat (rewrite <- app_assoc; simpl). reflexivity. }
    unfold started, validated, stopped, sched_events. rewrite !omap_app, !Hom
      by (intros []; (discriminate || reflexivity)).
    split; [destruct (scheduler args); reflexivity|]. left.
    split; [destruct (scheduler args); reflexivity|].
    split; [destruct (scheduler args); reflexivity|]. left.
    eexists. split; [reflexivity|]. simpl. exact Hv.
Qed.

Lemma epoch_loop_zero_window es : forall st,
  early_stopping args = Some 0 ->
  Forall (fun e => 1 <= e) es ->
  valid_mrr st = [] ->
  exists evs,
    trace (out_state (epoch_loop env args es st)) = trace st ++ evs /\
    ((validated evs = [] /\ stopped evs = []) \/
     exists e st', epoch_loop env args es st = Normal tt st' /\
                   validated evs = [e] /\ stopped evs = [e] /\
                   last (started evs) = Some e).
Proof.
  induction es as [|e es IH]; intros st Hk Hes Hv.
  - exists []. simpl. rewrite app_nil_r. auto.
  - inversion Hes as [|? ? He Hes']; subst.
    destruct (epoch_body_zero_window e st Hk He Hv)
      as (evs1 & Ht1 & Hs1 & [(Hv1 & Hp1 & [(st1 & H1 & Hm1)|(x & st1 & H1)])
                             |(Hv1 & Hp1 & st1 & H1)]);
      cbn [epoch_loop]; unfold bind; rewrite H1 in *; simpl in Ht1.
    + destruct (IH st1 Hk Hes' Hm1) as (evs2 & Ht2 & Hc).
      exists (evs1 ++ evs2). split.
      { rewrite Ht2, Ht1, app_assoc. reflexivity. }
      unfold validated, started, stopped in *.
      rewrite !omap_app, Hv1, Hs1, Hp1.
      destruct Hc as [Hc|(e' & st' & Hr & Hv2 & Hp2 & Hl)]; [left; exact Hc|].
      right. exists e', st'. split; [exact Hr|]. split; [exact Hv2|].
      split; [exact Hp2|]. rewrite last_app, Hl. reflexivity.
    + exists evs1. split; [exact Ht1|]. left. auto.
    + exists evs1. split; [exact Ht1|]. right. exists e, st1.
      split; [reflexivity|]. split; [exact Hv1|]. split; [exact Hp1|].
      rewrite Hs1. reflexivity.
Qed.

(** X19: with [early_stopping = 0] the slice [valid_mrr[-0:]] is the whole
    history, whose only entry at the first validation is its own maximum:
    the run stops in the first epoch that is validated, so it validates at
    most once, and then returns. *)
Theorem zero_window_stops_at_first_validation :
  early_stopping args = Some 0 ->
  let o := training_loop_gcn env args in
  (validated (trace (out_state o)) = [] /\
   stopped (trace (out_state o)) = []) \/
  exists e,
    o = Normal (returned (out_state o)) (out_state o) /\
    validated (trace (out_state o)) = [e] /\
    stopped (trace (out_state o)) = [e] /\
    last (started (trace (out_state o))) = Some e.
Proof.
  intros Hk o. unfold o.
  destruct (epoch_loop_zero_window (range 1 (epochs args + 1)) init_state
              Hk (range_from_one _) eq_refl) as (evs & Ht & Hc).
  simpl in Ht. rewrite training_loop_state, Ht.
  destruct Hc as [Hc|(e & st & Hr & Hv & Hp & Hl)]; [left; exact Hc|].
  right. exists e. rewrite Hr in Ht. simpl in Ht. subst evs.
  split; [|auto].
  rewrite (training_loop_returns _ _ st Hr), Hr. reflexivity.
Qed.

(** X4: without early stopping ([early_stopping] is [None]) a run that
    returns has gone through all the epochs [1 .. epochs]: it validated on
    exactly the multiples of [eval_every] among them, never printed the stop
    message, and returns one training loss per epoch. *)
Theorem no_early_stopping_runs_all_epochs h st :
  early_stopping args = None ->
  training_loop_gcn env args = Normal h st ->
  started (trace st) = range 1 (epochs args + 1) /\
  validated (trace st) =
    List.filter (evaluates args) (range 1 (epochs args + 1)) /\
  stopped (trace st) = [] /\
  r_train_loss h = epoch_means env (range 1 (epochs args + 1)).
Proof.
  intros Hn H.
  destruct (training_loop_trace h st H) as (_ & _ & Hl).
  apply training_loop_normal in H as [H ->].
  apply epoch_loop_normal in H
    as (evs & Ht & _ & _ & Hv & _ & Hc & _ & _ & Hk); [|apply range_from_one].
  simpl in Ht. rewrite Ht in *.
  assert (Hs : stopped evs = []).
  { destruct (stopped evs) eqn:Hs; [reflexivity|].
    assert (Hne : check_of args init_state <> Ok true)
      by (unfold check_of; rewrite Hn; discriminate).
    apply Hk in Hne. destruct Hne as [Hne _].
    unfold check_of in Hne. rewrite Hn in Hne.
    discriminate Hne. discriminate. }
  destruct Hc as [[_ Hst]|(s & Hs' & _)]; [|rewrite Hs in Hs'; discriminate].
  rewrite Hv, Hst in *. auto.
Qed.

End LoopTraceFacts.

Section LoopTraceRuns.
Import Py Loop LoopSpec LoopTrace.

Lemma batches_follow_protocol_witness :
  let o := training_loop_gcn demo_env demo_args in
  o = Normal (returned (out_state o)) (out_state o) /\
  batch_part (trace (out_state o)) =
    flat_map (epoch_batches demo_env demo_args)
      (started (trace (out_state o))).
Proof.
  intros o.
  assert (Ho : o = Normal (returned (out_state o)) (out_state o))
    by (vm_compute; reflexivity).
  split; [exact Ho|].
  apply (batches_follow_protocol demo_env demo_args _ _ Ho).
Defined.

Lemma train_loss_per_epoch_witness :
  let o := training_loop_gcn demo_env demo_args in
  o = Normal (returned (out_state o)) (out_state o) /\
  r_train_loss (returned (out_state o)) =
    epoch_means demo_env (started (trace (out_state o))).
Proof.
  intros o.
  assert (Ho : o = Normal (returned (out_state o)) (out_state o))
    by (vm_compute; reflexivity).
  split; [exact Ho|].
  apply (train_loss_per_epoch demo_env demo_args _ _ Ho).
Defined.

Lemma no_epochs_returns_empty_lists_witness :
  epochs idle_args <= 0 /\
  training_loop_gcn demo_env idle_args =
    Normal (mkHistories [] [] [] [] [] [] [] [] [] [] [] [])
           (mkState [] [] [] [] [] [] [] []).
Proof.
  split; [simpl; lia|].
  apply (no_epochs_returns_empty_lists demo_env idle_args). simpl. lia.
Defined.

Lemma zero_eval_every_raises_witness :
  eval_every zero_args = 0 /\
  1 <= epochs zero_args /\
  batches_run demo_env zero_args 1 /\
  training_loop_gcn demo_env zero_args =
    Raised ZeroDivisionError (after_batches demo_env zero_args 1 init_state).
Proof.
  split; [reflexivity|]. split; [simpl; lia|].
  split; [left; reflexivity|].
  apply (zero_eval_every_raises demo_env zero_args eq_refl
           ltac:(simpl; lia) ltac:(left; reflexivity)).
Defined.

Lemma negative_window_raises_at_first_validation_witness :
  early_stopping negative_args = Some (-2) /\
  -2 < 0 /\
  (validated (trace (out_state (training_loop_gcn demo_env negative_args))) = []
   \/ exists e st,
        training_loop_gcn demo_env negative_args = Raised ValueError st /\
        validated (trace st) = [e] /\
        last (started (trace st)) = Some e).
Proof.
  split; [reflexivity|]. split; [lia|].
  apply (negative_window_raises_at_first_validation demo_env negative_args (-2)
           eq_refl ltac:(lia)).
Defined.

(** C7 as stated fails at [early_stopping = 0]: the run of three allowed
    epochs is left by [break] in epoch 1 and returns, while the last 0
    entries of the validation-MRR history are an empty window, which has no
    first entry to be its maximum. *)
Lemma zero_window_stops_on_empty_window :
  let out := training_loop_gcn demo_env zero_window_args in
  let st := out_state out in
  early_stopping zero_window_args = Some 0 /\
  epochs zero_window_args = 3 /\
  out = Normal (returned st) st /\
  started (trace st) = [1] /\
  stopped (trace st) = [1] /\
  valid_mrr st = [0.5%float] /\
  0 <= Z.of_nat (length (valid_mrr st)) /\
  lastn (Z.to_nat 0) (valid_mrr st) = [] /\
  ~ first_is_max (lastn (Z.to_nat 0) (valid_mrr st)).
Proof.
  intros out st.
  assert (E : lastn (Z.to_nat 0) (valid_mrr st) = [])
    by (vm_compute; reflexivity).
  split; [reflexivity|]. split; [reflexivity|].
  split; [vm_compute; reflexivity|]. split; [vm_compute; reflexivity|].
  split; [vm_compute; reflexivity|]. split; [vm_compute; reflexivity|].
  split; [lia|]. split; [exact E|].
  rewrite E. intros [].
Qed.

Lemma zero_window_stops_at_first_validation_witness :
  let o := training_loop_gcn demo_env zero_window_args in
  early_stopping zero_window_args = Some 0 /\
  validated (trace (out_state o)) = [1] /\
  ((validated (trace (out_state o)) = [] /\
    stopped (trace (out_state o)) = []) \/
   exists e,
     o = Normal (returned (out_state o)) (out_state o) /\
     validated (trace (out_state o)) = [e] /\
     stopped (trace (out_state o)) = [e] /\
     last (started (trace (out_state o))) = Some e).
Proof.
  intros o. split; [reflexivity|]. split; [vm_compute; reflexivity|].
  apply (zero_window_stops_at_first_validation demo_env zero_window_args
           eq_refl).
Defined.

Lemma no_early_stopping_runs_all_epochs_witness :
  let o := training_loop_gcn demo_env steady_args in
  early_stopping steady_args = None /\
  o = Normal (returned (out_state o)) (out_state o) /\
  started (trace (out_state o)) = range 1 (epochs steady_args + 1) /\
  stopped (trace (out_state o)) = [].
Proof.
  intros o.
  assert (Ho : o = Normal (returned (out_state o)) (out_state o))
    by (vm_compute; reflexivity).
  split; [reflexivity|]. split; [exact Ho|].
  destruct (no_early_stopping_runs_all_epochs demo_env steady_args _ _
              eq_refl Ho) as (Hs & _ & Hp & _).
  split; [exact Hs | exact Hp].
Defined.

End LoopTraceRuns.

(** ** Tensor operations *)

Section TorchFacts.
Import Py Torch.
Local Open Scope nat_scope.

Lemma mapM_ok {A B} (f : A -> result B) (g : A -> B) (l : list A) :
  Forall (fun a => f a = Ok (g a)) l -> mapM f l = Ok (map g l).
Proof.
  induction 1 as [|a l Ha _ IH]; simpl; [reflexivity|].
  rewrite Ha. simpl. rewrite IH. reflexivity.
Qed.

Lemma gather_ok {A} (d : A) (t : list A) (idx : list nat) :
  Forall (fun i => i < length t) idx ->
  gather t idx = Ok (map (fun i => nth i t d) idx).
Proof.
  intros H. unfold gather. apply mapM_ok.
  eapply Forall_impl; [exact H|]. intros i Hi. simpl in Hi.
  destruct (t !! i) as [a|] eqn:E.
  - f_equal. symmetry. apply nth_lookup_Some with (d := d) in E. exact E.
  - apply lookup_ge_None in E. lia.
Qed.

Lemma bdim_same n : bdim n n = Ok n.
Proof. unfold bdim. rewrite Nat.eqb_refl. reflexivity. Qed.

Lemma bzip_same {A B} (d : A) (f : A -> A -> B) (a b : list A) :
  length a = length b -> bzip d f a b = zip_with f a b.
Proof. intros H. unfold bzip. rewrite H, Nat.eqb_refl. reflexivity. Qed.

(** *** [scatter_add] sums, per output position, the rows sent there *)

Section Scatter.
Context {V : Type} (vadd : V -> V -> V) (vzero : V).

Lemma scatter_fold_length l : forall acc,
  length (fold_left (scatter_step vadd) l acc) = length acc.
Proof.
  induction l as [|iv l IH]; intros acc; simpl; [reflexivity|].
  rewrite IH. unfold scatter_step. apply length_alter.
Qed.

Lemma scatter_fold_lookup l : forall acc t a,
  acc !! t = Some a ->
  fold_left (scatter_step vadd) l acc !! t =
    Some (fold_left vadd (map snd (filter (fun iv => fst iv = t) l)) a).
Proof.
  induction l as [|[i v] l IH]; intros acc t a Ha; simpl; [exact Ha|].
  destruct (decide (i = t)) as [->|Hne].
  - rewrite filter_cons_True by reflexivity. simpl.
    apply IH. unfold scatter_step. simpl.
    rewrite list_lookup_alter_eq, Ha. reflexivity.
  - rewrite filter_cons_False by (simpl; congruence).
    apply IH. unfold scatter_step. simpl.
    rewrite list_lookup_alter_ne by congruence. exact Ha.
Qed.

Lemma scatter_add_gen_ok (src : list V) (index : list nat) (n : nat) :
  length index = length src ->
  Forall (fun i => i < n) index ->
  exists out,
    scatter_add_gen vadd vzero src index n = Ok out /\
    length out = n /\
    forall t, t < n ->
      out !! t = Some (fold_left vadd (LayerSpec.sent_to t index src) vzero).
Proof.
  intros Hlen Hidx. unfold scatter_add_gen, LayerSpec.sent_to.
  rewrite Hlen, Nat.eqb_refl. simpl.
  replace (forallb (fun i => i <? n) index) with true.
  2:{ symmetry. apply forallb_forall. intros i Hi.
      apply Nat.ltb_lt. rewrite Forall_forall in Hidx.
      apply Hidx. apply list_elem_of_In. exact Hi. }
  eexists. split; [reflexivity|]. split.
  - rewrite scatter_fold_length. apply length_replicate.
  - intros t Ht. apply scatter_fold_lookup. apply lookup_replicate_2. exact Ht.
Qed.

Lemma sent_to_none (t : nat) (index : list nat) (src : list V) :
  t ∉ index -> LayerSpec.sent_to t index src = [].
Proof.
  unfold LayerSpec.sent_to. revert src.
  induction index as [|i index IH]; intros src Ht; [reflexivity|].
  destruct src as [|v src]; [reflexivity|]. simpl.
  apply not_elem_of_cons in Ht as [Hne Ht].
  rewrite filter_cons_False by (simpl; congruence). apply IH. exact Ht.
Qed.

End Scatter.

End TorchFacts.

(** ** The convolution layer *)

Section LayerFacts.
Import Py Torch Layer LayerSpec.
Local Open Scope nat_scope.
Context {F : Type} {SF : Scalar F} {GU : GcnUtils F} {TN : NN F}.
Variable self : CompGCNConv F.

Lemma zip_rows_same (d : F) (op : F -> F -> F) (c : nat) (a b : list (list F)) :
  Forall (fun r => length r = c) a ->
  Forall (fun r => length r = c) b ->
  zip_with (bzip d op) a b = zip_with (zip_with op) a b.
Proof.
  intros Ha. revert b. induction Ha as [|ra a Hra _ IH]; intros b Hb; [reflexivity|].
  destruct Hb as [|rb b Hrb Hb]; [reflexivity|]. simpl.
  rewrite bzip_same by congruence. f_equal. apply IH. exact Hb.
Qed.

Lemma ew2_same (op : F -> F -> F) (a b : Tensor F) :
  size0 a = size0 b -> cols a = cols b ->
  well_shaped a -> well_shaped b ->
  ew2 op a b = Ok (mkTensor (cols a) (zip_with (zip_with op) (rows a) (rows b))).
Proof.
  intros Hs Hc Ha Hb. unfold ew2. rewrite <- Hc, <- Hs, !bdim_same. simpl.
  rewrite bzip_same by exact Hs.
  rewrite (zip_rows_same fzero op (cols a)); [reflexivity|exact Ha|].
  rewrite Hc. exact Hb.
Qed.

Lemma rowwise_same (f : list F -> list F -> list F) (a b : Tensor F) :
  size0 a = size0 b ->
  rowwise f a b = Ok (mkTensor (cols a) (zip_with f (rows a) (rows b))).
Proof.
  intros Hs. unfold rowwise. rewrite <- Hs, bdim_same. simpl.
  rewrite bzip_same by exact Hs. reflexivity.
Qed.

(** On two tensors of one shape a supported operator composes row by row. *)
Lemma comp_func_rows (e r : Tensor F) :
  supported (opn self) ->
  size0 e = size0 r -> cols e = cols r ->
  well_shaped e -> well_shaped r ->
  comp_func self e r =
    Ok (mkTensor (cols e) (zip_with (compose (opn self)) (rows e) (rows r))).
Proof.
  intros Hop Hs Hc He Hr. unfold comp_func, compose.
  destruct Hop as [E|[E|[E|E]]]; rewrite E; simpl.
  - apply rowwise_same. exact Hs.
  - apply ew2_same; assumption.
  - apply ew2_same; assumption.
  - apply rowwise_same. exact Hs.
Qed.

Lemma index_rows_ok (t : Tensor F) (idx : list nat) :
  Forall (fun i => i < size0 t) idx ->
  index_rows t idx =
    Ok (mkTensor (cols t) (map (fun i => nth i (rows t) []) idx)).
Proof.
  intros H. unfold index_rows. rewrite (gather_ok [] (rows t) idx H).
  reflexivity.
Qed.

Lemma index_rows_shaped (t : Tensor F) (idx : list nat) :
  well_shaped t ->
  Forall (fun i => i < size0 t) idx ->
  well_shaped (mkTensor (cols t) (map (fun i => nth i (rows t) []) idx)).
Proof.
  unfold well_shaped. simpl. intros Ht Hi.
  apply Forall_fmap. eapply Forall_impl; [exact Hi|].
  intros i Hlt. simpl. rewrite Forall_forall in Ht. apply Ht.
  apply list_elem_of_In. apply nth_In. exact Hlt.
Qed.

(** C5, as amended: [comp_func] raises its unsupported-operator error,
    Python's [NotImplementedError], exactly when the selector is none of the
    four strings ["corr"], ["sub"], ["mult"], ["rotate"]; [__init__] stores
    the selector unchecked, so the error comes with the first call. *)
Theorem comp_func_selectors (ent_embed rel_embed : Tensor F) :
  comp_func self ent_embed rel_embed = Raise NotImplementedError <->
  ~ supported (opn self).
Proof.
  assert (Hrow : forall f, rowwise f ent_embed rel_embed <> Raise NotImplementedError).
  { intros f. unfold rowwise, bdim.
    repeat (destruct (_ =? _)); simpl; discriminate. }
  assert (Hew : forall op, ew2 op ent_embed rel_embed <> Raise NotImplementedError).
  { intros op. unfold ew2, bdim.
    repeat (destruct (_ =? _); simpl); discriminate. }
  unfold comp_func, supported. split.
  - intros H Hop. destruct Hop as [E|[E|[E|E]]]; rewrite E in H; simpl in H;
      revert H; first [apply Hrow|apply Hew].
  - intros Hn.
    destruct (String.eqb_spec (opn self) "corr"); [tauto|].
    destruct (String.eqb_spec (opn self) "sub"); [tauto|].
    destruct (String.eqb_spec (opn self) "mult"); [tauto|].
    destruct (String.eqb_spec (opn self) "rotate"); [tauto|].
    reflexivity.
Qed.

(** With a supported selector and two tensors of one shape [comp_func]
    returns. *)
Lemma comp_func_returns (ent_embed rel_embed : Tensor F) :
  supported (opn self) ->
  size0 ent_embed = size0 rel_embed -> cols ent_embed = cols rel_embed ->
  exists t, comp_func self ent_embed rel_embed = Ok t.
Proof.
  intros Hop Hs Hc. unfold comp_func, rowwise, ew2.
  rewrite <- Hs, <- Hc, !bdim_same. simpl.
  destruct Hop as [E|[E|[E|E]]]; rewrite E; simpl; eauto.
Qed.

(** Handed a relation table [rel_embed], [combine_quals] composes in
    every mode but ['out'] each (qualifier entity, qualifier relation) pair
    with the composition operator and then sums, for every index [t] below
    the number of rows of [rel_embed], the compositions of the qualifiers
    whose parent index is [t]; an index without qualifiers gets exactly the
    zero row. *)
Lemma combine_quals_pools (m : mode) (x_j ent_embed rel_embed : Tensor F)
    (ent_index rel_index quals_index : list nat) :
  m <> mode_out ->
  supported (opn self) ->
  well_shaped ent_embed -> well_shaped rel_embed ->
  cols ent_embed = cols rel_embed ->
  length ent_index = length rel_index ->
  length quals_index = length rel_index ->
  Forall (fun i => i < size0 ent_embed) ent_index ->
  Forall (fun i => i < size0 rel_embed) rel_index ->
  Forall (fun i => i < size0 rel_embed) quals_index ->
  let comps := qual_compositions (opn self) ent_embed rel_embed
                 ent_index rel_index in
  exists out,
    combine_quals self m x_j ent_embed rel_embed
      ent_index rel_index quals_index = Ok out /\
    size0 out = size0 rel_embed /\
    (forall t, t < size0 rel_embed ->
       rows out !! t =
         Some (vsum (cols ent_embed) (sent_to t quals_index comps))) /\
    (forall t, t < size0 rel_embed -> t ∉ quals_index ->
       rows out !! t = Some (replicate (cols ent_embed) fzero)).
Proof.
  intros Hm Hop He Hr Hc Hl1 Hl2 Hie Hir Hiq comps.
  assert (Hcomb : combine_quals self m x_j ent_embed rel_embed
                    ent_index rel_index quals_index =
                  scatter_add (mkTensor (cols ent_embed) comps) quals_index
                    (size0 rel_embed)).
  { unfold combine_quals.
    rewrite (index_rows_ok rel_embed rel_index Hir). simpl.
    assert (Hin : rbind (index_rows ent_embed ent_index)
              (fun qualifier_emb_ent =>
               rbind (comp_func self qualifier_emb_ent
                        (mkTensor (cols rel_embed)
                           (map (fun i => nth i (rows rel_embed) []) rel_index)))
                 (fun qual_embeddings =>
                  scatter_add qual_embeddings quals_index (size0 rel_embed))) =
            scatter_add (mkTensor (cols ent_embed) comps) quals_index
              (size0 rel_embed)).
    { rewrite (index_rows_ok ent_embed ent_index Hie). simpl.
      rewrite comp_func_rows; simpl.
      - unfold comps, qual_compositions.
        rewrite zip_with_fmap_l, zip_with_fmap_r. reflexivity.
      - exact Hop.
      - unfold size0. simpl. rewrite !length_map. exact Hl1.
      - exact Hc.
      - apply index_rows_shaped; assumption.
      - apply index_rows_shaped; assumption. }
    destruct m; [exact Hin|contradiction|exact Hin]. }
  rewrite Hcomb. unfold scatter_add. simpl.
  destruct (scatter_add_gen_ok vadd (replicate (cols ent_embed) fzero)
              comps quals_index (size0 rel_embed)) as (out & Ho & Hlen & Hlk).
  { unfold comps, qual_compositions. rewrite length_zip_with. lia. }
  { exact Hiq. }
  rewrite Ho. simpl. eexists. split; [reflexivity|]. simpl.
  split; [exact Hlen|]. split.
  - intros t Ht. apply Hlk. exact Ht.
  - intros t Ht Hnot. rewrite (Hlk t Ht), sent_to_none by exact Hnot.
    reflexivity.
Qed.

(** *** The edge groups under ["both"] *)

Lemma mapM_lookup {A B} (f : A -> result B) (l : list A) : forall out,
  mapM f l = Ok out ->
  forall i a, l !! i = Some a -> exists b, out !! i = Some b /\ f a = Ok b.
Proof.
  induction l as [|x l IH]; intros out H i a Hi; [destruct i; discriminate|].
  simpl in H. destruct (f x) as [b|] eqn:Hx; [|discriminate]. simpl in H.
  destruct (mapM f l) as [bs|] eqn:Hl; [|discriminate]. simpl in H.
  inversion H; subst; clear H.
  destruct i as [|i]; simpl in Hi.
  - inversion Hi; subst. exists b. auto.
  - apply (IH bs eq_refl i a Hi).
Qed.

Lemma gather_lookup {A} (t : list A) (idx out : list nat) (tout : list A) :
  gather t idx = Ok tout ->
  forall i p, idx !! i = Some p -> tout !! i = t !! p /\ is_Some (t !! p).
Proof.
  intros H i p Hi. unfold gather in H.
  destruct (mapM_lookup _ _ _ H i p Hi) as (b & Hb & Hf).
  destruct (t !! p) as [a|]; [|discriminate].
  inversion Hf; subst. split; [exact Hb|eauto].
Qed.

Lemma gather_lookup_range {A} (t : list A) (idx : list nat) (out : list A) :
  gather t idx = Ok out ->
  length out = length idx /\ Forall (fun i => i < length t) idx.
Proof.
  unfold gather. revert out.
  induction idx as [|i idx IH]; intros out H; simpl in H.
  - inversion H; subst. split; [reflexivity|constructor].
  - destruct (t !! i) as [a|] eqn:Hi; [|discriminate]. simpl in H.
    destruct (mapM _ idx) as [bs|] eqn:Hm; [|discriminate]. simpl in H.
    inversion H; subst; clear H.
    destruct (IH bs eq_refl) as [Hl Hf]. split; [simpl; congruence|].
    constructor; [|exact Hf]. apply lookup_lt_is_Some. eauto.
Qed.

Lemma assign_row_ok n v r :
  length v = n -> assign_row n v = Ok r -> r = v.
Proof.
  intros Hl. unfold assign_row. rewrite Hl, Nat.eqb_refl. congruence.
Qed.

Lemma half_le (n : nat) : n / 2 <= n.
Proof. apply Nat.Div0.div_le_upper_bound. lia. Qed.

(** Under ["both"] the edges run between qualifier entities and the subject
    of the parent triple, the edge types are the qualifier relations (with
    the offset on the inverse half), the carried entity is the second
    endpoint of the parent edge.  The carried relation is [in_type] after
    its reassignment on line 102: the qualifier relations again.  The three
    rows of the qualifier tensor have one length. *)
Lemma forward_edges_both (edge_index : Index2) (edge_type : list nat)
    (quals : Quals) (e : Edges) :
  length (q_ent quals) = length (q_rel quals) ->
  length (q_idx quals) = length (q_rel quals) ->
  forward_edges self "both" edge_index edge_type quals = Ok e ->
  let nq := length (q_rel quals) / 2 in
  ix0 (in_index e) = take nq (q_ent quals) /\
  ix1 (out_index e) = take nq (q_ent quals) /\
  in_type e = take nq (q_rel quals) /\
  out_type e = map (fun r => r + num_rels self) (drop nq (q_rel quals)) /\
  trip_rel_in e = Some (take nq (q_rel quals)) /\
  trip_rel_out e = Some (take nq (q_rel quals)) /\
  exists oi oo,
    both_obj_in e = Some oi /\ both_obj_out e = Some oo /\
    (forall i p, take nq (q_idx quals) !! i = Some p ->
       oi !! i = ix1 edge_index !! p /\
       ix1 (in_index e) !! i = ix0 edge_index !! p /\
       ix0 (out_index e) !! i = ix0 edge_index !! p) /\
    (forall i p, drop nq (q_idx quals) !! i = Some p ->
       oo !! i = ix1 edge_index !! p).
Proof.
  intros Hle Hli H nq. unfold forward_edges in H. cbv zeta in H. fold nq in H.
  pose proof (half_le (length (q_rel quals))) as Hnq. fold nq in Hnq.
  change (String.eqb "both" "qual") with false in H.
  change (String.eqb "both" "both") with true in H.
  cbn [rbind fst snd] in H.
  destruct (assign_row nq (take nq (q_ent quals))) as [in0|] eqn:E0;
    [|discriminate]. cbn [rbind] in H.
  destruct (gather (ix0 edge_index) (take nq (q_idx quals))) as [subj|] eqn:E1;
    [|discriminate]. cbn [rbind] in H.
  destruct (assign_row nq subj) as [in1|] eqn:E2; [|discriminate].
  cbn [rbind] in H.
  destruct (gather (ix1 edge_index) (take nq (q_idx quals))) as [oi|] eqn:E3;
    [|discriminate]. cbn [rbind] in H.
  destruct (gather (ix1 edge_index) (drop nq (q_idx quals))) as [oo|] eqn:E4;
    [|discriminate]. cbn [rbind] in H.
  inversion H; subst e; clear H. cbn [in_index out_index in_type out_type
    trip_rel_in trip_rel_out both_obj_in both_obj_out ix0 ix1].
  apply assign_row_ok in E0; [|rewrite length_take; lia].
  apply assign_row_ok in E2;
    [|apply gather_lookup_range in E1 as [-> _]; rewrite length_take; lia].
  subst.
  repeat (split; [reflexivity|]).
  exists oi, oo. repeat (split; [reflexivity|]). split.
  - intros i p Hi.
    destruct (gather_lookup _ _ [] _ E3 i p Hi) as [H3 _].
    destruct (gather_lookup _ _ [] _ E1 i p Hi) as [H1 _]. auto.
  - intros i p Hi. destruct (gather_lookup _ _ [] _ E4 i p Hi) as [H4 _]. auto.
Qed.

(** *** The output at evaluation time *)





End LayerFacts.

Section LayerRuns.
Import Py Torch Layer LayerSpec LayerCases F64.
Local Open Scope nat_scope.

(** C5 as stated fails on its own names: the selectors ["subtract"],
    ["multiply"] and ["circular-correlation"] are not among the strings that
    [comp_func] compares with, and raise; ["sub"] is one and returns. *)
Lemma long_selector_names_raise :
  comp_func (conv_with "subtract") eye2 eye2 = Raise NotImplementedError /\
  comp_func (conv_with "multiply") eye2 eye2 = Raise NotImplementedError /\
  comp_func (conv_with "circular-correlation") eye2 eye2 =
    Raise NotImplementedError /\
  comp_func (conv_with "sub") eye2 eye2 =
    Ok (mkTensor 2 [[0; 0]; [0; 0]]%float).
Proof. repeat split; vm_compute; reflexivity. Qed.

(** C3: on the triple (0, r0, 1) with one qualifier (r1, 2), under ["both"],
    the synthesized edges run between the qualifier entity 2 and the subject
    0 with the qualifier relation as type (offset by [num_rels] on the
    inverse half) and the carried entity ids are the object 1 of the parent
    triple, as specified; the carried relation ids are the qualifier
    relation 1, not the relation 0 of the parent triple at the recorded
    index, which the comment on line 109 and the docstring of
    [combine_quals_trips] announce. *)
Theorem both_carries_qualifier_relation :
  exists e,
    forward_edges demo_conv "both" demo_edge_index demo_edge_type demo_quals
      = Ok e /\
    in_index e = mkIndex2 [2] [0] /\
    out_index e = mkIndex2 [0] [2] /\
    in_type e = [1] /\
    out_type e = [3] /\
    quals_index_in e = [0] /\
    both_obj_in e = Some [1] /\
    both_obj_out e = Some [1] /\
    gather demo_edge_type (quals_index_in e) = Ok [0] /\
    trip_rel_in e = Some [1] /\
    trip_rel_out e = Some [1].
Proof. eexists. split; [vm_compute; reflexivity|]. repeat split. Qed.

(** C4: [message] hands [combine_quals] the relation rows of the edges
    ([rel_sub_embs], line 208) where the relation table is meant, and line
    250 indexes them with the qualifier relation ids.  On the triples
    (0, r1, 1) and (1, r0, 2) with the qualifier (r0, entity 2) on the first,
    the claim's composition of the pair gives [x[2] - rel[0] = [4, 6]]; the
    layer composes entity 2 with the relation row of edge number 0, which
    is r1, and aggregates [[5, 5]] toward the subject 0.  On the one-triple
    graph of [demo_inputs] the qualifier relation id 1 is outside the one
    row of [rel_sub_embs] and the call raises [IndexError]. *)
Theorem qual_pooling_reads_edge_rows :
  let st := mkModuleState false None tt tt in
  let x := i_x crossed_inputs in
  let rel := i_rel_embed crossed_inputs in
  vsum 2 (sent_to 0 [0] (qual_compositions "sub" x rel [2] [0])) =
    [4; 6]%float /\
  compose "sub" (nth 2 (rows x) []) (nth 1 (rows rel) []) = [5; 5]%float /\
  gather (i_edge_type crossed_inputs) [0] = Ok [1] /\
  (exists in_res out_res loop_res rel_emb_all,
     forward_aggregate demo_conv "cpu" crossed_inputs =
       Ok (in_res, out_res, loop_res, rel_emb_all) /\
     rows in_res !! 0 = Some [5; 5]%float) /\
  (exists y r, fst (forward demo_conv st crossed_inputs) = Ok (y, r)) /\
  fst (forward demo_conv st (demo_inputs "qual")) = Raise IndexError.
Proof.
  intros st x rel.
  split; [vm_compute; reflexivity|]. split; [vm_compute; reflexivity|].
  split; [reflexivity|].
  split; [eexists _, _, _, _; split; vm_compute; reflexivity|].
  split; [eexists _, _; vm_compute; reflexivity|].
  vm_compute. reflexivity.
Qed.

(** The pooled qualifiers of two qualifiers on triple 0: entity rows 2 and
    0 against relation rows 1 and 3. *)
Lemma combine_quals_pools_witness :
  let x := i_x (demo_inputs "qual") in
  let r := i_rel_embed (demo_inputs "qual") in
  mode_in <> mode_out /\
  supported (opn demo_conv) /\
  combine_quals demo_conv mode_in x x r [2; 0] [1; 3] [0; 0] =
    Ok (mkTensor 2 [[4; 5]; [0; 0]; [0; 0]; [0; 0]]%float) /\
  exists out,
    combine_quals demo_conv mode_in x x r [2; 0] [1; 3] [0; 0] = Ok out /\
    rows out !! 0 =
      Some (vsum 2 (sent_to 0 [0; 0]
                      (qual_compositions "sub" x r [2; 0] [1; 3]))) /\
    rows out !! 1 = Some (replicate 2 fzero).
Proof.
  intros x r.
  assert (Hm : mode_in <> mode_out) by discriminate.
  assert (Hs : supported (opn demo_conv)) by (right; left; reflexivity).
  split; [exact Hm|]. split; [exact Hs|].
  split; [vm_compute; reflexivity|].
  destruct (combine_quals_pools demo_conv mode_in x x r [2; 0] [1; 3] [0; 0])
    as (out & Ho & _ & Hsum & Hzero);
    try assumption; try reflexivity;
    try (repeat constructor; unfold x, r, size0; simpl; lia).
  exists out. split; [exact Ho|]. split.
  - apply (Hsum 0). unfold r, size0. simpl. lia.
  - apply (Hzero 1); [unfold r, size0; simpl; lia|].
    intros Hin. apply list_elem_of_In in Hin. simpl in Hin.
    destruct Hin as [H|[H|[]]]; discriminate.
Defined.



(** The same edge lists on binary64 floats. *)
#[warnings="-inexact-float"]
Example fan_weights_binary64 :
  compute_norm fan_edges 2 = Ok [0; 0.49999999999999989]%float /\
  compute_norm cycle_edges 3 = Ok [1; 1; 1]%float.
Proof. split; vm_compute; reflexivity. Qed.

(** Under ["trip"] both halves of the demo graph get weight 0 (no entity is
    the head of an edge in both halves), so the output is a third of the
    self-loop result. *)
#[warnings="-inexact-float"]
Example forward_trip_evaluates :
  fst (forward demo_conv (mkModuleState false None tt tt) (demo_inputs "trip")) =
  Ok (mkTensor 2 [[0.33333333333333331; 0.66666666666666663];
                  [1; 1.3333333333333333];
                  [1.6666666666666665; 2]]%float,
      mkTensor 2 [[1; 0]; [0; 1]; [1; 1]; [2; 2]]%float).
Proof. vm_compute. reflexivity. Qed.

End LayerRuns.

(** ** The convolution layer: what a call returns and when it fails *)

Section LayerCallFacts.
Import Py Torch Layer LayerSpec LayerCases.
Local Open Scope nat_scope.
Context {F : Type} {SF : Scalar F} {GU : GcnUtils F} {TN : NN F}.
Variable self : CompGCNConv F.

Lemma rbind_ok {A B} (c : result A) (k : A -> result B) (b : B) :
  rbind c k = Ok b -> exists a, c = Ok a /\ k a = Ok b.
Proof. destruct c as [a|x]; [eauto|discriminate]. Qed.

Ltac rbind_inv H a Ha :=
  apply rbind_ok in H; destruct H as (a & Ha & H).

Lemma propagate_on_ok (index_device x_device : string)
    (edge_index : Index2) (x : Tensor F) (a : MsgArgs F) (y : Tensor F) :
  propagate_on self index_device x_device edge_index x a = Ok y ->
  index_device = x_device /\ propagate self edge_index x a = Ok y.
Proof.
  unfold propagate_on.
  destruct (String.eqb_spec index_device x_device); [auto|discriminate].
Qed.

Lemma propagate_on_same (dev : string) (edge_index : Index2) (x : Tensor F)
    (a : MsgArgs F) :
  propagate_on self dev dev edge_index x a = propagate self edge_index x a.
Proof. unfold propagate_on. rewrite String.eqb_refl. reflexivity. Qed.

(** *** The relation output *)

Lemma forward_aggregate_rel (dev : string) (i : Inputs F)
    (a b c d : Tensor F) :
  forward_aggregate self dev i = Ok (a, b, c, d) ->
  cat0 (i_rel_embed i) (loop_rel self) = Ok d.
Proof.
  intros H. unfold forward_aggregate in H. cbv zeta in H.
  rbind_inv H rel_emb_all Hcat. rewrite Hcat.
  rbind_inv H e He. rbind_inv H n1 Hn1. rbind_inv H n2 Hn2.
  rbind_inv H r1 Hr1. rbind_inv H r2 Hr2. rbind_inv H r3 Hr3.
  congruence.
Qed.

Lemma forward_combine_rel (st : ModuleState F) (a b c d y r : Tensor F) :
  fst (forward_combine self st a b c d) = Ok (y, r) ->
  exists r0, mm d (w_rel self) = Ok r0 /\ r = drop_last_row r0.
Proof.
  unfold forward_combine. cbv zeta.
  destruct (rbind (ew2 fadd _ _) _) as [out|x]; cbn [fst]; [|discriminate].
  intros H. rbind_inv H o Ho. rbind_inv H r0 Hr0.
  exists r0. split; [exact Hr0|congruence].
Qed.

Lemma forward_ok (st : ModuleState F) (i : Inputs F) (y r : Tensor F) :
  fst (forward self st i) = Ok (y, r) ->
  exists a b c d,
    forward_aggregate self (stored_device st i) i = Ok (a, b, c, d) /\
    fst (forward_combine self (with_device st i) a b c d) = Ok (y, r).
Proof.
  unfold forward. cbv zeta.
  destruct (forward_aggregate self (stored_device st i) i)
    as [[[[a b] c] d]|x]; [|discriminate].
  intros H. exists a, b, c, d. auto.
Qed.

(** X7: when the layer holds one self-loop relation (the shape [(1,
    in_channels)] that [__init__] gives [loop_rel]), the relation output of
    a call that returns is [rel_embed @ w_rel]: the row of the self-loop
    relation is appended before the product and cut off after it, and
    neither the graph, the qualifiers, the propagation type nor the mode of
    the module has a part in it. *)
Theorem forward_relation_output (st : ModuleState F) (i : Inputs F)
    (y r : Tensor F) :
  size0 (loop_rel self) = 1 ->
  fst (forward self st i) = Ok (y, r) ->
  mm (i_rel_embed i) (w_rel self) = Ok r.
Proof.
  intros Hl H.
  apply forward_ok in H as (a & b & c & d & Ha & H).
  apply forward_aggregate_rel in Ha.
  apply forward_combine_rel in H as (r0 & Hr0 & ->).
  unfold cat0 in Ha. destruct (cols (i_rel_embed i) =? cols (loop_rel self));
    [|discriminate].
  inversion Ha; subst d; clear Ha.
  unfold mm in *. cbn [cols rows size0] in Hr0.
  destruct (cols (i_rel_embed i) =? size0 (w_rel self)); [|discriminate].
  inversion Hr0; subst r0; clear Hr0.
  unfold drop_last_row. cbn [cols rows]. do 2 f_equal.
  unfold size0 in Hl. destruct (rows (loop_rel self)) as [|l [|l' ls]];
    try discriminate.
  rewrite map_app. cbn [map]. symmetry. apply removelast_last.
Qed.

(** *** Propagation types *)

Lemma message_unknown (x_j : Tensor F) (a : MsgArgs F) :
  m_mode a <> mode_loop ->
  prop_type a <> "trip"%string ->
  prop_type a <> "qual"%string ->
  prop_type a <> "both"%string ->
  exists x, message self x_j a = Raise x.
Proof.
  intros Hm H1 H2 H3. unfold message.
  destruct (index_rows (rel_embed a) (edge_type a)) as [rs|x];
    [|eexists; reflexivity].
  cbn [rbind].
  apply String.eqb_neq in H1, H2, H3. rewrite H1, H2, H3.
  destruct (m_mode a); [|..|contradiction]; eexists; reflexivity.
Qed.

(** X8: a propagation type other than ["trip"], ["qual"] and ["both"] is
    not refused by [forward]; [message] then leaves [comp_agg] unassigned in
    the modes ['in'] and ['out'], so the call ends in an exception whatever
    the graph is. *)
Theorem unknown_prop_type_raises (st : ModuleState F) (i : Inputs F) :
  i_prop_type i <> "trip"%string ->
  i_prop_type i <> "qual"%string ->
  i_prop_type i <> "both"%string ->
  exists x, fst (forward self st i) = Raise x.
Proof.
  intros H1 H2 H3. unfold forward. cbv zeta.
  destruct (forward_aggregate self (stored_device st i) i)
    as [[[[a b] c] d]|x] eqn:H; [exfalso|eexists; reflexivity].
  unfold forward_aggregate in H. cbv zeta in H.
  rbind_inv H rel_emb_all Hcat.
  rbind_inv H e He. rbind_inv H n1 Hn1. rbind_inv H n2 Hn2.
  rbind_inv H r1 Hr1. clear H.
  apply propagate_on_ok in Hr1 as [_ Hr1].
  unfold propagate in Hr1.
  rbind_inv Hr1 x_i Hxi. rbind_inv Hr1 x_j Hxj. rbind_inv Hr1 out Hout.
  destruct (message_unknown x_j
              (mkMsgArgs (in_type e) rel_emb_all (Some n1) mode_in
                 (Some (i_x i)) (Some (in_index_qual_ent e))
                 (Some (in_index_qual_rel e)) (Some (quals_index_in e))
                 (i_prop_type i) (both_obj_in e) (trip_rel_in e)
                 (i_aux_ents i) (i_aux_rels i) (Some (in_index e))))
    as (x & Hx); try assumption; [discriminate|].
  rewrite Hx in Hout. discriminate.
Qed.

(** *** Aggregation *)

Lemma scatter_add_gen_inv {V} (vadd0 : V -> V -> V) (vzero : V)
    (src : list V) (index : list nat) (n : nat) (out : list V) :
  scatter_add_gen vadd0 vzero src index n = Ok out ->
  length out = n /\
  forall t, t < n -> t ∉ index -> out !! t = Some vzero.
Proof.
  unfold scatter_add_gen. intros H. rbind_inv H idx Hidx.
  destruct (forallb _ idx); [|discriminate].
  inversion H; subst out; clear H. split.
  - rewrite scatter_fold_length. apply length_replicate.
  - intros t Ht Hnot.
    rewrite (scatter_fold_lookup vadd0 _ _ t vzero)
      by (apply lookup_replicate_2; exact Ht).
    assert (Hn : t ∉ idx).
    { destruct (length index =? length src).
      - inversion Hidx; subst. exact Hnot.
      - destruct (length index =? 1) eqn:E1; [|discriminate].
        inversion Hidx; subst. apply Nat.eqb_eq in E1.
        destruct index as [|j [|? ?]]; try discriminate. simpl.
        intros Hin. apply elem_of_replicate in Hin as [-> _].
        apply Hnot. left. }
    pose proof (sent_to_none t idx src Hn) as Hs. unfold sent_to in Hs.
    rewrite Hs. reflexivity.
Qed.



(** *** The inverse qualifier edges *)

Lemma assign_row_cases n v r :
  assign_row n v = Ok r ->
  (length v = n /\ r = v) \/
  (length v <> n /\ length v = 1 /\ r = replicate n (hd 0 v)).
Proof.
  unfold assign_row.
  destruct (Nat.eqb_spec (length v) n) as [E|E]; [intros H; left; split; congruence|].
  destruct (Nat.eqb_spec (length v) 1) as [E1|E1]; [|discriminate].
  intros H. right. split; [exact E|]. split; [exact E1|congruence].
Qed.

Lemma half_bounds (n : nat) : 2 * (n / 2) <= n < 2 * (n / 2) + 2.
Proof.
  pose proof (Nat.div_mod_eq n 2) as H.
  pose proof (Nat.mod_upper_bound n 2 ltac:(lia)) as Hm. lia.
Qed.

(** X10: on a qualifier tensor of [c] columns, with [nq = c // 2],
    [qual_inverse_edges] returns exactly when [c] is even or [c] is 1 (the
    one entry of its inverse half is then expanded over rows of no column)
    and the parent indices of the inverse half lie in the inverse edge list.
    It returns [nq] edges: inverse qualifier edge [j] runs from the
    qualifier entity of column [nq + j] to the second endpoint of its parent
    edge; the types are the qualifier relations of the inverse half shifted
    by [num_rels]. *)
Theorem qual_inverse_edges_layout (inv_edge_index : Index2) (quals : Quals) :
  length (q_ent quals) = length (q_rel quals) ->
  length (q_idx quals) = length (q_rel quals) ->
  let c := length (q_rel quals) in
  let nq := c / 2 in
  ((exists res, qual_inverse_edges self inv_edge_index quals = Ok res) <->
   (c = 2 * nq \/ c = 1) /\
   Forall (fun p => p < length (ix1 inv_edge_index))
     (drop nq (q_idx quals))) /\
  (forall ei ty,
     qual_inverse_edges self inv_edge_index quals = Ok (ei, ty) ->
     length (ix0 ei) = nq /\
     length (ix1 ei) = nq /\
     ty = map (fun r => r + num_rels self) (drop nq (q_rel quals)) /\
     forall j, j < nq ->
       ix0 ei !! j = q_ent quals !! (nq + j) /\
       forall p, q_idx quals !! (nq + j) = Some p ->
         ix1 ei !! j = ix1 inv_edge_index !! p).
Proof.
  intros He Hi. cbv zeta. unfold qual_inverse_edges. cbv zeta.
  remember (length (q_rel quals)) as c eqn:Ec.
  remember (c / 2) as nq eqn:En.
  pose proof (half_bounds c) as Hc. rewrite <- En in Hc.
  split; [split|].
  - intros ([ei ty] & H).
    rbind_inv H tails Ht. rbind_inv H r0 H0. rbind_inv H r1 H1.
    apply gather_lookup_range in Ht as [_ Hf]. split; [|exact Hf].
    apply assign_row_cases in H0 as [[E _]|(_ & E & _)];
      rewrite length_drop, He in E; lia.
  - intros [Hshape Hf].
    rewrite (gather_ok 0 _ _ Hf). cbn [rbind].
    unfold assign_row. rewrite length_map, !length_drop, He, Hi.
    destruct Hshape as [E|E].
    + replace (c - nq) with nq by lia. rewrite Nat.eqb_refl. cbn [rbind].
      eexists. reflexivity.
    + assert (nq = 0) as -> by lia. rewrite E. cbn [Nat.eqb Nat.sub rbind].
      eexists. reflexivity.
  - intros ei ty H.
    rbind_inv H tails Ht. rbind_inv H r0 H0. rbind_inv H r1 H1.
    inversion H; subst ei ty; clear H. cbn [ix0 ix1].
    pose proof (gather_lookup_range _ _ _ Ht) as [Hlt _].
    rewrite length_drop, Hi in Hlt.
    apply assign_row_cases in H0 as [[E0 ->]|(N0 & E0 & ->)];
      apply assign_row_cases in H1 as [[E1 ->]|(N1 & E1 & ->)];
      rewrite ?length_replicate, ?length_drop, ?He in *;
      (split; [lia|]); (split; [lia|]); (split; [reflexivity|]);
      intros j Hj; try lia.
    rewrite lookup_drop. split; [reflexivity|].
    intros p Hp. rewrite <- lookup_drop in Hp.
    destruct (gather_lookup _ _ [] _ Ht j p Hp) as [Hl _]. exact Hl.
Qed.

(** *** Qualifier relations under ["qual"] *)

Lemma message_qual_positions (x_j : Tensor F) (a : MsgArgs F) (out : Tensor F) :
  prop_type a = "qual"%string ->
  m_mode a <> mode_loop ->
  message self x_j a = Ok out ->
  exists qr, qualifier_rel a = Some qr /\
             Forall (fun q => q < length (edge_type a)) qr.
Proof.
  intros Hp Hm H. unfold message in H.
  rbind_inv H rs Hrs. rbind_inv H cagg Hcomp. clear H.
  rewrite Hp in Hcomp.
  change (String.eqb "qual" "trip") with false in Hcomp.
  change (String.eqb "qual" "qual") with true in Hcomp.
  assert (Hq : rbind (need (ent_embed a)) (fun ee =>
               rbind (need (qualifier_ent a)) (fun qe =>
               rbind (need (qualifier_rel a)) (fun qr =>
               rbind (need (qual_index a)) (fun qi =>
               combine_quals self (m_mode a) x_j ee rs qe qr qi)))) = Ok cagg)
    by (destruct (m_mode a); [exact Hcomp|exact Hcomp|contradiction]).
  clear Hcomp.
  rbind_inv Hq ee Hee. rbind_inv Hq qe Hqe. rbind_inv Hq qr Hqr.
  rbind_inv Hq qi Hqi.
  exists qr. split; [destruct (qualifier_rel a); [inversion Hqr; auto|discriminate]|].
  unfold combine_quals in Hq. rbind_inv Hq rel Hrel. clear Hq.
  unfold index_rows in Hrs, Hrel.
  rbind_inv Hrs rows1 Hg1. inversion Hrs; subst rs; clear Hrs.
  rbind_inv Hrel rows2 Hg2. cbn [rows] in Hg2.
  apply gather_lookup_range in Hg1 as [Hl1 _], Hg2 as [_ Hf2].
  rewrite Hl1 in Hf2. exact Hf2.
Qed.

Lemma propagate_message (edge_index : Index2) (x : Tensor F) (a : MsgArgs F)
    (y : Tensor F) :
  propagate self edge_index x a = Ok y ->
  exists x_j out, message self x_j a = Ok out.
Proof.
  intros H. unfold propagate in H.
  rbind_inv H x_i Hxi. rbind_inv H x_j Hxj. rbind_inv H out Hout. eauto.
Qed.

Lemma forward_edges_qual (edge_index : Index2) (edge_type : list nat)
    (quals : Quals) (e : Edges) :
  forward_edges self "qual" edge_index edge_type quals = Ok e ->
  let nq := length (q_rel quals) / 2 in
  let ne := length (ix0 edge_index) / 2 in
  in_type e = take ne edge_type /\
  in_index_qual_rel e = take nq (q_rel quals) /\
  out_index_qual_rel e = drop nq (q_rel quals) /\
  out_type e = map (fun r => r + num_rels self) (drop nq (q_rel quals)).
Proof.
  intros H nq ne. unfold forward_edges in H. cbv zeta in H.
  fold nq in H. fold ne in H.
  change (String.eqb "qual" "qual") with true in H.
  change (String.eqb "qual" "both") with false in H.
  rbind_inv H oo Hoo. inversion H; subst e; clear H.
  cbn [in_type in_index_qual_rel out_index_qual_rel out_type].
  repeat (split; [reflexivity|]).
  unfold qual_inverse_edges in Hoo. cbv zeta in Hoo. fold nq in Hoo.
  rbind_inv Hoo t Ht. rbind_inv Hoo r0 H0. rbind_inv Hoo r1 H1.
  inversion Hoo; subst oo. reflexivity.
Qed.

(** X13: under ["qual"], [message] hands the relation rows of the edges
    ([rel_sub_embs], one row per edge) to [combine_quals], which indexes
    them with the qualifier relation ids.  So a call of [forward] returns
    only if every qualifier relation id of the first half is below the
    number of edges of the first half, and every one of the inverse half is
    below the number of qualifier columns of that half. *)
Theorem qual_relation_ids_index_edges (st : ModuleState F) (i : Inputs F)
    (y r : Tensor F) :
  i_prop_type i = "qual"%string ->
  fst (forward self st i) = Ok (y, r) ->
  let nq := length (q_rel (i_quals i)) / 2 in
  let ne := length (ix0 (i_edge_index i)) / 2 in
  Forall (fun q => q < ne) (take nq (q_rel (i_quals i))) /\
  Forall (fun q => q < length (q_rel (i_quals i)) - nq)
    (drop nq (q_rel (i_quals i))).
Proof.
  intros Hp H nq ne.
  apply forward_ok in H as (a & b & c & d & H & _).
  unfold forward_aggregate in H. cbv zeta in H.
  rbind_inv H rel_emb_all Hcat.
  rbind_inv H e He. rbind_inv H n1 Hn1. rbind_inv H n2 Hn2.
  rbind_inv H r1 Hr1. rbind_inv H r2 Hr2. clear H.
  rewrite Hp in He.
  apply forward_edges_qual in He as (Hit & Hiq & Hoq & Hot).
  fold nq in Hiq, Hoq, Hot. fold ne in Hit.
  apply propagate_on_ok in Hr1 as [_ Hr1], Hr2 as [_ Hr2].
  apply propagate_message in Hr1 as (xj1 & o1 & Hm1).
  apply propagate_message in Hr2 as (xj2 & o2 & Hm2).
  apply message_qual_positions in Hm1 as (qr1 & Hq1 & Hf1);
    [|exact Hp|discriminate].
  apply message_qual_positions in Hm2 as (qr2 & Hq2 & Hf2);
    [|exact Hp|discriminate].
  cbn [qualifier_rel edge_type] in *.
  inversion Hq1; subst qr1. inversion Hq2; subst qr2.
  rewrite Hit, Hiq in Hf1. rewrite Hot, Hoq in Hf2.
  rewrite length_map, length_drop in Hf2. split; [|exact Hf2].
  eapply Forall_impl; [exact Hf1|]. cbn beta. intros q Hq.
  rewrite length_take in Hq. lia.
Qed.

(** *** Qualifiers under ["trip"] *)

Lemma message_trip_any_quals (x_j : Tensor F) (et : list nat) (re : Tensor F)
    (en : option (list F)) (m : mode) (ee : option (Tensor F))
    (qe qr qi qe' qr' qi' : option (list nat))
    (ae ar : option (Tensor F)) (ei : option Index2) :
  message self x_j (mkMsgArgs et re en m ee qe qr qi "trip"
                      None None ae ar ei) =
  message self x_j (mkMsgArgs et re en m ee qe' qr' qi' "trip"
                      None None ae ar ei).
Proof.
  unfold message.
  cbn [edge_type rel_embed edge_norm m_mode ent_embed prop_type].
  change (String.eqb "trip" "trip") with true. cbv iota.
  destruct m; reflexivity.
Qed.

(** X20: under ["trip"] the qualifier tensor is sliced and handed to
    [message], which does not read it: any two calls that differ only in
    [quals] give the same result and the same state. *)
Theorem trip_ignores_quals (st : ModuleState F) (i : Inputs F)
    (quals' : Quals) :
  i_prop_type i = "trip"%string ->
  forward self st (with_quals i quals') = forward self st i.
Proof.
  intros Hp. unfold forward. cbv zeta.
  change (stored_device st (with_quals i quals')) with (stored_device st i).
  change (with_device st (with_quals i quals')) with (with_device st i).
  assert (Ha : forall dev,
             forward_aggregate self dev (with_quals i quals') =
             forward_aggregate self dev i).
  2:{ rewrite Ha. reflexivity. }
  intros dev.
  unfold forward_aggregate, with_quals. cbv zeta.
  cbn [i_prop_type i_x i_edge_index i_edge_type i_rel_embed i_quals
       i_aux_ents i_aux_rels i_edge_device].
  rewrite Hp.
  destruct (cat0 (i_rel_embed i) (loop_rel self)) as [rel_emb_all|];
    [|reflexivity].
  cbn [rbind].
  unfold forward_edges, in_index_device, out_index_device. cbv zeta.
  change (String.eqb "trip" "qual") with false.
  change (String.eqb "trip" "both") with false.
  cbn [rbind fst snd in_index out_index in_type out_type in_index_qual_ent
       out_index_qual_ent in_index_qual_rel out_index_qual_rel
       quals_index_in quals_index_out both_obj_in both_obj_out
       trip_rel_in trip_rel_out].
  destruct (compute_norm _ _) as [n1|]; [|reflexivity]. cbn [rbind].
  destruct (compute_norm _ _) as [n2|]; [|reflexivity]. cbn [rbind].
  rewrite !propagate_on_same. unfold propagate.
  destruct (index_rows (i_x i) (ix0 (take2 _ _))) as [a1|]; [|reflexivity].
  cbn [rbind].
  destruct (index_rows (i_x i) (ix1 (take2 _ _))) as [b1|]; [|reflexivity].
  cbn [rbind].
  rewrite (message_trip_any_quals b1 _ _ _ _ _
             (Some (take (length (q_rel quals') / 2) (q_ent quals')))
             (Some (take (length (q_rel quals') / 2) (q_rel quals')))
             (Some (take (length (q_rel quals') / 2) (q_idx quals')))
             (Some (take (length (q_rel (i_quals i)) / 2) (q_ent (i_quals i))))
             (Some (take (length (q_rel (i_quals i)) / 2) (q_rel (i_quals i))))
             (Some (take (length (q_rel (i_quals i)) / 2) (q_idx (i_quals i))))).
  destruct (message self b1 _) as [o1|]; [|reflexivity]. cbn [rbind].
  destruct (scatter_add o1 _ _) as [s1|]; [|reflexivity]. cbn [rbind].
  destruct (index_rows (i_x i) (ix0 (drop2 _ _))) as [a2|]; [|reflexivity].
  cbn [rbind].
  destruct (index_rows (i_x i) (ix1 (drop2 _ _))) as [b2|]; [|reflexivity].
  cbn [rbind].
  rewrite (message_trip_any_quals b2 _ _ _ _ _
             (Some (drop (length (q_rel quals') / 2) (q_ent quals')))
             (Some (drop (length (q_rel quals') / 2) (q_rel quals')))
             (Some (drop (length (q_rel quals') / 2) (q_idx quals')))
             (Some (drop (length (q_rel (i_quals i)) / 2) (q_ent (i_quals i))))
             (Some (drop (length (q_rel (i_quals i)) / 2) (q_rel (i_quals i))))
             (Some (drop (length (q_rel (i_quals i)) / 2) (q_idx (i_quals i))))).
  reflexivity.
Qed.

(** *** The parent triple under ["both"] *)

Lemma forward_edges_both_any_type (edge_index : Index2)
    (edge_type edge_type' : list nat) (quals : Quals) :
  forward_edges self "both" edge_index edge_type quals =
  forward_edges self "both" edge_index edge_type' quals.
Proof.
  unfold forward_edges. cbv zeta.
  change (String.eqb "both" "qual") with false.
  change (String.eqb "both" "both") with true.
  cbn [rbind fst snd]. reflexivity.
Qed.

(** X17: under ["both"] the edge types are replaced by the qualifier
    relations before they are read (also where the relation of the parent
    triple is meant to be carried), so [edge_type] has no part in what
    [forward] returns: any two calls that differ only in [edge_type] give
    the same result and the same state. *)
Theorem both_ignores_edge_type (st : ModuleState F) (i : Inputs F)
    (edge_type' : list nat) :
  i_prop_type i = "both"%string ->
  forward self st (with_edge_type i edge_type') = forward self st i.
Proof.
  intros Hp. unfold forward. cbv zeta.
  change (stored_device st (with_edge_type i edge_type'))
    with (stored_device st i).
  change (with_device st (with_edge_type i edge_type'))
    with (with_device st i).
  assert (Ha : forall dev,
             forward_aggregate self dev (with_edge_type i edge_type') =
             forward_aggregate self dev i).
  { intros dev. unfold forward_aggregate, with_edge_type. cbv zeta.
    cbn [i_prop_type i_x i_edge_index i_edge_type i_rel_embed i_quals
         i_aux_ents i_aux_rels i_edge_device].
    rewrite Hp.
    rewrite (forward_edges_both_any_type _ edge_type' (i_edge_type i)).
    reflexivity. }
  rewrite Ha. reflexivity.
Qed.

Lemma gather_by_range {A} (d : A) (t : list A) (idx : list nat) :
  gather t idx =
    if forallb (fun i => i <? length t) idx
    then Ok (map (fun i => nth i t d) idx)
    else Raise IndexError.
Proof.
  unfold gather. induction idx as [|i idx IH]; [reflexivity|].
  cbn [mapM forallb].
  destruct (Nat.ltb_spec i (length t)) as [Hi|Hi].
  - destruct (t !! i) as [a|] eqn:E.
    + cbn [rbind andb]. rewrite IH.
      destruct (forallb _ idx); [|reflexivity]. cbn [rbind map].
      apply nth_lookup_Some with (d := d) in E. rewrite E. reflexivity.
    + apply lookup_ge_None in E. lia.
  - rewrite (proj2 (lookup_ge_None t i)) by lia. reflexivity.
Qed.

Lemma map_nth_in_range (n : nat) (t : list nat) (idx : list nat) :
  Forall (fun v => v < n) t ->
  Forall (fun i => i < length t) idx ->
  Forall (fun v => v < n) (map (fun i => nth i t 0) idx).
Proof.
  intros Ht Hi. apply Forall_fmap. eapply Forall_impl; [exact Hi|].
  cbn beta. intros i Hlt. rewrite Forall_forall in Ht. apply Ht.
  apply list_elem_of_In. apply nth_In. exact Hlt.
Qed.

Lemma message_both_objects (x_j : Tensor F) (et : list nat) (re : Tensor F)
    (en : option (list F)) (m : mode) (x : Tensor F)
    (qe qr qi : option (list nat)) (bo bo' : list nat)
    (tr : option (list nat)) (ae ar : option (Tensor F))
    (ei : option Index2) :
  let t := match ae with Some a => a | None => x end in
  Forall (fun v => v < size0 t) bo ->
  Forall (fun v => v < size0 t) bo' ->
  message self x_j (mkMsgArgs et re en m (Some x) qe qr qi "both"
                      (Some bo) tr ae ar ei) =
  message self x_j (mkMsgArgs et re en m (Some x) qe qr qi "both"
                      (Some bo') tr ae ar ei).
Proof.
  intros t Hb Hb'. unfold message.
  cbn [edge_type rel_embed edge_norm m_mode ent_embed qualifier_ent
       qualifier_rel qual_index prop_type both_obj_index trip_rel
       aux_ent_embs aux_rel_embs entity_index].
  destruct (index_rows re et) as [rs|]; [|reflexivity]. cbn [rbind].
  change (String.eqb "both" "trip") with false.
  change (String.eqb "both" "qual") with false.
  change (String.eqb "both" "both") with true.
  cbv iota.
  assert (Hin : forall k : Tensor F -> result (Tensor F),
            rbind (need (Some bo)) (fun b => rbind (index_rows t b) k) =
            rbind (index_rows t bo) k)
    by reflexivity.
  destruct m; [| |reflexivity]; destruct ae as [a|]; subst t;
    repeat match goal with
           | |- context [need ?o] =>
               lazymatch o with
               | Some _ => fail
               | _ => destruct o; cbn [need rbind]; [|reflexivity]
               end
           end;
    cbn [need rbind];
    repeat match goal with
           | |- context [index_rows ?a ?b] =>
               lazymatch b with
               | bo => fail
               | bo' => fail
               | _ => destruct (index_rows a b); cbn [rbind]; [|reflexivity]
               end
           end;
    rewrite ?(index_rows_ok _ bo Hb), ?(index_rows_ok _ bo' Hb');
    cbn [rbind]; reflexivity.
Qed.

(** X18: under ["both"] the objects of the parent triples are looked up
    and handed to [combine_quals_trips], which does not read them: any two
    calls that differ only in the second endpoints of the edges (of the same
    number, all of them rows of the entity table in use) give the same
    result and the same state. *)
Theorem both_ignores_objects (st : ModuleState F) (i : Inputs F)
    (col' : list nat) :
  i_prop_type i = "both"%string ->
  length col' = length (ix1 (i_edge_index i)) ->
  Forall (fun v => v < size0 (object_table i)) (ix1 (i_edge_index i)) ->
  Forall (fun v => v < size0 (object_table i)) col' ->
  forward self st (with_second_endpoints i col') = forward self st i.
Proof.
  intros Hp Hlen Hcol Hcol'. unfold forward. cbv zeta.
  change (stored_device st (with_second_endpoints i col'))
    with (stored_device st i).
  change (with_device st (with_second_endpoints i col'))
    with (with_device st i).
  assert (Ha : forall dev,
             forward_aggregate self dev (with_second_endpoints i col') =
             forward_aggregate self dev i).
  2:{ rewrite Ha. reflexivity. }
  intros dev.
  unfold forward_aggregate, with_second_endpoints. cbv zeta.
  cbn [i_prop_type i_x i_edge_index i_edge_type i_rel_embed i_quals
       i_aux_ents i_aux_rels i_edge_device].
  rewrite Hp.
  unfold in_index_device, out_index_device.
  change (String.eqb "both" "qual") with false.
  change (String.eqb "both" "both") with true.
  cbv iota. unfold propagate_on.
  destruct (cat0 (i_rel_embed i) (loop_rel self)) as [rel_emb_all|];
    [|reflexivity].
  cbn [rbind].
  unfold forward_edges. cbv zeta.
  change (String.eqb "both" "qual") with false.
  change (String.eqb "both" "both") with true.
  cbn [rbind fst snd ix0 ix1].
  set (nq := length (q_rel (i_quals i)) / 2).
  destruct (assign_row nq (take nq (q_ent (i_quals i)))) as [in0|];
    [|reflexivity].
  cbn [rbind].
  destruct (gather (ix0 (i_edge_index i)) (take nq (q_idx (i_quals i))))
    as [subj|]; [|reflexivity].
  cbn [rbind].
  destruct (assign_row nq subj) as [in1|]; [|reflexivity].
  cbn [rbind].
  rewrite !(gather_by_range 0 col'), !(gather_by_range 0 (ix1 (i_edge_index i))).
  rewrite Hlen.
  destruct (forallb _ (take nq (q_idx (i_quals i)))) eqn:E1; [|reflexivity].
  cbn [rbind].
  destruct (forallb _ (drop nq (q_idx (i_quals i)))) eqn:E2; [|reflexivity].
  cbn [rbind in_index out_index in_type out_type in_index_qual_ent
       out_index_qual_ent in_index_qual_rel out_index_qual_rel
       quals_index_in quals_index_out both_obj_in both_obj_out
       trip_rel_in trip_rel_out].
  destruct (compute_norm (mkIndex2 in0 in1) (size0 (i_x i))) as [n1|];
    [|reflexivity].
  cbn [rbind].
  destruct (compute_norm (mkIndex2 in1 in0) (size0 (i_x i))) as [n2|];
    [|reflexivity].
  cbn [rbind].
  assert (Hr1 : Forall (fun i0 => i0 < length (ix1 (i_edge_index i)))
                  (take nq (q_idx (i_quals i)))).
  { apply Forall_forall. intros v Hv. rewrite forallb_forall in E1.
    apply Nat.ltb_lt. apply E1. apply list_elem_of_In. exact Hv. }
  assert (Hr2 : Forall (fun i0 => i0 < length (ix1 (i_edge_index i)))
                  (drop nq (q_idx (i_quals i)))).
  { apply Forall_forall. intros v Hv. rewrite forallb_forall in E2.
    apply Nat.ltb_lt. apply E2. apply list_elem_of_In. exact Hv. }
  destruct (String.eqb dev (i_edge_device i)); [|reflexivity].
  unfold propagate. cbn [ix0 ix1].
  destruct (index_rows (i_x i) in0) as [xi1|]; [|reflexivity]. cbn [rbind].
  destruct (index_rows (i_x i) in1) as [xj1|]; [|reflexivity]. cbn [rbind].
  unfold object_table in Hcol, Hcol'.
  rewrite (message_both_objects xj1 _ _ _ _ _ _ _ _
             (map (fun i0 => nth i0 col' 0) (take nq (q_idx (i_quals i))))
             (map (fun i0 => nth i0 (ix1 (i_edge_index i)) 0)
                (take nq (q_idx (i_quals i)))));
    [|apply map_nth_in_range; [assumption|rewrite ?Hlen; assumption]..].
  destruct (message self xj1 _) as [o1|]; [|reflexivity]. cbn [rbind].
  destruct (scatter_add o1 in0 (size0 (i_x i))) as [a1|]; [|reflexivity].
  cbn [rbind].
  rewrite (message_both_objects xi1 _ _ _ _ _ _ _ _
             (map (fun i0 => nth i0 col' 0) (drop nq (q_idx (i_quals i))))
             (map (fun i0 => nth i0 (ix1 (i_edge_index i)) 0)
                (drop nq (q_idx (i_quals i)))));
    [|apply map_nth_in_range; [assumption|rewrite ?Hlen; assumption]..].
  reflexivity.
Qed.

(** *** The state of the module *)

Lemma drop_out_state (st : ModuleState F) (t : Tensor F) :
  device (snd (drop_out self st t)) = device st /\
  training (snd (drop_out self st t)) = training st.
Proof. unfold drop_out. destruct (training st) eqn:Ht; auto. Qed.

Lemma batch_norm_state (st : ModuleState F) (t : Tensor F) :
  device (snd (batch_norm st t)) = device st /\
  training (snd (batch_norm st t)) = training st.
Proof.
  unfold batch_norm. destruct (training st) eqn:Ht; [|auto].
  destruct (bn_train (bn st) t); auto.
Qed.

Lemma forward_combine_state (st : ModuleState F) (a b c d : Tensor F) :
  device (snd (forward_combine self st a b c d)) = device st /\
  training (snd (forward_combine self st a b c d)) = training st.
Proof.
  unfold forward_combine. cbv zeta.
  destruct (drop_out_state st a) as [D1 T1].
  destruct (drop_out_state (snd (drop_out self st a)) b) as [D2 T2].
  destruct (rbind _ _) as [out|x]; cbn [snd].
  - destruct (batch_norm_state
                (snd (drop_out self (snd (drop_out self st a)) b)) out)
      as [D3 T3].
    rewrite D3, T3, D2, T2. auto.
  - rewrite D2, T2. auto.
Qed.

(** X16: [forward] records the device of the edge index of the first call
    in [self.device], before anything that can fail, and no later call
    changes it; no call changes the mode ([training]) of the module. *)
Theorem forward_keeps_first_device (st : ModuleState F) (i i' : Inputs F) :
  let st1 := snd (forward self st i) in
  device st1 = Some (match device st with
                     | Some d => d
                     | None => i_edge_device i
                     end) /\
  training st1 = training st /\
  device (snd (forward self st1 i')) = device st1.
Proof.
  assert (H : forall s j,
             device (snd (forward self s j)) = device (with_device s j) /\
             training (snd (forward self s j)) = training s).
  { intros s j. unfold forward. cbv zeta.
    assert (Hw : training (with_device s j) = training s)
      by (unfold with_device; destruct (device s); reflexivity).
    destruct (forward_aggregate self (stored_device s j) j)
      as [[[[a b] c] d]|x].
    - destruct (forward_combine_state (with_device s j) a b c d) as [H1 H2].
      rewrite H1, H2. auto.
    - auto. }
  intros st1. destruct (H st i) as [Hd Ht]. fold st1 in Hd, Ht.
  assert (Hfirst : device st1 = Some (match device st with
                                      | Some d => d
                                      | None => i_edge_device i
                                      end)).
  { rewrite Hd. unfold with_device. destruct (device st) eqn:E; [exact E|].
    reflexivity. }
  split; [exact Hfirst|]. split; [exact Ht|].
  destruct (H st1 i') as [Hd' _]. rewrite Hd'. unfold with_device.
  destruct (device st1) eqn:E1; [exact E1|discriminate Hfirst].
Qed.

End LayerCallFacts.

Section LayerCallRuns.
Import Py Torch Layer LayerSpec LayerCases F64.
Local Open Scope nat_scope.

Lemma forward_relation_output_witness :
  let st := mkModuleState false None tt tt in
  size0 (loop_rel demo_conv) = 1 /\
  exists y r,
    fst (forward demo_conv st (demo_inputs "both")) = Ok (y, r) /\
    mm (i_rel_embed (demo_inputs "both")) (w_rel demo_conv) = Ok r.
Proof.
  intros st. split; [reflexivity|].
  assert (H : exists y r,
             fst (forward demo_conv st (demo_inputs "both")) = Ok (y, r))
    by (eexists _, _; vm_compute; reflexivity).
  destruct H as (y & r & H). exists y, r. split; [exact H|].
  exact (forward_relation_output demo_conv st (demo_inputs "both") y r
           eq_refl H).
Defined.

Lemma unknown_prop_type_raises_witness :
  let st := mkModuleState false None tt tt in
  i_prop_type (demo_inputs "triple") <> "trip"%string /\
  i_prop_type (demo_inputs "triple") <> "qual"%string /\
  i_prop_type (demo_inputs "triple") <> "both"%string /\
  fst (forward demo_conv st (demo_inputs "triple")) = Raise UnboundLocalError /\
  exists x, fst (forward demo_conv st (demo_inputs "triple")) = Raise x.
Proof.
  intros st.
  split; [discriminate|]. split; [discriminate|]. split; [discriminate|].
  split; [vm_compute; reflexivity|].
  apply (unknown_prop_type_raises demo_conv st (demo_inputs "triple"));
    discriminate.
Defined.


Lemma qual_inverse_edges_layout_witness :
  length (q_ent demo_quals) = length (q_rel demo_quals) /\
  length (q_idx demo_quals) = length (q_rel demo_quals) /\
  qual_inverse_edges demo_conv (mkIndex2 [1] [0]) demo_quals =
    Ok (mkIndex2 [2] [0], [3]) /\
  ix1 (mkIndex2 [2] [0]) !! 0 = ix1 (mkIndex2 [1] [0]) !! 0 /\
  qual_inverse_edges demo_conv (mkIndex2 [1] [0]) (mkQuals [1] [2] [0]) =
    Ok (mkIndex2 [] [], [3]) /\
  ((exists res,
      qual_inverse_edges demo_conv (mkIndex2 [1] [0])
        (mkQuals [1; 1; 1] [2; 2; 2] [0; 0; 0]) = Ok res) <->
   (3 = 2 * (3 / 2) \/ 3 = 1) /\
   Forall (fun p => p < 1) (drop (3 / 2) [0; 0; 0])).
Proof.
  split; [reflexivity|]. split; [reflexivity|].
  assert (H : qual_inverse_edges demo_conv (mkIndex2 [1] [0]) demo_quals =
              Ok (mkIndex2 [2] [0], [3])) by reflexivity.
  split; [exact H|].
  destruct (qual_inverse_edges_layout demo_conv (mkIndex2 [1] [0]) demo_quals
              eq_refl eq_refl) as (_ & Hl).
  destruct (Hl _ _ H) as (_ & _ & _ & Hj).
  split; [apply (proj2 (Hj 0 ltac:(simpl; lia)) 0); reflexivity|].
  split; [reflexivity|].
  apply (qual_inverse_edges_layout demo_conv (mkIndex2 [1] [0])
           (mkQuals [1; 1; 1] [2; 2; 2] [0; 0; 0]) eq_refl eq_refl).
Defined.

Lemma qual_relation_ids_index_edges_witness :
  let st := mkModuleState false None tt tt in
  i_prop_type low_quals_inputs = "qual"%string /\
  (exists y r, fst (forward demo_conv st low_quals_inputs) = Ok (y, r)) /\
  Forall (fun q => q < 1) (take 1 (q_rel (i_quals low_quals_inputs))) /\
  fst (forward demo_conv st (demo_inputs "qual")) = Raise IndexError.
Proof.
  intros st. split; [reflexivity|].
  assert (H : exists y r, fst (forward demo_conv st low_quals_inputs) = Ok (y, r))
    by (eexists _, _; vm_compute; reflexivity).
  split; [exact H|]. destruct H as (y & r & H).
  split; [|vm_compute; reflexivity].
  exact (proj1 (qual_relation_ids_index_edges demo_conv st low_quals_inputs
                  y r eq_refl H)).
Defined.

Lemma trip_ignores_quals_witness :
  let st := mkModuleState false None tt tt in
  i_prop_type (demo_inputs "trip") = "trip"%string /\
  forward demo_conv st
    (with_quals (demo_inputs "trip") (mkQuals [7; 8] [5; 5] [9; 9])) =
    forward demo_conv st (demo_inputs "trip") /\
  exists y r, fst (forward demo_conv st (demo_inputs "trip")) = Ok (y, r).
Proof.
  intros st. split; [reflexivity|].
  split; [apply (trip_ignores_quals demo_conv st (demo_inputs "trip")
                   (mkQuals [7; 8] [5; 5] [9; 9]) eq_refl)|].
  eexists _, _. vm_compute. reflexivity.
Defined.

Lemma both_ignores_edge_type_witness :
  let st := mkModuleState false None tt tt in
  i_prop_type (demo_inputs "both") = "both"%string /\
  forward demo_conv st (with_edge_type (demo_inputs "both") [1; 3]) =
    forward demo_conv st (demo_inputs "both") /\
  exists y r, fst (forward demo_conv st (demo_inputs "both")) = Ok (y, r).
Proof.
  intros st. split; [reflexivity|].
  split; [apply (both_ignores_edge_type demo_conv st (demo_inputs "both")
                   [1; 3] eq_refl)|].
  eexists _, _. vm_compute. reflexivity.
Defined.

Lemma both_ignores_objects_witness :
  let st := mkModuleState false None tt tt in
  i_prop_type (demo_inputs "both") = "both"%string /\
  length [2; 2] = length (ix1 (i_edge_index (demo_inputs "both"))) /\
  Forall (fun v => v < size0 (object_table (demo_inputs "both")))
    (ix1 (i_edge_index (demo_inputs "both"))) /\
  Forall (fun v => v < size0 (object_table (demo_inputs "both"))) [2; 2] /\
  forward demo_conv st (with_second_endpoints (demo_inputs "both") [2; 2]) =
    forward demo_conv st (demo_inputs "both").
Proof.
  intros st.
  assert (H1 : Forall (fun v => v < size0 (object_table (demo_inputs "both")))
                 (ix1 (i_edge_index (demo_inputs "both"))))
    by (repeat constructor; vm_compute; lia).
  assert (H2 : Forall (fun v => v < size0 (object_table (demo_inputs "both")))
                 [2; 2])
    by (repeat constructor; vm_compute; lia).
  split; [reflexivity|]. split; [reflexivity|].
  split; [exact H1|]. split; [exact H2|].
  apply (both_ignores_objects demo_conv st (demo_inputs "both") [2; 2]
           eq_refl eq_refl H1 H2).
Defined.

End LayerCallRuns.

(** ** The normalisation helper, on extended reals *)

Section NormFacts.
Import Py Torch Layer LayerSpec XReal.
Local Open Scope nat_scope.

Lemma sum_of_ones (k : nat) : forall a : R,
  fold_left xadd (replicate k (Fin 1)) (Fin a) = Fin (a + INR k).
Proof.
  induction k as [|k IH]; intros a.
  - simpl. f_equal. lra.
  - rewrite S_INR. simpl replicate. simpl fold_left. rewrite IH. f_equal. lra.
Qed.

Lemma sent_to_const {V} (c : V) (t : nat) (index : list nat) :
  sent_to t index (map (fun _ => c) index) =
  replicate (length (filter (fun u => u = t) index)) c.
Proof.
  unfold sent_to. induction index as [|i index IH]; [reflexivity|]. simpl.
  destruct (decide (i = t)) as [->|Hne].
  - rewrite !filter_cons_True by reflexivity. simpl. f_equal. exact IH.
  - rewrite !filter_cons_False by (simpl; congruence). exact IH.
Qed.

Lemma inv_degree_count (k : nat) :
  inv_degree (Fin (0 + INR k)) = Fin (inv_sqrt_or_zero k).
Proof.
  unfold inv_degree, xpow_neg_half, by_sign. rewrite Rplus_0_l.
  destruct k as [|k].
  - simpl INR. destruct (Rlt_dec 0 0) as [H|_]; [lra|]. reflexivity.
  - pose proof (lt_0_INR (S k) ltac:(lia)) as Hpos.
    destruct (Rlt_dec (INR (S k)) 0) as [H|_]; [lra|].
    destruct (Rlt_dec 0 (INR (S k))) as [_|H]; [|lra].
    reflexivity.
Qed.

Lemma compute_norm_exact (row col : list nat) (N : nat) :
  length row = length col ->
  Forall (fun v => v < N) row ->
  Forall (fun v => v < N) col ->
  let w := fun v => inv_sqrt_or_zero (head_count (mkIndex2 row col) v) in
  compute_norm (mkIndex2 row col) N =
    Ok (zip_with (fun r c => Fin (w r * 1 * w c)%R) row col).
Proof.
  intros Hlen Hrow Hcol w. unfold compute_norm. simpl ix0. simpl ix1.
  destruct (scatter_add_gen_ok (fadd (F := xreal)) fzero
              (map (fun _ => fone) row) row N) as (deg & Hd & Hdl & Hdk);
    [rewrite length_map; reflexivity|exact Hrow|].
  rewrite Hd. simpl rbind.
  rewrite map_map.
  set (deg_inv := map _ deg).
  assert (Hnth : forall v, v < N -> nth v deg_inv (Fin 0) = Fin (w v)).
  { intros v Hv. apply nth_lookup_Some with (d := Fin 0).
    unfold deg_inv. rewrite list_lookup_fmap, (Hdk v Hv). simpl.
    rewrite sent_to_const, sum_of_ones. f_equal.
    apply inv_degree_count. }
  assert (Hg : forall idx, Forall (fun v => v < N) idx ->
                gather deg_inv idx = Ok (map (fun v => Fin (w v)) idx)).
  { intros idx Hidx. rewrite (gather_ok (Fin 0)).
    - f_equal. apply map_ext_in. intros v Hv. apply Hnth.
      rewrite Forall_forall in Hidx. apply Hidx. apply list_elem_of_In. exact Hv.
    - unfold deg_inv. rewrite length_map, Hdl. exact Hidx. }
  rewrite (Hg row Hrow). simpl rbind. rewrite (Hg col Hcol). simpl rbind.
  unfold ew1. rewrite !length_map, bdim_same. simpl rbind.
  rewrite bzip_same by (rewrite !length_map; reflexivity).
  rewrite length_zip_with, !length_map, Nat.min_id, Hlen, bdim_same. simpl rbind.
  rewrite bzip_same by (rewrite length_zip_with, !length_map; lia).
  f_equal.
  rewrite zip_with_fmap_l, zip_with_fmap_r.
  clearbody w. clear. revert col.
  induction row as [|r row IH]; intros [|c col]; simpl; try reflexivity.
  f_equal. apply IH.
Qed.

Lemma zip_with_Fin_Forall (P : xreal -> Prop) (Q : nat -> Prop)
    (g : nat -> nat -> R) (row col : list nat) :
  (forall r c, Q r -> Q c -> P (Fin (g r c))) ->
  Forall Q row -> Forall Q col ->
  Forall P (zip_with (fun r c => Fin (g r c)) row col).
Proof.
  intros Hg Hrow. revert col.
  induction Hrow as [|r row Hr Hrow IH]; intros [|c col] Hcol;
    simpl; constructor.
  - inversion Hcol; subst. apply Hg; assumption.
  - inversion Hcol; subst. apply IH. assumption.
Qed.

(** C6, as amended: for an edge list with endpoints below [N] the helper
    counts, per entity, the edges that have it as first endpoint (row 0 of
    the edge list, the head), takes that degree to the power -0.5 with the
    infinity at degree zero set to zero, and returns for every edge the
    product of the two values at its endpoints; every weight is finite, and
    when every entity is the first endpoint of exactly one edge every weight
    is 1. *)
Theorem compute_norm_weights (row col : list nat) (N : nat) :
  length row = length col ->
  Forall (fun v => v < N) row ->
  Forall (fun v => v < N) col ->
  let ei := mkIndex2 row col in
  let w := fun v => inv_sqrt_or_zero (head_count ei v) in
  exists ws,
    compute_norm ei N = Ok ws /\
    length ws = length row /\
    (forall e r c, row !! e = Some r -> col !! e = Some c ->
       ws !! e = Some (Fin (w r * 1 * w c)%R)) /\
    Forall is_finite ws /\
    ((forall v, v < N -> head_count ei v = 1) ->
     Forall (fun x => x = Fin 1) ws).
Proof.
  intros Hlen Hrow Hcol ei w.
  exists (zip_with (fun r c => Fin (w r * 1 * w c)%R) row col).
  split; [apply compute_norm_exact; assumption|].
  split; [rewrite length_zip_with; lia|].
  split.
  { intros e r c Hr Hc. rewrite lookup_zip_with, Hr. simpl. rewrite Hc.
    reflexivity. }
  split.
  { apply (zip_with_Fin_Forall is_finite (fun v => v < N));
      [intros; exact I|assumption..]. }
  intros Hone.
  assert (Hw : forall v, v < N -> w v = 1%R).
  { intros v Hv. unfold w. rewrite (Hone v Hv). simpl.
    rewrite sqrt_1. apply Rinv_1. }
  apply (zip_with_Fin_Forall _ (fun v => v < N)); [|assumption..].
  intros r c Hr Hc. rewrite !Hw by assumption. f_equal. lra.
Qed.

End NormFacts.

Section NormRuns.
Import Py Torch Layer LayerSpec XReal.
Local Open Scope nat_scope.

Lemma compute_norm_weights_witness :
  length (ix0 cycle_edges) = length (ix1 cycle_edges) /\
  Forall (fun v => v < 3) (ix0 cycle_edges) /\
  Forall (fun v => v < 3) (ix1 cycle_edges) /\
  exists ws,
    compute_norm cycle_edges 3 = Ok ws /\
    Forall is_finite ws /\
    Forall (fun x => x = Fin 1) ws.
Proof.
  assert (H1 : Forall (fun v => v < 3) [0; 1; 2]) by (repeat constructor; lia).
  assert (H2 : Forall (fun v => v < 3) [1; 2; 0]) by (repeat constructor; lia).
  split; [reflexivity|]. split; [exact H1|]. split; [exact H2|].
  destruct (compute_norm_weights [0; 1; 2] [1; 2; 0] 3 eq_refl H1 H2)
    as (ws & Hws & _ & _ & Hfin & Hone).
  exists ws. split; [exact Hws|]. split; [exact Hfin|].
  apply Hone. intros v Hv.
  destruct v as [|[|[|v]]]; [reflexivity..|lia].
Defined.

(** C6 as stated fails: in [fan_edges] each of the two entities has exactly
    one incoming edge, yet the weights are 0 and 1/2, because the degree is
    counted at the first endpoint: 2 for entity 0 and 0 for entity 1. *)
Lemma in_degree_one_weights_not_one :
  (forall v, v < 2 -> in_degree fan_edges v = 1) /\
  head_count fan_edges 0 = 2 /\
  head_count fan_edges 1 = 0 /\
  compute_norm fan_edges 2 = Ok [Fin 0; Fin (/ 2)].
Proof.
  split.
  { intros v Hv. destruct v as [|[|v]]; [reflexivity..|lia]. }
  split; [reflexivity|]. split; [reflexivity|].
  unfold fan_edges. rewrite compute_norm_exact;
    [|reflexivity|repeat constructor; lia..].
  unfold head_count; simpl.
  replace (/ sqrt (1 + 1) * 1 * 0)%R with 0%R by lra.
  replace (/ sqrt (1 + 1) * 1 * / sqrt (1 + 1))%R with (/ 2)%R; [reflexivity|].
  rewrite Rmult_1_r, <- Rinv_mult, sqrt_sqrt by lra. reflexivity.
Qed.

End NormRuns.

(** ** The normalisation helper: bounds and range *)

Section NormBoundsFacts.
Import Py Torch Layer LayerSpec.
Local Open Scope nat_scope.
Context {F : Type} {SF : Scalar F}.

(** X11: on an edge list (two rows of one length) [compute_norm] returns
    exactly when every endpoint is below [num_ent]; an endpoint at or above
    it ends the call in an exception. *)
Theorem compute_norm_returns_iff_in_range (edge_index : Index2) (N : nat) :
  length (ix0 edge_index) = length (ix1 edge_index) ->
  (exists ws : list F, compute_norm edge_index N = Ok ws) <->
  Forall (fun v => v < N) (ix0 edge_index) /\
  Forall (fun v => v < N) (ix1 edge_index).
Proof.
  intros Hlen. destruct edge_index as [row col]. cbn [ix0 ix1] in *.
  unfold compute_norm. cbn [ix0 ix1]. split.
  - intros (ws & H).
    destruct (scatter_add_gen fadd fzero (map (fun _ => fone) row) row N)
      as [deg|x] eqn:Hd; [|discriminate].
    cbn [rbind] in H.
    destruct (gather _ row) as [a|x] eqn:Ha; [|discriminate]. cbn [rbind] in H.
    destruct (gather _ col) as [b|x] eqn:Hb; [|discriminate].
    apply gather_lookup_range in Ha as [_ Ha], Hb as [_ Hb].
    rewrite !length_map in Ha, Hb.
    pose proof (scatter_add_gen_inv _ _ _ _ _ _ Hd) as [Hdl _].
    rewrite Hdl in Ha, Hb. auto.
  - intros [Hrow Hcol].
    destruct (scatter_add_gen_ok (fadd (F := F)) fzero
                (map (fun _ => fone) row) row N) as (deg & Hd & Hdl & _);
      [rewrite length_map; reflexivity|exact Hrow|].
    rewrite Hd. cbn [rbind].
    rewrite (gather_ok fzero _ row)
      by (rewrite !length_map, Hdl; exact Hrow).
    cbn [rbind].
    rewrite (gather_ok fzero _ col)
      by (rewrite !length_map, Hdl; exact Hcol).
    cbn [rbind].
    unfold ew1. rewrite !length_map, bdim_same. cbn [rbind].
    rewrite bzip_same by (rewrite !length_map; reflexivity).
    rewrite length_zip_with, !length_map, Nat.min_id, Hlen, bdim_same.
    cbn [rbind]. eexists. reflexivity.
Qed.

End NormBoundsFacts.

Section NormRangeFacts.
Import Py Torch Layer LayerSpec XReal.
Local Open Scope nat_scope.

Lemma inv_sqrt_or_zero_range (d : nat) :
  (0 <= inv_sqrt_or_zero d <= 1)%R /\
  (inv_sqrt_or_zero d = 0%R <-> d = 0).
Proof.
  destruct d as [|d].
  - simpl. split; [lra|]. split; reflexivity.
  - unfold inv_sqrt_or_zero.
    assert (H1 : (1 <= INR (S d))%R).
    { rewrite S_INR. pose proof (pos_INR d). lra. }
    assert (Hs : (1 <= sqrt (INR (S d)))%R).
    { rewrite <- sqrt_1. apply sqrt_le_1_alt. exact H1. }
    assert (Hp : (0 < / sqrt (INR (S d)))%R) by (apply Rinv_0_lt_compat; lra).
    assert (Hle : (/ sqrt (INR (S d)) <= 1)%R).
    { rewrite <- Rinv_1. apply Rinv_le_contravar; lra. }
    split; [lra|]. split; [lra|discriminate].
Qed.

Lemma head_count_pos (row col : list nat) (e r : nat) :
  row !! e = Some r -> head_count (mkIndex2 row col) r <> 0.
Proof.
  intros Hr. unfold head_count. cbn [ix0].
  assert (Hin : r ∈ filter (fun u => u = r) row).
  { apply list_elem_of_filter. split; [reflexivity|].
    eapply list_elem_of_lookup_2. exact Hr. }
  destruct (filter (fun u => u = r) row); [inversion Hin|discriminate].
Qed.

(** X12: without rounding, every weight that [compute_norm] returns lies
    between 0 and 1, and the weight of an edge is 0 exactly when its second
    endpoint is the first endpoint of no edge of the list. *)
Theorem compute_norm_weights_in_unit_interval (row col : list nat) (N : nat) :
  length row = length col ->
  Forall (fun v => v < N) row ->
  Forall (fun v => v < N) col ->
  exists ws,
    compute_norm (mkIndex2 row col) N = Ok ws /\
    forall e r c, row !! e = Some r -> col !! e = Some c ->
      exists w : R,
        ws !! e = Some (Fin w) /\
        (0 <= w <= 1)%R /\
        (w = 0%R <-> head_count (mkIndex2 row col) c = 0).
Proof.
  intros Hlen Hrow Hcol.
  eexists. split; [apply compute_norm_exact; assumption|].
  intros e r c Hr Hc. eexists. split.
  { rewrite lookup_zip_with, Hr. simpl. rewrite Hc. reflexivity. }
  pose proof (head_count_pos row col e r Hr) as Hpos.
  destruct (inv_sqrt_or_zero_range (head_count (mkIndex2 row col) r))
    as [Hr1 Hr0].
  destruct (inv_sqrt_or_zero_range (head_count (mkIndex2 row col) c))
    as [Hc1 Hc0].
  set (wr := inv_sqrt_or_zero (head_count (mkIndex2 row col) r)) in *.
  set (wc := inv_sqrt_or_zero (head_count (mkIndex2 row col) c)) in *.
  assert (Hwr : (0 < wr)%R).
  { destruct (Req_dec wr 0) as [E|E]; [apply Hr0 in E; contradiction|lra]. }
  split; [split; nra|].
  rewrite <- Hc0. split; intros H; nra.
Qed.

End NormRangeFacts.

Section NormBoundsRuns.
Import Py Torch Layer LayerSpec XReal F64.
Local Open Scope nat_scope.

Lemma compute_norm_returns_iff_in_range_witness :
  length (ix0 cycle_edges) = length (ix1 cycle_edges) /\
  ((exists ws : list float, compute_norm cycle_edges 3 = Ok ws) <->
   Forall (fun v => v < 3) (ix0 cycle_edges) /\
   Forall (fun v => v < 3) (ix1 cycle_edges)) /\
  compute_norm (F := float) cycle_edges 2 = Raise RuntimeError /\
  compute_norm (F := float) fan_edges 1 = Raise IndexError.
Proof.
  split; [reflexivity|].
  split; [apply (compute_norm_returns_iff_in_range cycle_edges 3 eq_refl)|].
  split; vm_compute; reflexivity.
Defined.

Lemma compute_norm_weights_in_unit_interval_witness :
  length [0; 0] = length [1; 0] /\
  Forall (fun v => v < 2) [0; 0] /\
  Forall (fun v => v < 2) [1; 0] /\
  exists ws,
    compute_norm (mkIndex2 [0; 0] [1; 0]) 2 = Ok ws /\
    exists w : R, ws !! 0 = Some (Fin w) /\ w = 0%R.
Proof.
  assert (H1 : Forall (fun v => v < 2) [0; 0]) by (repeat constructor; lia).
  assert (H2 : Forall (fun v => v < 2) [1; 0]) by (repeat constructor; lia).
  split; [reflexivity|]. split; [exact H1|]. split; [exact H2|].
  destruct (compute_norm_weights_in_unit_interval [0; 0] [1; 0] 2
              eq_refl H1 H2) as (ws & Hws & Hw).
  exists ws. split; [exact Hws|].
  destruct (Hw 0 0 1 eq_refl eq_refl) as (w & Hl & _ & Hz).
  exists w. split; [exact Hl|]. apply Hz. reflexivity.
Defined.

End NormBoundsRuns.

(** ** The top-level model *)

Section ModelFacts.
Import Py Torch Model ModelSpec.
Local Open Scope nat_scope.
Context {F : Type} {SF : Scalar F}.
Variable self : HypRelModel F.

Lemma parallel_forward_fuses (trip_ent_out e r : Tensor F) :
  parallel_forward self trip_ent_out e r = parallel_fusion_on self e r trip_ent_out.
Proof.
  unfold parallel_forward, parallel_fusion_on, fuse.
  destruct (qual_encoder self "qual" e r) as [[x r']|]; [|reflexivity].
  cbn [rbind fst snd].
  destruct (cat1 trip_ent_out x) as [c|]; [|reflexivity]. cbn [rbind].
  destruct (attr (ent_parallel_matrix self)) as [m|]; [|reflexivity]. cbn [rbind].
  destruct (mm c m) as [p|]; [|reflexivity]. cbn [rbind].
  destruct (attr (ent_parallel_drop self)) as [d|]; [|reflexivity]. cbn [rbind].
  destruct (attr (ent_parallel_lnorm self)) as [l|]; reflexivity.
Qed.

(** Under [ONLY-TRIPS] the output of the triple encoder is decoded as it is,
    whatever the parallel flag. *)
Lemma only_trips_skips_fusion :
  ONLY_TRIPS (config self) = true ->
  forward_embs self =
    trip_encoder self "trip" (ent_embs self) (rel_embs self).
Proof.
  intros Ho. unfold forward_embs. rewrite Ho. cbn [negb].
  destruct (trip_encoder self "trip" (ent_embs self) (rel_embs self))
    as [[x1 r1]|]; reflexivity.
Qed.

(** C2, as amended: when the parallel flag is set and [ONLY-TRIPS] is not,
    [forward] runs the qualifier encoder on the original entity embeddings
    and on the relation output of the triple encoder, concatenates its
    entity output with the triple encoder's along the feature axis, projects
    through the fusion matrix and applies dropout, then layer normalisation,
    whatever the batch. *)
Theorem parallel_fusion_dataflow :
  parallel self = true ->
  ONLY_TRIPS (config self) = false ->
  forward_embs self =
    rbind (trip_encoder self "trip" (ent_embs self) (rel_embs self))
      (fun x1r1 =>
         parallel_fusion_on self (ent_embs self) (snd x1r1) (fst x1r1)).
Proof.
  intros Hp Ho. unfold forward_embs. rewrite Ho, Hp. cbn [negb].
  destruct (trip_encoder self "trip" (ent_embs self) (rel_embs self))
    as [[x1 r1]|]; [|reflexivity].
  cbn [rbind fst snd]. apply parallel_forward_fuses.
Qed.

End ModelFacts.

Section ModelRuns.
Import Py Torch Model ModelSpec F64.
Local Open Scope nat_scope.

(** C2 as stated fails twice.  The qualifier encoder is given the relation
    output of the triple encoder, not the original relation embeddings: on
    [demo_model] the code returns ([[4, 6]], [[2, 2]]) where the wording of
    the specification gives ([[3, 5]], [[1, 1]]).  And with [ONLY-TRIPS] set
    the parallel flag changes nothing: the triple encoder's output
    ([[1, 2]], [[2, 2]]) is returned. *)
Lemma parallel_uses_triple_relations :
  parallel (demo_model false) = true /\
  forward_embs (demo_model false) =
    Ok (mkTensor 2 [[4; 6]]%float, mkTensor 2 [[2; 2]]%float) /\
  spec_parallel_embs (demo_model false) =
    Ok (mkTensor 2 [[3; 5]]%float, mkTensor 2 [[1; 1]]%float) /\
  parallel (demo_model true) = true /\
  forward_embs (demo_model true) =
    Ok (mkTensor 2 [[1; 2]]%float, mkTensor 2 [[2; 2]]%float).
Proof. repeat split; vm_compute; reflexivity. Qed.

Lemma parallel_fusion_dataflow_witness :
  parallel (demo_model false) = true /\
  ONLY_TRIPS (config (demo_model false)) = false /\
  forward_embs (demo_model false) =
    rbind (trip_encoder (demo_model false) "trip"
             (ent_embs (demo_model false)) (rel_embs (demo_model false)))
      (fun x1r1 =>
         parallel_fusion_on (demo_model false)
           (ent_embs (demo_model false)) (snd x1r1) (fst x1r1)).
Proof.
  split; [reflexivity|]. split; [reflexivity|].
  apply (parallel_fusion_dataflow (demo_model false) eq_refl eq_refl).
Defined.

End ModelRuns.

(** ** The top-level model: the batch of embeddings that is decoded *)

Section ModelBatchFacts.
Import Py Torch Model.
Local Open Scope nat_scope.
Context {F : Type} {SF : Scalar F}.

Lemma mapM_length {A B} (f : A -> result B) (l : list A) : forall out,
  mapM f l = Ok out -> length out = length l.
Proof.
  induction l as [|a l IH]; intros out H; simpl in H.
  - inversion H. reflexivity.
  - destruct (f a) as [b|]; [|discriminate]. simpl in H.
    destruct (mapM f l) as [bs|]; [|discriminate]. simpl in H.
    inversion H. simpl. f_equal. apply IH. reflexivity.
Qed.

Lemma mapM_app {A B} (f : A -> result B) (l1 l2 : list A) :
  mapM f (l1 ++ l2) =
    rbind (mapM f l1) (fun o1 => rbind (mapM f l2) (fun o2 => Ok (o1 ++ o2))).
Proof.
  induction l1 as [|a l1 IH]; simpl.
  - destruct (mapM f l2); reflexivity.
  - destruct (f a) as [b|]; [|reflexivity]. simpl. rewrite IH.
    destruct (mapM f l1) as [o1|]; [|reflexivity]. simpl.
    destruct (mapM f l2); reflexivity.
Qed.

Lemma mapM_concat {A B C} (f : A -> result B) (g : C -> list A) (ls : list C) :
  mapM f (concat (map g ls)) =
    rbind (mapM (fun c => mapM f (g c)) ls) (fun os => Ok (concat os)).
Proof.
  induction ls as [|c ls IH]; [reflexivity|].
  cbn [map concat]. rewrite mapM_app, IH. cbn [mapM].
  destruct (mapM f (g c)) as [o|]; [|reflexivity]. cbn [rbind].
  destruct (mapM _ ls) as [os|]; reflexivity.
Qed.

Lemma mapM_Forall_length {A B C} (f : A -> result B) (g : C -> list A)
    (q : nat) (ls : list C) : forall os,
  Forall (fun c => length (g c) = q) ls ->
  mapM (fun c => mapM f (g c)) ls = Ok os ->
  Forall (fun o => length o = q) os.
Proof.
  induction ls as [|c ls IH]; intros os Hq H; simpl in H.
  - inversion H. constructor.
  - inversion Hq as [|? ? Hc Hls]; subst.
    destruct (mapM f (g c)) as [o|] eqn:Ho; [|discriminate]. simpl in H.
    destruct (mapM _ ls) as [os'|]; [|discriminate]. simpl in H.
    inversion H; subst. constructor; [|apply IH; auto].
    apply mapM_length in Ho. congruence.
Qed.

Lemma every_other_length {A} (l : list A) :
  length (every_other l) = Nat.div2 (S (length l)).
Proof.
  assert (H : forall l : list A,
             length (every_other l) = Nat.div2 (S (length l)) /\
             forall a, length (every_other (a :: l)) =
                       Nat.div2 (S (length (a :: l)))).
  { clear l. induction l as [|b l [IH1 IH2]].
    - split; [reflexivity|intros a; reflexivity].
    - split; [apply IH2|]. intros a. cbn [every_other length].
      rewrite IH1. reflexivity. }
  apply H.
Qed.

Lemma chunks_concat {A} (q : nat) (ls : list (list A)) :
  Forall (fun l => length l = q) ls ->
  chunks (length ls) q (concat ls) = ls.
Proof.
  induction 1 as [|l ls Hl _ IH]; [reflexivity|].
  cbn [length chunks concat].
  rewrite take_app_length', drop_app_length' by (symmetry; exact Hl).
  rewrite IH. reflexivity.
Qed.

Lemma concat_length_const {A} (q : nat) (ls : list (list A)) :
  Forall (fun l => length l = q) ls ->
  length (concat ls) = length ls * q.
Proof.
  induction 1 as [|l ls Hl _ IH]; [reflexivity|].
  cbn [concat length]. rewrite length_app, IH, Hl. lia.
Qed.

Lemma view3_concat (c q : nat) (ls : list (list (list F))) :
  ls <> [] ->
  Forall (fun l => length l = q) ls ->
  view3 (length ls) (mkTensor c (concat ls)) = Ok ls.
Proof.
  intros Hne Hq. unfold view3, size0. cbn [rows].
  rewrite (concat_length_const q ls Hq).
  assert (Hn : length ls <> 0) by (destruct ls; [contradiction|discriminate]).
  destruct (Nat.eqb_spec (length ls) 0) as [E|_]; [contradiction|].
  rewrite Nat.mul_comm, Nat.Div0.mod_mul, Nat.eqb_refl.
  rewrite Nat.div_mul by exact Hn.
  rewrite chunks_concat by exact Hq. reflexivity.
Qed.

Lemma index_rows_size (t : Tensor F) (idx : list nat) (out : Tensor F) :
  index_rows t idx = Ok out -> size0 out = length idx.
Proof.
  unfold index_rows, gather. intros H.
  destruct (mapM _ idx) as [rs|] eqn:Hm; [|discriminate].
  inversion H; subst. apply mapM_length in Hm. exact Hm.
Qed.

(** The flattened qualifier columns, indexed and viewed per batch row. *)
Lemma index_rows_concat (t : Tensor F) (g : list nat -> list nat)
    (quals_ix : list (list nat)) :
  index_rows t (concat (map g quals_ix)) =
    rbind (mapM (fun row => gather (rows t) (g row)) quals_ix)
      (fun os => Ok (mkTensor (cols t) (concat os))).
Proof.
  unfold index_rows, gather. rewrite mapM_concat.
  destruct (mapM _ quals_ix); reflexivity.
Qed.

Lemma view3_gathered (t : Tensor F) (g : list nat -> list nat) (w c : nat)
    (quals_ix : list (list nat)) (os : list (list (list F))) :
  quals_ix <> [] ->
  (forall r1 r2 : list nat, length r1 = length r2 ->
     length (g r1) = length (g r2)) ->
  Forall (fun row => length row = w) quals_ix ->
  mapM (fun row => gather (rows t) (g row)) quals_ix = Ok os ->
  view3 (length quals_ix) (mkTensor c (concat os)) = Ok os.
Proof.
  intros Hne Hg Hw Ho.
  pose proof (mapM_length _ _ _ Ho) as Hl. rewrite <- Hl.
  destruct quals_ix as [|row0 rest]; [contradiction|].
  apply (view3_concat _ (length (g row0))).
  - destruct os; [discriminate|discriminate].
  - unfold gather in Ho.
    eapply (mapM_Forall_length _ g (length (g row0))); [|exact Ho].
    inversion Hw as [|? ? H0 Hr]; subst.
    constructor; [reflexivity|].
    eapply Forall_impl; [exact Hr|]. cbn beta. intros row Hrow.
    apply Hg. exact Hrow.
Qed.

(** X14: for a batch that is not empty, with one subject, one relation and
    one row of [quals_ix] per statement and embeddings of positive width,
    [index_embs] pairs every statement with the embeddings of its own
    qualifiers: flattening the qualifier columns, indexing and [view] give,
    for statement [b], the entity rows at [quals_ix[b, 1::2]] and the
    relation rows at [quals_ix[b, 0::2]], in their order; an id outside the
    tables raises as it does in the flat indexing. *)
Theorem index_embs_by_statement (x r : Tensor F) (sub_ix rel_ix : list nat)
    (quals_ix : list (list nat)) (w : nat) :
  0 < cols x -> 0 < cols r ->
  quals_ix <> [] ->
  length sub_ix = length quals_ix ->
  length rel_ix = length quals_ix ->
  Forall (fun row => length row = w) quals_ix ->
  index_embs x r sub_ix rel_ix quals_ix =
    rbind (index_rows x sub_ix) (fun sub_emb =>
    rbind (index_rows r rel_ix) (fun rel_emb =>
    rbind (mapM (fun row => gather (rows x) (every_other (drop 1 row)))
             quals_ix) (fun qual_obj_emb =>
    rbind (mapM (fun row => gather (rows r) (every_other row))
             quals_ix) (fun qual_rel_emb =>
    Ok (sub_emb, rel_emb, qual_obj_emb, qual_rel_emb))))).
Proof.
  intros _ _ Hne Hs Hr Hw. unfold index_embs. cbv zeta.
  destruct (index_rows x sub_ix) as [s|] eqn:Es; [|reflexivity].
  destruct (index_rows r rel_ix) as [re|] eqn:Er; [|reflexivity].
  cbn [rbind].
  apply index_rows_size in Es, Er. rewrite Es, Er, Hs, Hr.
  rewrite (index_rows_concat x (fun row => every_other (drop 1 row))).
  rewrite (index_rows_concat r every_other).
  destruct (mapM (fun row => gather (rows x) (every_other (drop 1 row)))
              quals_ix) as [qo|] eqn:Eo; [|reflexivity].
  destruct (mapM (fun row => gather (rows r) (every_other row)) quals_ix)
    as [qr|] eqn:Eq; [|reflexivity].
  cbn [rbind].
  rewrite (view3_gathered x (fun row => every_other (drop 1 row)) w _ _ qo);
    try assumption.
  2:{ intros r1 r2 H12. rewrite !every_other_length, !length_drop.
      congruence. }
  cbn [rbind].
  rewrite (view3_gathered r every_other w _ _ qr); try assumption.
  2:{ intros r1 r2 H12. rewrite !every_other_length. congruence. }
  reflexivity.
Qed.

(** X15: an empty batch is refused: with no subject the first size of the
    [view] is 0 and its [-1] cannot be inferred, so [index_embs] raises and
    with it [forward], whatever the model and the other arguments are. *)
Theorem empty_batch_raises (self : HypRelModel F) (x r : Tensor F)
    (rel_ix : list nat) (quals_ix : list (list nat)) (aux_ent : option AuxEnt) :
  (exists e, index_embs x r [] rel_ix quals_ix = Raise e) /\
  (exists e, forward self [] rel_ix quals_ix aux_ent = Raise e).
Proof.
  assert (H : forall x r : Tensor F,
             exists e, index_embs x r [] rel_ix quals_ix = Raise e).
  { clear x r. intros x r. unfold index_embs. cbv zeta.
    change (index_rows x []) with (Ok (mkTensor (cols x) []) : result (Tensor F)).
    cbn [rbind].
    destruct (index_rows r rel_ix) as [re|]; [|eexists; reflexivity].
    cbn [rbind].
    destruct (index_rows x (concat _)) as [qo|]; [|eexists; reflexivity].
    cbn [rbind].
    destruct (index_rows r (concat _)) as [qr|]; [|eexists; reflexivity].
    cbn [rbind]. eexists. reflexivity. }
  split; [apply H|].
  unfold forward. destruct (forward_embs self) as [[x' r']|];
    [|eexists; reflexivity].
  cbn [rbind fst snd]. destruct (H x' r') as (e & He). rewrite He.
  eexists. reflexivity.
Qed.

End ModelBatchFacts.

Section ModelBatchRuns.
Import Py Torch Model ModelSpec F64.
Local Open Scope nat_scope.

Lemma index_embs_by_statement_witness :
  let x := mkTensor 2 [[1; 2]; [3; 4]; [5; 6]]%float in
  let r := mkTensor 2 [[1; 0]; [0; 1]]%float in
  0 < cols x /\ 0 < cols r /\
  [[0; 2; 1; 1]; [1; 0; 0; 2]] <> [] /\
  Forall (fun row => length row = 4) [[0; 2; 1; 1]; [1; 0; 0; 2]] /\
  index_embs x r [0; 1] [1; 0] [[0; 2; 1; 1]; [1; 0; 0; 2]] =
    Ok (mkTensor 2 [[1; 2]; [3; 4]]%float,
        mkTensor 2 [[0; 1]; [1; 0]]%float,
        [[[5; 6]; [3; 4]]; [[1; 2]; [5; 6]]]%float,
        [[[1; 0]; [0; 1]]; [[0; 1]; [1; 0]]]%float).
Proof.
  intros x r.
  assert (Hw : Forall (fun row => length row = 4)
                 [[0; 2; 1; 1]; [1; 0; 0; 2]])
    by (repeat constructor).
  split; [simpl; lia|]. split; [simpl; lia|]. split; [discriminate|].
  split; [exact Hw|].
  rewrite (index_embs_by_statement x r [0; 1] [1; 0]
             [[0; 2; 1; 1]; [1; 0; 0; 2]] 4
             ltac:(simpl; lia) ltac:(simpl; lia) ltac:(discriminate)
             eq_refl eq_refl Hw).
  reflexivity.
Defined.

End ModelBatchRuns.
